(** * InvestmentReco: the valuation and ranking engines

    A shallow embedding of [utils/financial_calculator.py] and
    [utils/recommendation_engine.py], of the ticker normalization and the
    failure handling of [utils/data_fetcher.py], and of the arithmetic of
    the goal analysis in [app.py].

    Python floats are idealised as the real numbers of the Standard
    Library: rounding and overflow are not represented.  What Python does
    beyond arithmetic is represented explicitly:
    - an exception is a [Raise] result;
    - a float divided by zero raises [ZeroDivisionError];
    - a negative float raised to a fractional power is a [complex];
    - the missing value (NaN) of pandas is [None] in a [cell];
    - the default sort of pandas is numpy's quicksort, an introsort that
      is not stable: it is represented step by step. *)

From Stdlib Require Import Reals Lra Lia ZArith List String Permutation Sorted.
From stdpp Require Import gmap strings.
Import ListNotations.

Open Scope string_scope.
Open Scope list_scope.
Open Scope R_scope.

(** ** The Python runtime the two modules rely on *)

Module Py.

Inductive exn : Type :=
| ZeroDivisionError
| ValueError.

Inductive result (A : Type) : Type :=
| Ok (a : A)
| Raise (e : exn).

Arguments Ok {A} a.
Arguments Raise {A} e.

Definition bind {A B : Type} (r : result A) (k : A -> result B) : result B :=
  match r with
  | Ok a => k a
  | Raise e => Raise e
  end.

Definition returns {A : Type} (r : result A) : Prop :=
  exists a, r = Ok a.

(** A Python number as these modules meet it: a float, or the complex
    that [**] produces from a negative base. *)
Inductive num : Type :=
| PyFloat (x : R)
| PyComplex (re im : R).


Definition num_add (a b : num) : num :=
  match a, b with
  | PyFloat x, PyFloat y => PyFloat (x + y)
  | PyFloat x, PyComplex c d => PyComplex (x + c) d
  | PyComplex a0 b0, PyFloat y => PyComplex (a0 + y) b0
  | PyComplex a0 b0, PyComplex c d => PyComplex (a0 + c) (b0 + d)
  end.

Definition num_sub (a b : num) : num :=
  match a, b with
  | PyFloat x, PyFloat y => PyFloat (x - y)
  | PyFloat x, PyComplex c d => PyComplex (x - c) (- d)
  | PyComplex a0 b0, PyFloat y => PyComplex (a0 - y) b0
  | PyComplex a0 b0, PyComplex c d => PyComplex (a0 - c) (b0 - d)
  end.

Definition num_mul (a b : num) : num :=
  match a, b with
  | PyFloat x, PyFloat y => PyFloat (x * y)
  | PyFloat x, PyComplex c d => PyComplex (x * c) (x * d)
  | PyComplex a0 b0, PyFloat y => PyComplex (a0 * y) (b0 * y)
  | PyComplex a0 b0, PyComplex c d =>
      PyComplex (a0 * c - b0 * d) (a0 * d + b0 * c)
  end.

(** The comparisons [x <= y], [x < y] and [x == y] on floats. *)
Definition leb (x y : R) : bool := if Rle_dec x y then true else false.
Definition ltb (x y : R) : bool := if Rlt_dec x y then true else false.
Definition eqb (x y : R) : bool := if Req_dec_T x y then true else false.

(** [x / y] on floats. *)
Definition div (x y : R) : result R :=
  if eqb y 0 then Raise ZeroDivisionError else Ok (x / y).

(** [b ** n] for a float [b] and an int [n]. *)
Definition pow_int (b : R) (n : Z) : result R :=
  if (0 <=? n)%Z then Ok (b ^ Z.to_nat n)
  else if eqb b 0 then Raise ZeroDivisionError
  else Ok (/ (b ^ Z.to_nat (- n))).

(** [b ** (1/12)] for a float [b]: the real twelfth root of a positive
    base, [0.0] for a zero base, and for a negative base the principal
    complex root [|b|^(1/12) * (cos (pi/12) + i sin (pi/12))]. *)
Definition pow_twelfth (b : R) : num :=
  if ltb 0 b then PyFloat (Rpower b (/ 12))
  else if eqb b 0 then PyFloat 0
  else PyComplex (Rpower (- b) (/ 12) * cos (PI / 12))
                 (Rpower (- b) (/ 12) * sin (PI / 12)).

End Py.

Import Py.

Notation "'try' x ':=' r 'in' k" := (Py.bind r (fun x => k))
  (at level 10, x name, r at level 100, k at level 200).

(** ** utils/financial_calculator.py *)

Definition calculate_future_value
    (present_value inflation_rate : R) (years : Z) : result R :=
  try p := pow_int (1 + inflation_rate) years in
  Ok (present_value * p).

Definition calculate_one_time_investment
    (future_value expected_return : R) (years : Z) : result R :=
  if (years <=? 0)%Z || Py.leb expected_return 0
  then Ok future_value
  else
    try p := pow_int (1 + expected_return) years in
    Py.div future_value p.

(** The monthly rate equivalent to an annual rate; past the guard of
    [calculate_monthly_investment] the base [1 + expected_return] exceeds
    1, so [**] is the real power. *)
Definition monthly_rate_of (expected_return : R) : R :=
  Rpower (1 + expected_return) (/ 12) - 1.

Definition calculate_monthly_investment
    (future_value expected_return : R) (years : Z) : result R :=
  if (years <=? 0)%Z || Py.leb expected_return 0
  then
    if (0 <? years)%Z
    then Py.div future_value (IZR (years * 12))
    else Ok future_value
  else
    let monthly_rate := monthly_rate_of expected_return in
    let months := (years * 12)%Z in
    try p := pow_int (1 + monthly_rate) months in
    let denominator := p - 1 in
    if Py.eqb denominator 0
    then Py.div future_value (IZR months)
    else Py.div (future_value * monthly_rate) denominator.

(** One pass of the inner [for month in range(12)] loop. *)
Definition month_step (monthly_rate : num) (monthly_investment : R)
    (year_end_value : num) : num :=
  num_add (num_mul year_end_value (num_add (PyFloat 1) monthly_rate))
          (PyFloat monthly_investment).

(** One pass of the outer loop: [values.append(year_end_value)]. *)
Definition year_step (monthly_rate : num) (monthly_investment : R)
    (values : list num) : list num :=
  let prev_value := List.last values (PyFloat 0) in
  values ++ [Nat.iter 12 (month_step monthly_rate monthly_investment) prev_value].

Definition calculate_investment_growth
    (initial_investment monthly_investment expected_return : R)
    (years : Z) : list num :=
  let monthly_rate := num_sub (pow_twelfth (1 + expected_return)) (PyFloat 1) in
  Nat.iter (Z.to_nat years) (year_step monthly_rate monthly_investment)
           [PyFloat initial_investment].

Definition calculate_roi (total_invested final_value : R) : result R :=
  if Py.eqb total_invested 0 then Ok 0
  else
    try q := Py.div (final_value - total_invested) total_invested in
    Ok (q * 100).

(** The allocation dict, as the list of its items. *)
Definition calculate_asset_allocation (risk_profile : string) (amount : R)
    : list (string * R) :=
  if String.eqb risk_profile "Conservative"
  then [("Equity", 0.3); ("Debt", 0.6); ("Gold", 0.1)]
  else if String.eqb risk_profile "Moderate"
  then [("Equity", 0.5); ("Debt", 0.4); ("Gold", 0.1)]
  else if String.eqb risk_profile "Aggressive"
  then [("Equity", 0.7); ("Debt", 0.25); ("Gold", 0.05)]
  else [("Equity", 0.5); ("Debt", 0.4); ("Gold", 0.1)].

(** ** utils/recommendation_engine.py: the static recommendation tables *)

(** A value stored in the characteristics dicts. *)
Inductive pyval : Type :=
| VNum (x : R)
| VStr (s : string)
| VStrs (l : list string).

Module Stocks.

Definition risk_mappings : gmap string (gmap string pyval) :=
  <["Conservative" :=
      <["min_market_cap" := VNum 50000]>
      (<["max_beta" := VNum 0.8]>
      (<["min_dividend_yield" := VNum 1.0]>
      (<["sectors" := VStrs ["FMCG"; "IT"; "Pharma"]]> ∅)))]>
  (<["Moderate" :=
      <["min_market_cap" := VNum 20000]>
      (<["max_beta" := VNum 1.2]>
      (<["min_dividend_yield" := VNum 0.5]>
      (<["sectors" := VStrs ["Banking"; "Auto"; "Chemicals"; "IT"]]> ∅)))]>
  (<["Aggressive" :=
      <["min_market_cap" := VNum 5000]>
      (<["max_beta" := VNum 1.5]>
      (<["min_dividend_yield" := VNum 0.0]>
      (<["sectors" := VStrs ["Auto"; "Banking"; "Metal"; "Realty"]]> ∅)))]>
  ∅)).

Definition goal_adjustments : gmap string (gmap string (gmap string pyval)) :=
  <["Retirement" :=
      <["Conservative" := <["min_dividend_yield" := VNum 2.0]> ∅]>
      (<["Moderate" := <["min_dividend_yield" := VNum 1.0]> ∅]>
      (<["Aggressive" := <["min_dividend_yield" := VNum 0.5]> ∅]> ∅))]>
  (<["Child Education" :=
      <["Conservative" := <["max_beta" := VNum 0.7]> ∅]>
      (<["Moderate" := <["max_beta" := VNum 1.0]> ∅]>
      (<["Aggressive" := <["max_beta" := VNum 1.3]> ∅]> ∅))]>
  ∅).

Definition stock_universe : gmap string (list string) :=
  <["Conservative" :=
      ["TCS.NS"; "HINDUNILVR.NS"; "NESTLEIND.NS"; "SUNPHARMA.NS";
       "BAJAJFINSV.NS"; "HDFCBANK.NS"; "ITC.NS"; "ASIANPAINT.NS";
       "POWERGRID.NS"; "NTPC.NS"]]>
  (<["Moderate" :=
      ["INFY.NS"; "RELIANCE.NS"; "HDFCBANK.NS"; "ICICIBANK.NS";
       "KOTAKBANK.NS"; "TCS.NS"; "AXISBANK.NS"; "MARUTI.NS";
       "HINDUNILVR.NS"; "BAJAJFINSV.NS"]]>
  (<["Aggressive" :=
      ["RELIANCE.NS"; "TATAMOTORS.NS"; "TATASTEEL.NS"; "JINDALSTEL.NS";
       "SBIN.NS"; "LT.NS"; "M&M.NS"; "INDUSINDBK.NS"; "ADANIPORTS.NS";
       "HINDALCO.NS"]]>
  ∅)).

(** [risk_profile] after the default to "Moderate". *)
Definition effective_profile (risk_profile : string) : string :=
  match risk_mappings !! risk_profile with
  | Some _ => risk_profile
  | None => "Moderate"
  end.

(** The local [risk_mappings] once the goal-specific adjustments are
    written into the entry of the profile: every item of the adjustment
    dict overwrites the item of the same key. *)
Definition adjusted_mappings (risk_profile goal_type : string)
    : gmap string (gmap string pyval) :=
  match goal_adjustments !! goal_type with
  | Some per_profile =>
      match per_profile !! risk_profile with
      | Some items => alter (fun entry => items ∪ entry) risk_profile risk_mappings
      | None => risk_mappings
      end
  | None => risk_mappings
  end.

Definition recommend_stocks (risk_profile goal_type : string)
    (amount_needed : R) : list string :=
  let risk_profile := effective_profile risk_profile in
  let risk_mappings := adjusted_mappings risk_profile goal_type in
  match stock_universe !! risk_profile with
  | Some universe => firstn 5 universe
  | None => firstn 5 (default [] (stock_universe !! "Moderate"))
  end.

End Stocks.

Module Funds.

Definition risk_mappings : gmap string (gmap string pyval) :=
  <["Conservative" :=
      <["fund_types" := VStrs ["Debt"; "Hybrid"]]>
      (<["max_volatility" := VNum 10]>
      (<["min_return" := VNum 7]> ∅))]>
  (<["Moderate" :=
      <["fund_types" := VStrs ["Hybrid"; "Equity"]]>
      (<["max_volatility" := VNum 15]>
      (<["min_return" := VNum 10]> ∅))]>
  (<["Aggressive" :=
      <["fund_types" := VStrs ["Equity"; "Sectoral"]]>
      (<["max_volatility" := VNum 20]>
      (<["min_return" := VNum 12]> ∅))]>
  ∅)).

Definition goal_adjustments : gmap string (gmap string pyval) :=
  <["Retirement" :=
      <["timeframe" := VStr "Long Term"]>
      (<["preferred_types" := VStrs ["Equity"; "Index"]]> ∅)]>
  (<["Child Education" :=
      <["timeframe" := VStr "Medium Term"]>
      (<["preferred_types" := VStrs ["Hybrid"; "Balanced"]]> ∅)]>
  (<["Marriage" :=
      <["timeframe" := VStr "Medium Term"]>
      (<["preferred_types" := VStrs ["Hybrid"; "Debt"]]> ∅)]>
  (<["New House" :=
      <["timeframe" := VStr "Medium Term"]>
      (<["preferred_types" := VStrs ["Debt"; "Hybrid"]]> ∅)]>
  ∅))).

Definition mf_universe : gmap string (list string) :=
  <["Conservative" :=
      ["HDFCDBT.BO"; "ICBPRUD.BO"; "AXBBND.BO"; "SMCBALQ.BO"; "TBABRG.BO"]]>
  (<["Moderate" :=
      ["HDFCSF.BO"; "ICBPBAQ.BO"; "KOTBLD.BO"; "UTSMCP.BO"; "AXISMQ.BO"]]>
  (<["Aggressive" :=
      ["HDFCMQ.BO"; "ICICGR.BO"; "NIPPCQ.BO"; "KOTSMQ.BO"; "AXISSQ.BO"]]>
  ∅)).

Definition recommend_mutual_funds (risk_profile goal_type : string)
    (amount_needed : R) : list string :=
  match mf_universe !! risk_profile with
  | Some universe => firstn 5 universe
  | None => firstn 5 (default [] (mf_universe !! "Moderate"))
  end.

End Funds.

(** The weights handed to [calculate_portfolio_metrics]: a Python list or
    a numpy array. *)
Inductive weights_obj : Type :=
| WeightList (l : list R)
| WeightArray (a : list R).

Definition weights_values (w : weights_obj) : list R :=
  match w with
  | WeightList l => l
  | WeightArray a => a
  end.

(** The truth value that [not weights] asks for: a list is true when it is
    not empty; an array of one element has the truth value of the element,
    an array of several elements has none and raises [ValueError], and an
    empty array, which [get_portfolio_weights] never returns, is false (as
    in numpy before release 2.2). *)
Definition weights_truth (w : weights_obj) : result bool :=
  match w with
  | WeightList [] => Ok false
  | WeightList (_ :: _) => Ok true
  | WeightArray [] => Ok false
  | WeightArray [x] => Ok (negb (Py.eqb x 0))
  | WeightArray (_ :: _ :: _) => Raise ValueError
  end.

(** The empty list for no ticker, and [np.ones(n) / n] otherwise: equal
    weights, whatever the profile. *)
Definition get_portfolio_weights (tickers : list string) (risk_profile : string)
    : weights_obj :=
  let n := length tickers in
  if (n =? 0)%nat then WeightList [] else WeightArray (repeat (1 / INR n) n).

Record Metrics : Type := {
  metric_expected_return : R;
  metric_volatility : R;
  metric_sharpe_ratio : R;
  metric_max_drawdown : R
}.

Definition no_metrics : Metrics :=
  {| metric_expected_return := 0; metric_volatility := 0;
     metric_sharpe_ratio := 0; metric_max_drawdown := 0 |}.

Definition placeholder_metrics : Metrics :=
  {| metric_expected_return := 0.12; metric_volatility := 0.15;
     metric_sharpe_ratio := 0.8; metric_max_drawdown := -0.2 |}.

(** [not tickers or not weights or len(tickers) != len(weights)], with the
    short circuit of [or]. *)
Definition calculate_portfolio_metrics (tickers : list string)
    (weights : weights_obj) : result Metrics :=
  match tickers with
  | [] => Ok no_metrics
  | _ :: _ =>
      try truthy := weights_truth weights in
      if negb truthy then Ok no_metrics
      else if negb (length tickers =? length (weights_values weights))%nat
      then Ok no_metrics
      else Ok placeholder_metrics
  end.

(** ** utils/recommendation_engine.py: the ranking engine *)

(** *** pandas and numpy on one column *)

(** A float64 cell of a Series; [None] is NaN. *)
Definition cell : Type := option R.

Definition cell_map (f : R -> R) (c : cell) : cell :=
  match c with
  | Some x => Some (f x)
  | None => None
  end.

Definition cell_map2 (f : R -> R -> R) (a b : cell) : cell :=
  match a, b with
  | Some x, Some y => Some (f x y)
  | _, _ => None
  end.

(** [x / y] on cells.  A quotient by zero has no real value (numpy gives
    an infinity or NaN): it is a missing cell here, and the statements
    below keep to positive closes, where it does not occur. *)
Definition cell_div (x y : R) : cell :=
  if Py.eqb y 0 then None else Some (x / y).

Fixpoint dropna (s : list cell) : list R :=
  match s with
  | [] => []
  | Some x :: rest => x :: dropna rest
  | None :: rest => dropna rest
  end.

Definition series_sum (l : list R) : R := fold_right Rplus 0 l.

(** [Series.mean()]: NaN on an empty Series. *)
Definition mean (l : list R) : cell :=
  match l with
  | [] => None
  | _ :: _ => Some (series_sum l / INR (length l))
  end.

(** [Series.std()], with the default [ddof=1]: NaN on fewer than two values. *)
Definition std (l : list R) : cell :=
  match mean l with
  | None => None
  | Some avg =>
      if (length l <=? 1)%nat then None
      else Some (sqrt (series_sum (map (fun x => (avg - x) ^ 2) l) / (INR (length l) - 1)))
  end.

(** [Series.min()] and [Series.max()], [np.nanmin] and [np.nanmax]: NaN
    cells are skipped, and the result is NaN when nothing is left. *)
Definition nanmin (s : list cell) : cell :=
  match dropna s with
  | [] => None
  | x :: rest => Some (fold_left Rmin rest x)
  end.

Definition nanmax (s : list cell) : cell :=
  match dropna s with
  | [] => None
  | x :: rest => Some (fold_left Rmax rest x)
  end.

Fixpoint pct_change_from (prev : R) (close : list R) : list cell :=
  match close with
  | [] => []
  | p :: rest => cell_map (fun q => q - 1) (cell_div p prev) :: pct_change_from p rest
  end.

(** [Series.pct_change()]: the first cell is NaN. *)
Definition pct_change (close : list R) : list cell :=
  match close with
  | [] => []
  | p :: rest => None :: pct_change_from p rest
  end.

Fixpoint cummax_from (m : R) (close : list R) : list R :=
  match close with
  | [] => []
  | p :: rest => Rmax m p :: cummax_from (Rmax m p) rest
  end.

Definition cummax (close : list R) : list R :=
  match close with
  | [] => []
  | p :: rest => p :: cummax_from p rest
  end.

(** [k * s] and [a + b] on Series over one index. *)
Definition series_scale (k : R) (s : list cell) : list cell :=
  map (cell_map (Rmult k)) s.

Fixpoint series_add (a b : list cell) : list cell :=
  match a, b with
  | x :: a', y :: b' => cell_map2 Rplus x y :: series_add a' b'
  | _, _ => []
  end.

(** *** sklearn's MinMaxScaler on one column *)

Definition handle_zeros_in_scale (scale : R) : R :=
  if Py.eqb scale 0 then 1 else scale.

(** [MinMaxScaler().fit_transform(col.reshape(-1, 1))] with the default
    feature range (0, 1): the fit ignores NaN cells, the transform keeps
    them. *)
Definition fit_transform (col : list cell) : list cell :=
  match nanmin col, nanmax col with
  | Some data_min, Some data_max =>
      let data_range := data_max - data_min in
      let scale_ := (1 - 0) / handle_zeros_in_scale data_range in
      let min_ := 0 - data_min * scale_ in
      map (cell_map (fun x => x * scale_ + min_)) col
  | _, _ => map (fun _ => None) col
  end.

(** *** The features of one instrument *)

(** The price frame of one instrument, as its [Close] column. *)
Definition frame : Type := list R.

(** [data.empty] *)
Definition frame_empty (data : frame) : bool :=
  match data with
  | [] => true
  | _ :: _ => false
  end.

Definition daily_returns (data : frame) : list R := dropna (pct_change data).

Definition annual_return (data : frame) : cell :=
  cell_map (fun m => (1 + m) ^ 252 - 1) (mean (daily_returns data)).

Definition volatility (data : frame) : cell :=
  cell_map (fun s => s * sqrt 252) (std (daily_returns data)).

Definition risk_free_rate : R := 0.05.

(** [(annual_return - risk_free_rate) / volatility if volatility > 0 else 0];
    the comparison is false on NaN. *)
Definition sharpe (data : frame) : cell :=
  match volatility data with
  | Some v =>
      if Py.ltb 0 v
      then cell_map (fun a => (a - risk_free_rate) / v) (annual_return data)
      else Some 0
  | None => Some 0
  end.

(** [(data['Close'] / data['Close'].cummax() - 1).min()] *)
Definition drawdown (data : frame) : cell :=
  nanmin (map (fun pc => cell_map (fun q => q - 1) (cell_div (fst pc) (snd pc)))
              (combine data (cummax data))).

(** *** numpy's argsort *)

(** [ndarray.argsort(kind='quicksort')] on an array without NaN, as the
    generic [aquicksort_] and [aheapsort_] of numpy's npysort run it: an
    introsort.  The rows stand for the indices in [tosort], and [less]
    for [Tag::less] on the keys of two rows. *)
Section Npysort.

Context {A : Type} (less : A -> A -> bool).

Local Open Scope nat_scope.

(** [INTP_SWAP(a[i], a[j])] *)
Definition swap (i j : nat) (a : list A) : list A :=
  match a !! i, a !! j with
  | Some x, Some y => <[j := x]> (<[i := y]> a)
  | _, _ => a
  end.

(** [if (less(a[i], a[j])) INTP_SWAP(a[i], a[j])] *)
Definition swap_if_less (i j : nat) (a : list A) : list A :=
  match a !! i, a !! j with
  | Some x, Some y => if less x y then swap i j a else a
  | _, _ => a
  end.

(** One pass of the insertion loop: the row [x] enters at the right of
    the sorted rows, listed here from right to left, and moves left past
    every row greater than it. *)
Fixpoint shift_in (x : A) (sorted : list A) : list A :=
  match sorted with
  | [] => [x]
  | y :: rest => if less x y then y :: shift_in x rest else x :: y :: rest
  end.

(** The insertion sort of a partition, from its first row to its last. *)
Definition insertion_sort (a : list A) : list A :=
  rev (fold_left (fun sorted x => shift_in x sorted) a []).

(** [do ++pi; while (less(a[pi], vp));] *)
Fixpoint scan_up (fuel : nat) (vp : A) (pi : nat) (a : list A) : nat :=
  match fuel, a !! S pi with
  | S fuel, Some x => if less x vp then scan_up fuel vp (S pi) a else S pi
  | _, _ => S pi
  end.

(** [do --pj; while (less(vp, a[pj]));] *)
Fixpoint scan_down (vp : A) (pj : nat) (a : list A) : nat :=
  match pj with
  | O => O
  | S pj' =>
      match a !! pj' with
      | Some x => if less vp x then scan_down vp pj' a else pj'
      | None => pj'
      end
  end.

(** The [for (;;)] loop of the partition: the two scans, then the swap of
    the rows they stopped on, until the scans meet. *)
Fixpoint partition_loop (fuel : nat) (vp : A) (pi pj : nat) (a : list A)
    : nat * list A :=
  let pi := scan_up (length a) vp pi a in
  let pj := scan_down vp pj a in
  if pj <=? pi then (pi, a)
  else match fuel with
       | O => (pi, a)
       | S fuel => partition_loop fuel vp pi pj (swap pi pj a)
       end.

(** The partition of an array of more than 17 rows around the median of
    its first, middle and last row: the place of the pivot, and the
    array. *)
Definition partition (a : list A) : nat * list A :=
  let pl := 0 in
  let pr := length a - 1 in
  let pm := pl + (pr - pl) / 2 in
  let a := swap_if_less pm pl a in
  let a := swap_if_less pr pm a in
  let a := swap_if_less pm pl a in
  match a !! pm with
  | Some vp =>
      let a := swap pm (pr - 1) a in
      let '(pi, a) := partition_loop (length a) vp pl (pr - 1) a in
      (pi, swap pi (pr - 1) a)
  | None => (pl, a)
  end.

(** Heapsort counts the rows from 1: [a = tosort - 1]. *)
Definition heap_get (j : nat) (a : list A) : option A := a !! (j - 1).

Definition heap_set (j : nat) (x : A) (a : list A) : list A :=
  <[j - 1 := x]> a.

(** The inner loop of both phases of heapsort: [tmp] sinks from the slot
    [i] into the heap of the first [n] rows. *)
Fixpoint sift_down (fuel : nat) (tmp : A) (i n : nat) (a : list A) : list A :=
  match fuel with
  | O => heap_set i tmp a
  | S fuel =>
      let j := i + i in
      if n <? j then heap_set i tmp a
      else
        let j :=
          match heap_get j a, heap_get (j + 1) a with
          | Some x, Some y => if (j <? n) && less x y then j + 1 else j
          | _, _ => j
          end in
        match heap_get j a with
        | Some y =>
            if less tmp y then sift_down fuel tmp j n (heap_set i y a)
            else heap_set i tmp a
        | None => heap_set i tmp a
        end
  end.

(** [for (l = n >> 1; l > 0; --l)] *)
Fixpoint build_heap (l n : nat) (a : list A) : list A :=
  match l with
  | O => a
  | S l' =>
      match heap_get l a with
      | Some tmp => build_heap l' n (sift_down n tmp l n a)
      | None => a
      end
  end.

(** [for (; n > 1;)] *)
Fixpoint drain_heap (n : nat) (a : list A) : list A :=
  match n with
  | O => a
  | S m =>
      if m =? 0 then a
      else
        match heap_get n a, heap_get 1 a with
        | Some tmp, Some top =>
            drain_heap m (sift_down m tmp 1 m (heap_set n top a))
        | _, _ => a
        end
  end.

Definition aheapsort (a : list A) : list A :=
  let n := length a in
  drain_heap n (build_heap (n / 2) n a).

(** The loop of [aquicksort_]: while the array has more than 17 rows
    ([pr - pl > SMALL_QUICKSORT]) it is partitioned, the smaller part is
    sorted next and the larger part waits on the stack with the depth
    that is left, to be heap-sorted when it is popped with that depth
    used up; an array of at most 17 rows is sorted by insertion.  The
    parts do not overlap, so the array that results is the sorted parts
    around the pivot. *)
Fixpoint aquicksort_loop (fuel : nat) (cdepth : Z) (a : list A) : list A :=
  if length a <=? 17 then insertion_sort a
  else
    match fuel with
    | O => a
    | S fuel =>
        let '(pi, a) := partition a in
        let left := take pi a in
        let pivot := take 1 (drop pi a) in
        let right := drop (S pi) a in
        let cdepth := (cdepth - 1)%Z in
        if length left <? length right
        then aquicksort_loop fuel cdepth left ++ pivot
             ++ (if (cdepth <? 0)%Z then aheapsort right
                 else aquicksort_loop fuel cdepth right)
        else (if (cdepth <? 0)%Z then aheapsort left
              else aquicksort_loop fuel cdepth left)
             ++ pivot ++ aquicksort_loop fuel cdepth right
    end.

(** [npy_get_msb]: the position of the highest bit of [n]. *)
Definition npy_get_msb (n : nat) : Z := Z.log2 (Z.of_nat n).

Definition aquicksort (a : list A) : list A :=
  aquicksort_loop (length a) (npy_get_msb (length a) * 2) a.

End Npysort.

(** *** The ranking *)

(** The four feature lists that the loop over [historical_data] fills. *)
Record Features : Type := {
  feat_return : list cell;
  feat_volatility : list cell;
  feat_sharpe : list cell;
  feat_max_dd : list cell
}.

Definition no_features : Features :=
  {| feat_return := []; feat_volatility := []; feat_sharpe := []; feat_max_dd := [] |}.

(** One pass of [for ticker, data in historical_data.items()]. *)
Definition features_step (features : Features) (item : string * frame) : Features :=
  let data := snd item in
  if frame_empty data then features
  else
    {| feat_return := feat_return features ++ [annual_return data];
       feat_volatility := feat_volatility features ++ [volatility data];
       feat_sharpe := feat_sharpe features ++ [sharpe data];
       feat_max_dd := feat_max_dd features ++ [drawdown data] |}.

Record DataFrame : Type := {
  col_ticker : list string;
  col_return : list cell;
  col_volatility : list cell;
  col_sharpe : list cell;
  col_max_dd : list cell
}.

(** [pd.DataFrame({...})] from a dict of lists: all the lists must have
    one length, or the constructor raises [ValueError]. *)
Definition DataFrame_of (tickers : list string) (features : Features)
    : result DataFrame :=
  let n := length tickers in
  if ((length (feat_return features) =? n)%nat
      && (length (feat_volatility features) =? n)%nat
      && (length (feat_sharpe features) =? n)%nat
      && (length (feat_max_dd features) =? n)%nat)%bool
  then Ok {| col_ticker := tickers;
             col_return := feat_return features;
             col_volatility := feat_volatility features;
             col_sharpe := feat_sharpe features;
             col_max_dd := feat_max_dd features |}
  else Raise ValueError.

(** The frame built from [historical_data], a dict in insertion order. *)
Definition build_frame (historical_data : list (string * frame))
    : result DataFrame :=
  let tickers := map fst historical_data in
  let features := fold_left features_step historical_data no_features in
  DataFrame_of tickers features.

(** The [_norm] column of a feature that is better when higher; on an
    empty column the scalar 0 is broadcast over no rows. *)
Definition norm_direct (col : list cell) : list cell :=
  match col with
  | [] => []
  | _ :: _ => fit_transform col
  end.

(** The [_norm] column of a feature that is inverted. *)
Definition norm_inverted (col : list cell) : list cell :=
  match col with
  | [] => []
  | _ :: _ => map (cell_map (fun y => 1 - y)) (fit_transform col)
  end.

Record Norms : Type := {
  return_norm : list cell;
  sharpe_norm : list cell;
  volatility_norm : list cell;
  max_dd_norm : list cell
}.

Definition normalize (df : DataFrame) : Norms :=
  {| return_norm := norm_direct (col_return df);
     sharpe_norm := norm_direct (col_sharpe df);
     volatility_norm := norm_inverted (col_volatility df);
     max_dd_norm := norm_inverted (col_max_dd df) |}.

Record Weights : Type := {
  w_return : R;
  w_volatility : R;
  w_sharpe : R;
  w_max_dd : R
}.

Definition conservative_weights : Weights :=
  {| w_return := 0.2; w_volatility := 0.4; w_sharpe := 0.3; w_max_dd := 0.1 |}.
Definition moderate_weights : Weights :=
  {| w_return := 0.3; w_volatility := 0.3; w_sharpe := 0.3; w_max_dd := 0.1 |}.
Definition aggressive_weights : Weights :=
  {| w_return := 0.4; w_volatility := 0.2; w_sharpe := 0.3; w_max_dd := 0.1 |}.

Definition weights : gmap string Weights :=
  <["Conservative" := conservative_weights]>
  (<["Moderate" := moderate_weights]>
  (<["Aggressive" := aggressive_weights]> ∅)).

(** [weights.get(risk_profile, weights["Moderate"])] *)
Definition weights_for (risk_profile : string) : Weights :=
  default moderate_weights (weights !! risk_profile).

Definition score_column (w : Weights) (n : Norms) : list cell :=
  series_add
    (series_add
      (series_add (series_scale (w_return w) (return_norm n))
                  (series_scale (w_volatility w) (volatility_norm n)))
      (series_scale (w_sharpe w) (sharpe_norm n)))
    (series_scale (w_max_dd w) (max_dd_norm n)).

(** The rows of a frame seen through its [ticker] and [score] columns. *)
Definition row : Type := (string * cell)%type.

(** [Tag::less] on the scores of two rows; no score is NaN here. *)
Definition score_less (x y : string * R) : bool := Py.ltb (snd x) (snd y).

(** [scores.argsort()] with the default [kind='quicksort'], the rows
    standing for their indices. *)
Definition argsort_asc (rows : list (string * R)) : list (string * R) :=
  aquicksort score_less rows.

Fixpoint scored (rows : list row) : list (string * R) :=
  match rows with
  | [] => []
  | (t, Some s) :: rest => (t, s) :: scored rest
  | (_, None) :: rest => scored rest
  end.

Fixpoint unscored (rows : list row) : list string :=
  match rows with
  | [] => []
  | (_, Some _) :: rest => unscored rest
  | (t, None) :: rest => t :: unscored rest
  end.

(** [df.sort_values("score", ascending=False)["ticker"]]: pandas reverses
    the rows with a score, sorts them ascending with numpy's quicksort,
    reverses the result, and puts the rows with a NaN score last, in
    their order. *)
Definition sort_values_desc (rows : list row) : list string :=
  map fst (rev (argsort_asc (rev (scored rows)))) ++ unscored rows.

(** The ticker and score columns just before the sort. *)
Definition score_table (historical_data : list (string * frame))
    (risk_profile : string) : result (list row) :=
  try df := build_frame historical_data in
  let w := weights_for risk_profile in
  Ok (combine (col_ticker df) (score_column w (normalize df))).

Definition simple_ml_recommendation (historical_data : list (string * frame))
    (risk_profile : string) : result (list string) :=
  match historical_data with
  | [] => Ok []
  | _ :: _ =>
      try rows := score_table historical_data risk_profile in
      Ok (sort_values_desc rows)
  end.

(** ** utils/data_fetcher.py *)

(** [s.endswith(suffix)]: some tail of [s] is [suffix]. *)
Fixpoint ends_with (suffix s : string) : bool :=
  if String.eqb s suffix then true
  else match s with
       | EmptyString => false
       | String _ rest => ends_with suffix rest
       end.

(** The ticker that [fetch_stock_data] and [get_stock_info] look up: the
    suffix of the National Stock Exchange is added unless the ticker
    already names an exchange. *)
Definition exchange_ticker (ticker : string) : string :=
  if (ends_with ".NS" ticker || ends_with ".BO" ticker)%bool
  then ticker
  else (ticker ++ ".NS")%string.

(** [fetch_stock_data] over the download of the market-data provider, which
    is outside the repository: a failed download gives an empty frame. *)
Definition fetch_stock_data (download : string -> result frame) (ticker : string)
    : frame :=
  match download (exchange_ticker ticker) with
  | Ok data => data
  | Raise _ => []
  end.

Definition fetch_mutual_fund_data (download : string -> result frame)
    (ticker : string) : frame :=
  match download ticker with
  | Ok data => data
  | Raise _ => []
  end.

(** ** app.py: the analysis of one goal *)

Module App.

(** The share of the amount that goes to stocks; indexing the dict with
    another profile raises [KeyError], which is [None] here. *)
Definition stock_allocation : gmap string R :=
  <["Conservative" := 0.3]> (<["Moderate" := 0.5]> (<["Aggressive" := 0.7]> ∅)).

Record Summary : Type := {
  future_value : R;
  amount_needed : R;
  one_time_investment : R;
  monthly_investment : R
}.

(** The financial summary: the inflated goal, what savings do not cover,
    and the two ways to invest for it. *)
Definition financial_summary
    (target_amount current_amount inflation_rate expected_return : R)
    (years_to_goal : Z) : result Summary :=
  try future_value :=
    calculate_future_value target_amount inflation_rate years_to_goal in
  let amount_needed := Rmax 0 (future_value - current_amount) in
  try one_time_investment :=
    calculate_one_time_investment amount_needed expected_return years_to_goal in
  try monthly_investment :=
    calculate_monthly_investment amount_needed expected_return years_to_goal in
  Ok {| future_value := future_value;
        amount_needed := amount_needed;
        one_time_investment := one_time_investment;
        monthly_investment := monthly_investment |}.

(** [np.array([1/len(l)] * len(l))] *)
Definition equal_weights (n : nat) : list R := repeat (1 / INR n) n.

Record Table : Type := {
  allocation_amounts : list R;
  one_time_allocations : list R;
  monthly_allocations : list R
}.

(** The allocation table of one asset class; it is not built when nothing
    is recommended. *)
Definition allocation_table (recommended : list string)
    (total one_time_investment monthly_investment allocation : R) : Table :=
  match recommended with
  | [] => {| allocation_amounts := []; one_time_allocations := [];
             monthly_allocations := [] |}
  | _ :: _ =>
      let weights := equal_weights (length recommended) in
      {| allocation_amounts := map (fun w => total * w) weights;
         one_time_allocations :=
           map (fun w => one_time_investment * allocation * w) weights;
         monthly_allocations :=
           map (fun w => monthly_investment * allocation * w) weights |}
  end.

Record Recommendations : Type := {
  recommended_stocks : list string;
  recommended_mutual_funds : list string;
  stock_total : R;
  mf_total : R;
  stocks_table : Table;
  mf_table : Table
}.

Definition recommendations (risk_profile goal_type : string) (s : Summary)
    : option Recommendations :=
  let recommended_stocks :=
    Stocks.recommend_stocks risk_profile goal_type (amount_needed s) in
  let recommended_mutual_funds :=
    Funds.recommend_mutual_funds risk_profile goal_type (amount_needed s) in
  match stock_allocation !! risk_profile with
  | None => None
  | Some stock_share =>
      let mf_share := 1 - stock_share in
      let stock_total := amount_needed s * stock_share in
      let mf_total := amount_needed s * mf_share in
      Some {| recommended_stocks := recommended_stocks;
              recommended_mutual_funds := recommended_mutual_funds;
              stock_total := stock_total;
              mf_total := mf_total;
              stocks_table :=
                allocation_table recommended_stocks stock_total
                  (one_time_investment s) (monthly_investment s) stock_share;
              mf_table :=
                allocation_table recommended_mutual_funds mf_total
                  (one_time_investment s) (monthly_investment s) mf_share |}
  end.

(** [[calculate_future_value(target_amount, inflation_rate, i) for i in
    range(n)]] *)
Fixpoint values_with_inflation_upto (target_amount inflation_rate : R) (n : nat)
    : result (list R) :=
  match n with
  | O => Ok []
  | S k =>
      try earlier := values_with_inflation_upto target_amount inflation_rate k in
      try value := calculate_future_value target_amount inflation_rate (Z.of_nat k) in
      Ok (earlier ++ [value])
  end.

(** One pass of the projection loop, on the pair of the two tracks. *)
Definition projection_step (expected_return monthly_investment : R)
    (tracks : list R * list R) : list R * list R :=
  let one_time_values := fst tracks in
  let monthly_values := snd tracks in
  (one_time_values ++ [List.last one_time_values 0 * (1 + expected_return)],
   monthly_values
     ++ [List.last monthly_values 0 * (1 + expected_return)
         + monthly_investment * 12]).

Record Projection : Type := {
  years : nat;
  values_with_inflation : list R;
  one_time_values : list R;
  monthly_values : list R
}.

(** The year-by-year projection; [years] is the length of
    [range(now, target_year + 1)], and the projection table needs columns
    of one length. *)
Definition growth_projection
    (target_amount current_amount inflation_rate expected_return : R)
    (years_to_goal : Z) (s : Summary) : result Projection :=
  let years := Z.to_nat (years_to_goal + 1) in
  try values_with_inflation :=
    values_with_inflation_upto target_amount inflation_rate years in
  let tracks :=
    Nat.iter (years - 1)
      (projection_step expected_return (monthly_investment s))
      ([current_amount + one_time_investment s], [current_amount]) in
  if ((length values_with_inflation =? years)%nat
      && (length (fst tracks) =? years)%nat
      && (length (snd tracks) =? years)%nat)%bool
  then Ok {| years := years;
             values_with_inflation := values_with_inflation;
             one_time_values := fst tracks;
             monthly_values := snd tracks |}
  else Raise ValueError.

Record Comparison : Type := {
  final_goal_value : R;
  final_one_time_value : R;
  final_monthly_value : R;
  one_time_total_invested : R;
  one_time_roi : R;
  monthly_total_invested : R;
  monthly_roi : R
}.

(** The comparison of the returns of the two tracks.  The tracks are not
    empty once the projection table is built, so [[-1]] is the last
    entry. *)
Definition returns_comparison (current_amount : R) (years_to_goal : Z)
    (s : Summary) (p : Projection) : result Comparison :=
  let final_goal_value := List.last (values_with_inflation p) 0 in
  let final_one_time_value := List.last (one_time_values p) 0 in
  let final_monthly_value := List.last (monthly_values p) 0 in
  let one_time_total_invested := one_time_investment s + current_amount in
  let one_time_returns := final_one_time_value - one_time_total_invested in
  try one_time_ratio := Py.div one_time_returns one_time_total_invested in
  let monthly_total_invested :=
    monthly_investment s * 12 * IZR years_to_goal + current_amount in
  let monthly_returns := final_monthly_value - monthly_total_invested in
  try monthly_ratio := Py.div monthly_returns monthly_total_invested in
  Ok {| final_goal_value := final_goal_value;
        final_one_time_value := final_one_time_value;
        final_monthly_value := final_monthly_value;
        one_time_total_invested := one_time_total_invested;
        one_time_roi := one_time_ratio * 100;
        monthly_total_invested := monthly_total_invested;
        monthly_roi := monthly_ratio * 100 |}.

(** The numbers of the growth tab for one goal. *)
Definition goal_analysis
    (target_amount current_amount inflation_rate expected_return : R)
    (years_to_goal : Z) : result Comparison :=
  try s := financial_summary target_amount current_amount inflation_rate
             expected_return years_to_goal in
  try p := growth_projection target_amount current_amount inflation_rate
             expected_return years_to_goal s in
  returns_comparison current_amount years_to_goal s p.

End App.

(** ** Closed forms used in the statements *)

(** The balance after [k] months of compounding at the monthly rate [m]
    with the contribution [p], on floats. *)
Fixpoint balance_after (m p : R) (k : nat) (v : R) : R :=
  match k with
  | O => v
  | S k' => balance_after m p k' v * (1 + m) + p
  end.

(** The frames that the feature loop does not skip. *)
Definition kept_frames (historical_data : list (string * frame)) : list frame :=
  List.filter (fun data => negb (frame_empty data)) (map snd historical_data).

(** One cell of [fit_transform col]. *)
Definition scaled (col : list cell) (c : cell) : cell :=
  match nanmin col, nanmax col with
  | Some data_min, Some data_max =>
      let scale_ := (1 - 0) / handle_zeros_in_scale (data_max - data_min) in
      cell_map (fun x => x * scale_ + (0 - data_min * scale_)) c
  | _, _ => None
  end.


(** A historical price series as the data model has it: not empty, with
    positive closes. *)
Definition price_series (data : frame) : Prop :=
  data <> [] /\ Forall (fun close => 0 < close) data.

(** The input of the ranking as the data model has it: a dict, so without
    repeated keys, of price series. *)
Definition price_history (historical_data : list (string * frame)) : Prop :=
  List.NoDup (map fst historical_data)
  /\ Forall (fun item => price_series (snd item)) historical_data.


(** The daily returns of a series of positive closes, after [prev]. *)
Fixpoint returns_from (prev : R) (close : list R) : list R :=
  match close with
  | [] => []
  | p :: rest => (p / prev - 1) :: returns_from p rest
  end.

(** A cell that holds a number of the interval [0, 1]. *)
Definition unit_cell (c : cell) : Prop :=
  exists y, c = Some y /\ 0 <= y <= 1.

(** Closes that rise, or fall, strictly from one day to the next. *)
Fixpoint rising_from (prev : R) (close : list R) : Prop :=
  match close with
  | [] => True
  | p :: rest => prev < p /\ rising_from p rest
  end.

Definition strictly_increasing (data : frame) : Prop :=
  match data with
  | [] => True
  | p :: rest => rising_from p rest
  end.

Fixpoint falling_from (prev : R) (close : list R) : Prop :=
  match close with
  | [] => True
  | p :: rest => p < prev /\ falling_from p rest
  end.

Definition strictly_decreasing (data : frame) : Prop :=
  match data with
  | [] => True
  | p :: rest => falling_from p rest
  end.

(** [a <= b] on cells that both hold a number. *)
Definition cell_le (a b : cell) : Prop :=
  match a, b with
  | Some x, Some y => x <= y
  | _, _ => False
  end.

(** The scaled value of [x] in a column of the two numbers [x] and [y]. *)
Definition pair_norm (x y : R) : R := if Py.ltb y x then 1 else 0.

(** The four features of [data] are the numbers [r], [v], [s] and [d]. *)
Definition has_features (data : frame) (r v s d : R) : Prop :=
  annual_return data = Some r /\ volatility data = Some v
  /\ sharpe data = Some s /\ drawdown data = Some d.

(** The score of an instrument of features [r], [v], [s], [d] when the
    only other instrument has the features [r'], [v'], [s'], [d']. *)
Definition pair_score (w : Weights) (r v s d r' v' s' d' : R) : R :=
  w_return w * pair_norm r r'
  + w_volatility w * (1 - pair_norm v v')
  + w_sharpe w * pair_norm s s'
  + w_max_dd w * (1 - pair_norm d d').

(** The score of one instrument among [frames], from its own frame. *)
Definition score_of (w : Weights) (frames : list frame) (data : frame) : cell :=
  cell_map2 Rplus
    (cell_map2 Rplus
      (cell_map2 Rplus
        (cell_map (Rmult (w_return w))
           (scaled (map annual_return frames) (annual_return data)))
        (cell_map (Rmult (w_volatility w))
           (cell_map (fun y => 1 - y)
              (scaled (map volatility frames) (volatility data)))))
      (cell_map (Rmult (w_sharpe w))
         (scaled (map sharpe frames) (sharpe data))))
    (cell_map (Rmult (w_max_dd w))
       (cell_map (fun y => 1 - y)
          (scaled (map drawdown frames) (drawdown data)))).



(** One instrument quoted in another unit. *)
Definition requoted (item item' : string * frame) : Prop :=
  fst item' = fst item
  /\ exists k, 0 < k /\ snd item' = map (Rmult k) (snd item).

(** * Properties *)

(** ** The Python runtime *)

Ltac cmp_cases :=
  split; intros; try discriminate; try reflexivity; try assumption;
  try lra; try congruence.

Lemma leb_true (x y : R) : Py.leb x y = true <-> x <= y.
Proof. unfold Py.leb. destruct (Rle_dec x y); cmp_cases. Qed.

Lemma leb_false (x y : R) : Py.leb x y = false <-> y < x.
Proof. unfold Py.leb. destruct (Rle_dec x y); cmp_cases. Qed.

Lemma ltb_true (x y : R) : Py.ltb x y = true <-> x < y.
Proof. unfold Py.ltb. destruct (Rlt_dec x y); cmp_cases. Qed.

Lemma ltb_false (x y : R) : Py.ltb x y = false <-> y <= x.
Proof. unfold Py.ltb. destruct (Rlt_dec x y); cmp_cases. Qed.

Lemma eqb_true (x y : R) : Py.eqb x y = true <-> x = y.
Proof. unfold Py.eqb. destruct (Req_dec_T x y); cmp_cases. Qed.

Lemma eqb_false (x y : R) : Py.eqb x y = false <-> x <> y.
Proof. unfold Py.eqb. destruct (Req_dec_T x y); cmp_cases. Qed.

Lemma eqb_refl (x : R) : Py.eqb x x = true.
Proof. apply eqb_true. reflexivity. Qed.

Lemma div_nonzero (x y : R) : y <> 0 -> Py.div x y = Ok (x / y).
Proof. intros H. unfold Py.div. apply eqb_false in H. rewrite H. reflexivity. Qed.

Lemma pow_int_nonneg (b : R) (n : Z) :
  (0 <= n)%Z -> pow_int b n = Ok (b ^ Z.to_nat n).
Proof.
  intros H. unfold pow_int.
  destruct (Z.leb_spec 0 n) as [_ | Hlt]; [reflexivity | lia].
Qed.

Lemma pow_twelfth_positive (b : R) :
  0 < b -> pow_twelfth b = PyFloat (Rpower b (/ 12)).
Proof.
  intros H. unfold pow_twelfth. apply ltb_true in H. rewrite H. reflexivity.
Qed.



(** ** The valuation engine *)

Lemma one_plus_pow_pos (r : R) (k : nat) : 0 < r -> 0 < (1 + r) ^ k.
Proof. intros H. apply pow_lt. lra. Qed.

Lemma monthly_rate_pos (r : R) : 0 < r -> 0 < monthly_rate_of r.
Proof.
  intros H. unfold monthly_rate_of.
  assert (H1 : Rpower (1 + r) 0 < Rpower (1 + r) (/ 12)).
  { apply Rpower_lt; lra. }
  rewrite Rpower_O in H1 by lra. lra.
Qed.

(** The guard shared by the two investment solvers. *)
Lemma guard_passed (r : R) (years : Z) :
  (0 < years)%Z -> 0 < r ->
  ((years <=? 0)%Z || Py.leb r 0)%bool = false.
Proof.
  intros Hy Hr.
  destruct (Z.leb_spec years 0) as [Hle | _]; [lia |].
  simpl. apply leb_false. exact Hr.
Qed.

(** C2: for every present value P, every rate r > 0 and every number of
    years n > 0, [calculate_one_time_investment] applied to
    [calculate_future_value P r n] gives back P: both calls return, and
    discounting undoes compounding exactly. *)
Theorem one_time_investment_inverts_future_value (P r : R) (n : Z) :
  0 < r -> (0 < n)%Z ->
  (try fv := calculate_future_value P r n in
   calculate_one_time_investment fv r n) = Ok P.
Proof.
  intros Hr Hn.
  unfold calculate_future_value, calculate_one_time_investment.
  rewrite pow_int_nonneg by lia. cbn [Py.bind].
  rewrite guard_passed by assumption.
  pose proof (one_plus_pow_pos r (Z.to_nat n) Hr) as Hpos.
  rewrite div_nonzero by lra.
  f_equal. field. lra.
Qed.

Lemma one_time_investment_inverts_future_value_witness :
  (try fv := calculate_future_value 100 0.05 5 in
   calculate_one_time_investment fv 0.05 5) = Ok 100.
Proof.
  apply (one_time_investment_inverts_future_value 100 0.05 5); [lra | lia].
Defined.

(** *** The branches of [calculate_monthly_investment] *)

Lemma months_nonzero (years : Z) : (0 < years)%Z -> IZR (years * 12) <> 0.
Proof. intros Hy. apply not_0_IZR. lia. Qed.

Lemma monthly_no_years (F r : R) (years : Z) :
  (years <= 0)%Z -> calculate_monthly_investment F r years = Ok F.
Proof.
  intros Hy. unfold calculate_monthly_investment.
  destruct (Z.leb_spec years 0) as [_ | Hgt]; [| lia]. cbn [orb].
  destruct (Z.ltb_spec 0 years) as [Hlt | _]; [lia | reflexivity].
Qed.

Lemma monthly_no_rate (F r : R) (years : Z) :
  (0 < years)%Z -> r <= 0 ->
  calculate_monthly_investment F r years = Ok (F / IZR (years * 12)).
Proof.
  intros Hy Hr. unfold calculate_monthly_investment.
  destruct (Z.leb_spec years 0) as [Hle0 | _]; [lia |]. cbn [orb].
  apply leb_true in Hr. rewrite Hr.
  destruct (Z.ltb_spec 0 years) as [_ | Hge]; [| lia].
  apply div_nonzero, months_nonzero, Hy.
Qed.

Lemma monthly_past_guard (F r : R) (years : Z) :
  (0 < years)%Z -> 0 < r ->
  calculate_monthly_investment F r years
  = let denominator := (1 + monthly_rate_of r) ^ Z.to_nat (years * 12) - 1 in
    if Py.eqb denominator 0
    then Py.div F (IZR (years * 12))
    else Py.div (F * monthly_rate_of r) denominator.
Proof.
  intros Hy Hr. unfold calculate_monthly_investment.
  rewrite guard_passed by assumption.
  rewrite pow_int_nonneg by lia. reflexivity.
Qed.

Lemma monthly_zero_denominator (F r : R) (years : Z) :
  (0 < years)%Z -> 0 < r ->
  (1 + monthly_rate_of r) ^ Z.to_nat (years * 12) - 1 = 0 ->
  calculate_monthly_investment F r years = Ok (F / IZR (12 * years)).
Proof.
  intros Hy Hr Hd. rewrite monthly_past_guard by assumption. cbv zeta.
  apply eqb_true in Hd. rewrite Hd.
  replace (12 * years)%Z with (years * 12)%Z by lia.
  apply div_nonzero, months_nonzero, Hy.
Qed.

Lemma monthly_annuity (F r : R) (years : Z) :
  (0 < years)%Z -> 0 < r ->
  (1 + monthly_rate_of r) ^ Z.to_nat (years * 12) - 1 <> 0 ->
  calculate_monthly_investment F r years
  = Ok (F * monthly_rate_of r
        / ((1 + monthly_rate_of r) ^ Z.to_nat (years * 12) - 1)).
Proof.
  intros Hy Hr Hd. rewrite monthly_past_guard by assumption. cbv zeta.
  pose proof Hd as Hd'. apply eqb_false in Hd'. rewrite Hd'.
  apply div_nonzero. exact Hd.
Qed.

Lemma monthly_returns (F r : R) (years : Z) :
  returns (calculate_monthly_investment F r years).
Proof.
  destruct (Z_lt_le_dec 0 years) as [Hy | Hy].
  - destruct (Rle_lt_dec r 0) as [Hr | Hr].
    + eexists. apply monthly_no_rate; assumption.
    + destruct (Req_dec_T ((1 + monthly_rate_of r) ^ Z.to_nat (years * 12) - 1) 0)
        as [Hd | Hd]; eexists.
      * apply monthly_zero_denominator; assumption.
      * apply monthly_annuity; assumption.
  - eexists. apply monthly_no_years. exact Hy.
Qed.



(** *** The growth curve *)

Section Growth.

Variables (m p : R).

Lemma months_float (k : nat) (v : R) :
  Nat.iter k (month_step (PyFloat m) p) (PyFloat v)
  = PyFloat (balance_after m p k v).
Proof.
  induction k as [| k IH]; [reflexivity |].
  rewrite Nat.iter_succ, IH. reflexivity.
Qed.

Lemma balance_after_add (j k : nat) (v : R) :
  balance_after m p (j + k) v = balance_after m p j (balance_after m p k v).
Proof.
  induction j as [| j IH]; [reflexivity |].
  cbn [Nat.add balance_after]. rewrite IH. reflexivity.
Qed.

(** The geometric sum behind the annuity formula. *)
Lemma balance_after_closed (k : nat) (v : R) :
  m <> 0 ->
  balance_after m p k v = v * (1 + m) ^ k + p * ((1 + m) ^ k - 1) / m.
Proof.
  intros Hm. induction k as [| k IH].
  - cbn [balance_after pow]. field. exact Hm.
  - cbn [balance_after pow]. rewrite IH. field. exact Hm.
Qed.

Lemma year_step_length (mr : num) (values : list num) :
  length (year_step mr p values) = S (length values).
Proof. unfold year_step. rewrite length_app. cbn. lia. Qed.

Lemma years_length (mr : num) (n : nat) (values : list num) :
  length (Nat.iter n (year_step mr p) values) = (n + length values)%nat.
Proof.
  induction n as [| n IH]; [reflexivity |].
  rewrite Nat.iter_succ, year_step_length, IH. lia.
Qed.

Lemma years_last (mr : num) (n : nat) (v : num) :
  List.last (Nat.iter n (year_step mr p) [v]) (PyFloat 0)
  = Nat.iter (12 * n) (month_step mr p) v.
Proof.
  induction n as [| n IH].
  - reflexivity.
  - rewrite Nat.iter_succ. unfold year_step at 1.
    rewrite last_last, IH.
    replace (12 * S n)%nat with (12 + 12 * n)%nat by lia.
    rewrite Nat.iter_add. reflexivity.
Qed.



End Growth.

Lemma growth_monthly_rate (r : R) :
  0 < 1 + r ->
  num_sub (pow_twelfth (1 + r)) (PyFloat 1) = PyFloat (monthly_rate_of r).
Proof. intros H. rewrite pow_twelfth_positive by exact H. reflexivity. Qed.

Lemma months_of_years (n : Z) :
  (0 <= n)%Z -> Z.to_nat (n * 12) = (12 * Z.to_nat n)%nat.
Proof. intros H. lia. Qed.

(** C3: for every target F > 0, rate r > 0 and number of years n > 0 the
    monthly contribution is returned and strictly positive, and the growth
    curve of that contribution from a zero lump ends on F exactly (so
    within every tolerance): the solver and the projector derive the same
    monthly rate. *)
Theorem monthly_investment_reaches_target (F r : R) (n : Z) :
  0 < F -> 0 < r -> (0 < n)%Z ->
  exists pmt : R,
    calculate_monthly_investment F r n = Ok pmt
    /\ 0 < pmt
    /\ List.last (calculate_investment_growth 0 pmt r n) (PyFloat 0) = PyFloat F.
Proof.
  intros HF Hr Hn.
  pose proof (monthly_rate_pos r Hr) as Hm.
  set (m := monthly_rate_of r) in *.
  set (K := Z.to_nat (n * 12)).
  assert (HK : (0 < K)%nat) by (unfold K; lia).
  assert (HD : 0 < (1 + m) ^ K - 1).
  { assert (1 < (1 + m) ^ K) by (apply Rlt_pow_R1; [lra | exact HK]). lra. }
  exists (F * m / ((1 + m) ^ K - 1)).
  split; [| split].
  - apply monthly_annuity; try assumption. fold m K. lra.
  - apply Rdiv_lt_0_compat; [apply Rmult_lt_0_compat; assumption | exact HD].
  - unfold calculate_investment_growth.
    rewrite growth_monthly_rate by lra. fold m.
    rewrite years_last, months_float.
    rewrite <- months_of_years by lia. fold K.
    rewrite balance_after_closed by lra.
    f_equal. field. lra.
Qed.

Lemma monthly_investment_reaches_target_witness :
  exists pmt : R,
    calculate_monthly_investment 1000 0.12 5 = Ok pmt
    /\ 0 < pmt
    /\ List.last (calculate_investment_growth 0 pmt 0.12 5) (PyFloat 0)
       = PyFloat 1000.
Proof.
  apply (monthly_investment_reaches_target 1000 0.12 5); [lra | lra | lia].
Defined.

(** *** Totality of the valuation engine *)


Lemma growth_length (lump monthly rate : R) (years : Z) :
  length (calculate_investment_growth lump monthly rate years)
  = S (Z.to_nat years).
Proof.
  unfold calculate_investment_growth. rewrite years_length. cbn. lia.
Qed.






(** ** The static recommendation tables *)

(** Lookups in the tables, which are chains of inserts on string keys. *)
Ltac table_lookup :=
  repeat first
    [ rewrite lookup_insert_eq
    | rewrite lookup_insert_ne by congruence
    | rewrite lookup_empty ].

Section Profiles.

Variable risk_profile : string.

Hypothesis not_conservative : risk_profile <> "Conservative".
Hypothesis not_moderate : risk_profile <> "Moderate".
Hypothesis not_aggressive : risk_profile <> "Aggressive".

Lemma unknown_stock_mapping : Stocks.risk_mappings !! risk_profile = None.
Proof using All. unfold Stocks.risk_mappings. table_lookup. reflexivity. Qed.

Lemma unknown_stock_universe : Stocks.stock_universe !! risk_profile = None.
Proof using All. unfold Stocks.stock_universe. table_lookup. reflexivity. Qed.

Lemma unknown_mf_universe : Funds.mf_universe !! risk_profile = None.
Proof using All. unfold Funds.mf_universe. table_lookup. reflexivity. Qed.

Lemma unknown_weights : weights !! risk_profile = None.
Proof using All. unfold weights. table_lookup. reflexivity. Qed.

Lemma unknown_allocation (amount : R) :
  calculate_asset_allocation risk_profile amount
  = [("Equity", 0.5); ("Debt", 0.4); ("Gold", 0.1)].
Proof using All.
  unfold calculate_asset_allocation.
  apply String.eqb_neq in not_conservative, not_moderate, not_aggressive.
  rewrite not_conservative, not_moderate, not_aggressive. reflexivity.
Qed.

End Profiles.

Lemma stock_profile_cases (risk_profile : string) :
  Stocks.effective_profile risk_profile = "Conservative"
  \/ Stocks.effective_profile risk_profile = "Moderate"
  \/ Stocks.effective_profile risk_profile = "Aggressive".
Proof.
  unfold Stocks.effective_profile.
  destruct (decide (risk_profile = "Conservative")) as [-> | Hc]; [left; reflexivity |].
  destruct (decide (risk_profile = "Moderate")) as [-> | Hm].
  { right; left. destruct (_ !! _); reflexivity. }
  destruct (decide (risk_profile = "Aggressive")) as [-> | Ha]; [right; right; reflexivity |].
  rewrite unknown_stock_mapping by assumption. right; left; reflexivity.
Qed.

Lemma recommend_stocks_length (risk_profile goal_type : string) (amount : R) :
  length (Stocks.recommend_stocks risk_profile goal_type amount) = 5%nat.
Proof.
  unfold Stocks.recommend_stocks. cbv zeta.
  destruct (stock_profile_cases risk_profile) as [-> | [-> | ->]]; reflexivity.
Qed.

Lemma recommend_mutual_funds_length (risk_profile goal_type : string) (amount : R) :
  length (Funds.recommend_mutual_funds risk_profile goal_type amount) = 5%nat.
Proof.
  unfold Funds.recommend_mutual_funds.
  destruct (decide (risk_profile = "Conservative")) as [-> | Hc]; [reflexivity |].
  destruct (decide (risk_profile = "Moderate")) as [-> | Hm]; [reflexivity |].
  destruct (decide (risk_profile = "Aggressive")) as [-> | Ha]; [reflexivity |].
  rewrite unknown_mf_universe by assumption. reflexivity.
Qed.

(** The goal type does reach the local characteristics dict of
    [recommend_stocks]; it is the returned list that never reads it. *)
Lemma goal_adjusts_local_mapping :
  Stocks.adjusted_mappings "Moderate" "Retirement" !! "Moderate"
    ≫= (fun entry => entry !! "min_dividend_yield") = Some (VNum 1.0)
  /\ Stocks.risk_mappings !! "Moderate"
    ≫= (fun entry => entry !! "min_dividend_yield") = Some (VNum 0.5).
Proof.
  split.
  - unfold Stocks.adjusted_mappings, Stocks.goal_adjustments. table_lookup.
    unfold Stocks.risk_mappings. rewrite lookup_alter. table_lookup.
    cbn. reflexivity.
  - unfold Stocks.risk_mappings. table_lookup. cbn. table_lookup. reflexivity.
Qed.

(** C9: for every risk profile, [recommend_stocks] and
    [recommend_mutual_funds] each return exactly 5 tickers, and the list is
    the same for any two goal types and any two amounts. *)
Theorem recommendations_ignore_goal_and_amount
    (risk_profile goal_type1 goal_type2 : string) (amount1 amount2 : R) :
  Stocks.recommend_stocks risk_profile goal_type1 amount1
  = Stocks.recommend_stocks risk_profile goal_type2 amount2
  /\ length (Stocks.recommend_stocks risk_profile goal_type1 amount1) = 5%nat
  /\ Funds.recommend_mutual_funds risk_profile goal_type1 amount1
     = Funds.recommend_mutual_funds risk_profile goal_type2 amount2
  /\ length (Funds.recommend_mutual_funds risk_profile goal_type1 amount1) = 5%nat.
Proof.
  split; [reflexivity |].
  split; [apply recommend_stocks_length |].
  split; [reflexivity |].
  apply recommend_mutual_funds_length.
Qed.

Lemma weights_for_moderate : weights_for "Moderate" = moderate_weights.
Proof. unfold weights_for, weights. table_lookup. reflexivity. Qed.

Lemma weights_for_conservative : weights_for "Conservative" = conservative_weights.
Proof. unfold weights_for, weights. table_lookup. reflexivity. Qed.

Lemma weights_for_aggressive : weights_for "Aggressive" = aggressive_weights.
Proof. unfold weights_for, weights. table_lookup. reflexivity. Qed.

Lemma weights_for_unknown (risk_profile : string) :
  risk_profile <> "Conservative" -> risk_profile <> "Moderate" ->
  risk_profile <> "Aggressive" ->
  weights_for risk_profile = moderate_weights.
Proof.
  intros Hc Hm Ha. unfold weights_for.
  rewrite unknown_weights by assumption. reflexivity.
Qed.

(** C10: a risk profile other than the three names is treated as
    "Moderate" by every function that takes one: the asset allocation, the
    two top-5 lists, the ranking weights and hence the ranking. *)
Theorem unknown_profile_is_moderate (risk_profile : string) :
  risk_profile <> "Conservative" -> risk_profile <> "Moderate" ->
  risk_profile <> "Aggressive" ->
  (forall amount,
     calculate_asset_allocation risk_profile amount
     = calculate_asset_allocation "Moderate" amount)
  /\ (forall goal_type amount,
        Stocks.recommend_stocks risk_profile goal_type amount
        = Stocks.recommend_stocks "Moderate" goal_type amount)
  /\ (forall goal_type amount,
        Funds.recommend_mutual_funds risk_profile goal_type amount
        = Funds.recommend_mutual_funds "Moderate" goal_type amount)
  /\ weights_for risk_profile = weights_for "Moderate"
  /\ (forall historical_data,
        simple_ml_recommendation historical_data risk_profile
        = simple_ml_recommendation historical_data "Moderate").
Proof.
  intros Hc Hm Ha.
  assert (Hw : weights_for risk_profile = weights_for "Moderate").
  { rewrite weights_for_moderate. apply weights_for_unknown; assumption. }
  repeat split.
  - intros amount. rewrite unknown_allocation by assumption. reflexivity.
  - intros goal_type amount. unfold Stocks.recommend_stocks, Stocks.effective_profile.
    rewrite unknown_stock_mapping by assumption. reflexivity.
  - intros goal_type amount. unfold Funds.recommend_mutual_funds.
    rewrite unknown_mf_universe by assumption. reflexivity.
  - exact Hw.
  - intros historical_data.
    unfold simple_ml_recommendation, score_table. rewrite Hw. reflexivity.
Qed.

Lemma unknown_profile_is_moderate_witness :
  calculate_asset_allocation "Balanced" 1000
  = calculate_asset_allocation "Moderate" 1000
  /\ Stocks.recommend_stocks "Balanced" "Retirement" 1000
     = Stocks.recommend_stocks "Moderate" "Retirement" 1000
  /\ weights_for "Balanced" = weights_for "Moderate".
Proof.
  destruct (unknown_profile_is_moderate "Balanced")
    as (Halloc & Hstocks & _ & Hw & _); try discriminate.
  split; [apply Halloc |]. split; [apply Hstocks | exact Hw].
Defined.

(** ** The ranking engine *)

(** *** The feature loop and the frame *)

Lemma features_loop (historical_data : list (string * frame)) (acc : Features) :
  fold_left features_step historical_data acc
  = {| feat_return := feat_return acc ++ map annual_return (kept_frames historical_data);
       feat_volatility := feat_volatility acc ++ map volatility (kept_frames historical_data);
       feat_sharpe := feat_sharpe acc ++ map sharpe (kept_frames historical_data);
       feat_max_dd := feat_max_dd acc ++ map drawdown (kept_frames historical_data) |}.
Proof.
  revert acc. induction historical_data as [| [ticker data] rest IH]; intros acc.
  - cbn. rewrite !app_nil_r. destruct acc; reflexivity.
  - cbn [fold_left]. rewrite IH. unfold features_step, kept_frames.
    cbn [snd map List.filter].
    destruct (frame_empty data); cbn [negb feat_return feat_volatility
      feat_sharpe feat_max_dd map]; [reflexivity |].
    rewrite <- !app_assoc. reflexivity.
Qed.

Lemma kept_frames_length (historical_data : list (string * frame)) :
  (length (kept_frames historical_data) <= length historical_data)%nat.
Proof.
  unfold kept_frames. etransitivity; [apply List.filter_length_le |].
  rewrite length_map. reflexivity.
Qed.

Lemma kept_frames_all (historical_data : list (string * frame)) :
  Forall (fun item => snd item <> []) historical_data ->
  kept_frames historical_data = map snd historical_data.
Proof.
  unfold kept_frames. induction 1 as [| [ticker data] rest Hne _ IH]; [reflexivity |].
  cbn [map snd List.filter]. cbn [snd] in Hne.
  destruct data as [| p data']; [contradiction |].
  cbn [frame_empty negb]. rewrite IH. reflexivity.
Qed.

Lemma kept_frames_fewer (historical_data : list (string * frame)) :
  Exists (fun item => snd item = []) historical_data ->
  (length (kept_frames historical_data) < length historical_data)%nat.
Proof.
  induction 1 as [[ticker data] rest Hempty | [ticker data] rest _ IH].
  - cbn [snd] in Hempty. subst data. unfold kept_frames.
    cbn [map snd List.filter frame_empty negb length].
    pose proof (kept_frames_length rest) as H. unfold kept_frames in H. lia.
  - unfold kept_frames in *. cbn [map snd List.filter length].
    destruct (negb (frame_empty data)); cbn [length]; lia.
Qed.

Lemma build_frame_eq (historical_data : list (string * frame)) :
  build_frame historical_data
  = if (length (kept_frames historical_data) =? length historical_data)%nat
    then Ok {| col_ticker := map fst historical_data;
               col_return := map annual_return (kept_frames historical_data);
               col_volatility := map volatility (kept_frames historical_data);
               col_sharpe := map sharpe (kept_frames historical_data);
               col_max_dd := map drawdown (kept_frames historical_data) |}
    else Raise ValueError.
Proof.
  unfold build_frame, DataFrame_of. rewrite features_loop.
  cbn [feat_return feat_volatility feat_sharpe feat_max_dd no_features app].
  rewrite !length_map.
  destruct (length (kept_frames historical_data) =? length historical_data)%nat;
    reflexivity.
Qed.

(** Every series present: the frame has one row per instrument. *)
Lemma build_frame_ok (historical_data : list (string * frame)) :
  Forall (fun item => snd item <> []) historical_data ->
  build_frame historical_data
  = Ok {| col_ticker := map fst historical_data;
          col_return := map annual_return (map snd historical_data);
          col_volatility := map volatility (map snd historical_data);
          col_sharpe := map sharpe (map snd historical_data);
          col_max_dd := map drawdown (map snd historical_data) |}.
Proof.
  intros H. rewrite build_frame_eq, kept_frames_all by exact H.
  rewrite length_map, Nat.eqb_refl. reflexivity.
Qed.

(** One empty series: the ticker column is longer than the feature
    columns, and the constructor of the frame raises. *)
Lemma build_frame_raises (historical_data : list (string * frame)) :
  Exists (fun item => snd item = []) historical_data ->
  build_frame historical_data = Raise ValueError.
Proof.
  intros H. rewrite build_frame_eq.
  apply kept_frames_fewer in H.
  destruct (Nat.eqb_spec (length (kept_frames historical_data))
                         (length historical_data)) as [E | _]; [lia | reflexivity].
Qed.

Lemma ml_recommendation_raises (historical_data : list (string * frame))
    (risk_profile : string) :
  Exists (fun item => snd item = []) historical_data ->
  simple_ml_recommendation historical_data risk_profile = Raise ValueError.
Proof.
  intros H. unfold simple_ml_recommendation, score_table.
  rewrite build_frame_raises by exact H.
  destruct historical_data; [inversion H | reflexivity].
Qed.

(** C1, at the failing input: a mapping with one empty and one non-empty
    series is not ranked; the call raises [ValueError]. *)
Theorem ml_recommendation_mixed_input_raises :
  simple_ml_recommendation [("A", []); ("B", [1; 2; 3])] "Moderate"
  = Raise ValueError.
Proof. apply ml_recommendation_raises. left. reflexivity. Qed.

(** The part of C1 on the empty mapping. *)
Lemma ml_recommendation_empty (risk_profile : string) :
  simple_ml_recommendation [] risk_profile = Ok [].
Proof. reflexivity. Qed.

(** *** Columns, row by row *)

Lemma fit_transform_scaled (col : list cell) :
  fit_transform col = map (scaled col) col.
Proof.
  unfold fit_transform, scaled.
  destruct (nanmin col) as [lo |]; [destruct (nanmax col) as [hi |] |];
    reflexivity.
Qed.

Lemma norm_direct_scaled (col : list cell) :
  norm_direct col = map (scaled col) col.
Proof.
  destruct col as [| c col']; [reflexivity |].
  unfold norm_direct. apply fit_transform_scaled.
Qed.

Lemma norm_inverted_scaled (col : list cell) :
  norm_inverted col = map (fun c => cell_map (fun y => 1 - y) (scaled col c)) col.
Proof.
  destruct col as [| c col']; [reflexivity |].
  unfold norm_inverted. rewrite fit_transform_scaled, map_map. reflexivity.
Qed.

Lemma series_scale_map {A : Type} (k : R) (f : A -> cell) (l : list A) :
  series_scale k (map f l) = map (fun x => cell_map (Rmult k) (f x)) l.
Proof. unfold series_scale. apply map_map. Qed.

Lemma series_add_map {A : Type} (f g : A -> cell) (l : list A) :
  series_add (map f l) (map g l) = map (fun x => cell_map2 Rplus (f x) (g x)) l.
Proof.
  induction l as [| x l IH]; [reflexivity |].
  cbn [map series_add]. rewrite IH. reflexivity.
Qed.

Section Rows.

Variable w : Weights.
Variable tickers : list string.
Variable frames : list frame.

Lemma score_column_rows :
  score_column w
    (normalize {| col_ticker := tickers;
                  col_return := map annual_return frames;
                  col_volatility := map volatility frames;
                  col_sharpe := map sharpe frames;
                  col_max_dd := map drawdown frames |})
  = map (score_of w frames) frames.
Proof.
  unfold score_column, normalize.
  cbn [return_norm sharpe_norm volatility_norm max_dd_norm
       col_return col_volatility col_sharpe col_max_dd].
  rewrite !norm_direct_scaled, !norm_inverted_scaled, !map_map.
  rewrite !series_scale_map, !series_add_map. reflexivity.
Qed.

End Rows.

Lemma combine_fst_snd {A B C : Type} (f : B -> C) (l : list (A * B)) :
  combine (map fst l) (map f (map snd l))
  = map (fun item => (fst item, f (snd item))) l.
Proof.
  induction l as [| [a b] l IH]; [reflexivity |].
  cbn [map combine fst snd]. rewrite IH. reflexivity.
Qed.

(** The score table of an input without an empty series. *)
Lemma score_table_ok (historical_data : list (string * frame))
    (risk_profile : string) :
  Forall (fun item => snd item <> []) historical_data ->
  score_table historical_data risk_profile
  = Ok (map (fun item =>
               (fst item,
                score_of (weights_for risk_profile)
                         (map snd historical_data) (snd item)))
            historical_data).
Proof.
  intros H. unfold score_table. rewrite build_frame_ok by exact H.
  cbn [Py.bind col_ticker]. rewrite score_column_rows, combine_fst_snd.
  reflexivity.
Qed.

Lemma price_history_nonempty (historical_data : list (string * frame)) :
  price_history historical_data ->
  Forall (fun item => snd item <> []) historical_data.
Proof.
  intros [_ H]. eapply List.Forall_impl; [| exact H].
  intros item [Hne _]. exact Hne.
Qed.

(** *** The sort only reads the keys *)

Section Natural.

Context {A B : Type} (f : B -> A).
Context (lessA : A -> A -> bool) (lessB : B -> B -> bool).
Hypothesis less_f : forall x y, lessA (f x) (f y) = lessB x y.




















End Natural.

(** *** The array operations *)

Section Arrays.

Context {A : Type}.

Lemma swap_length (i j : nat) (a : list A) : length (swap i j a) = length a.
Proof.
  unfold swap. destruct (a !! i), (a !! j); rewrite ?length_insert; reflexivity.
Qed.

Lemma swap_perm (i j : nat) (a : list A) : Permutation (swap i j a) a.
Proof.
  unfold swap. destruct (a !! i) as [x |] eqn:Hx; [| reflexivity].
  destruct (a !! j) as [y |] eqn:Hy; [| reflexivity].
  apply Permutation_insert_swap; assumption.
Qed.

Lemma swap_lookup (i j k : nat) (a : list A) :
  (i < length a)%nat -> (j < length a)%nat ->
  swap i j a !! k
  = if decide (k = j) then a !! i else if decide (k = i) then a !! j else a !! k.
Proof.
  intros Hi Hj. unfold swap.
  destruct (lookup_lt_is_Some_2 a i Hi) as [x Hx].
  destruct (lookup_lt_is_Some_2 a j Hj) as [y Hy].
  rewrite Hx, Hy.
  destruct (decide (k = j)) as [-> | Hkj].
  - apply list_lookup_insert_eq. rewrite length_insert. exact Hj.
  - rewrite list_lookup_insert_ne by congruence.
    destruct (decide (k = i)) as [-> | Hki].
    + apply list_lookup_insert_eq. exact Hi.
    + apply list_lookup_insert_ne. congruence.
Qed.

Lemma swap_if_less_length (less : A -> A -> bool) (i j : nat) (a : list A) :
  length (swap_if_less less i j a) = length a.
Proof.
  unfold swap_if_less.
  destruct (a !! i) as [x |], (a !! j) as [y |]; try reflexivity.
  destruct (less x y); [apply swap_length | reflexivity].
Qed.

Lemma swap_if_less_perm (less : A -> A -> bool) (i j : nat) (a : list A) :
  Permutation (swap_if_less less i j a) a.
Proof.
  unfold swap_if_less.
  destruct (a !! i) as [x |], (a !! j) as [y |]; try reflexivity.
  destruct (less x y); [apply swap_perm | reflexivity].
Qed.

Lemma In_lookup (a : list A) (x : A) : In x a <-> exists i, a !! i = Some x.
Proof. rewrite <- list_elem_of_In. apply list_elem_of_lookup. Qed.

End Arrays.

(** *** The insertion sort *)

Section Order.

Context {A : Type} (less : A -> A -> bool).

(** [x] is not above [y]. *)
Let le (x y : A) : Prop := less y x = false.

Hypothesis less_irrefl : forall x, less x x = false.
Hypothesis less_asym : forall x y, less x y = true -> less y x = false.
Hypothesis le_trans : forall x y z, le x y -> le y z -> le x z.

Lemma shift_in_perm (x : A) (sorted : list A) :
  Permutation (shift_in less x sorted) (x :: sorted).
Proof.
  induction sorted as [| y rest IH]; [reflexivity |].
  cbn [shift_in]. destruct (less x y); [| reflexivity].
  rewrite IH. apply perm_swap.
Qed.

Lemma insertion_sort_perm (a : list A) : Permutation (insertion_sort less a) a.
Proof.
  unfold insertion_sort. rewrite <- Permutation_rev.
  rewrite <- (app_nil_r a) at 2. generalize (@nil A).
  induction a as [| x a IH]; intros sorted; [reflexivity |].
  cbn [fold_left app]. rewrite IH, shift_in_perm.
  symmetry. apply Permutation_middle.
Qed.

Lemma shift_in_sorted (x : A) (sorted : list A) :
  StronglySorted (fun a b => le b a) sorted ->
  StronglySorted (fun a b => le b a) (shift_in less x sorted).
Proof.
  induction 1 as [| y rest Hsorted IH Hy]; cbn [shift_in].
  - constructor; constructor.
  - destruct (less x y) eqn:Hxy.
    + constructor; [exact IH |].
      apply List.Forall_forall. intros z Hz.
      apply (Permutation_in _ (shift_in_perm x rest)) in Hz.
      destruct Hz as [<- | Hz]; [apply less_asym; exact Hxy |].
      rewrite List.Forall_forall in Hy. apply Hy. exact Hz.
    + constructor; [constructor; assumption |].
      constructor; [exact Hxy |].
      eapply List.Forall_impl; [| exact Hy]. cbn. intros z Hz.
      apply (le_trans z y x); assumption.
Qed.

Lemma sorted_app_one (rel : A -> A -> Prop) (l : list A) (x : A) :
  StronglySorted rel l -> Forall (fun y => rel y x) l ->
  StronglySorted rel (l ++ [x]).
Proof.
  induction 1 as [| y rest Hsorted IH Hy]; intros Hx; cbn [app].
  - constructor; constructor.
  - apply List.Forall_cons_iff in Hx as [Hyx Hrest].
    constructor; [apply IH; exact Hrest |].
    apply List.Forall_app. split; [exact Hy | constructor; [exact Hyx | constructor]].
Qed.

Lemma sorted_rev (rel : A -> A -> Prop) (l : list A) :
  StronglySorted rel l -> StronglySorted (fun a b => rel b a) (rev l).
Proof.
  induction 1 as [| y rest Hsorted IH Hy]; cbn [rev]; [constructor |].
  apply sorted_app_one; [exact IH |].
  apply List.Forall_forall. intros z Hz. apply in_rev in Hz.
  rewrite List.Forall_forall in Hy. apply Hy. exact Hz.
Qed.

Lemma insertion_sort_sorted (a : list A) :
  StronglySorted le (insertion_sort less a).
Proof.
  unfold insertion_sort.
  apply (sorted_rev (fun a b => le b a)).
  assert (H : StronglySorted (fun a b => le b a) (@nil A)) by constructor.
  revert H. generalize (@nil A).
  induction a as [| x a IH]; intros sorted H; [exact H |].
  cbn [fold_left]. apply IH, shift_in_sorted, H.
Qed.


(** *** The partition *)

Lemma scan_up_spec (fuel : nat) (vp : A) (pi pj : nat) (a : list A) :
  (pi < pj)%nat -> (pj - pi <= fuel)%nat ->
  (exists y, a !! pj = Some y /\ less y vp = false) ->
  (pi < scan_up less fuel vp pi a <= pj)%nat
  /\ (exists y, a !! scan_up less fuel vp pi a = Some y /\ less y vp = false)
  /\ (forall k x, (pi < k < scan_up less fuel vp pi a)%nat ->
                  a !! k = Some x -> less x vp = true).
Proof.
  intros Hlt Hfuel (y & Hy & Hstop). revert pi Hlt Hfuel.
  induction fuel as [| fuel IH]; intros pi Hlt Hfuel; [lia |].
  cbn [scan_up].
  assert (Hlen : (S pi < length a)%nat).
  { apply lookup_lt_Some in Hy. lia. }
  destruct (lookup_lt_is_Some_2 a (S pi) Hlen) as [x Hx]. rewrite Hx.
  destruct (less x vp) eqn:Hxv.
  - assert (S pi <> pj) by (intros E; rewrite E in Hx; congruence).
    destruct (IH (S pi)) as (Hrange & Hat & Hbelow); [lia | lia |].
    split; [lia |]. split; [exact Hat |].
    intros k z Hk Hz. destruct (decide (k = S pi)) as [-> | Hne].
    + congruence.
    + apply (Hbelow k z); [lia | exact Hz].
  - split; [lia |]. split; [exists x; split; assumption |].
    intros k z Hk. lia.
Qed.

Lemma scan_down_spec (vp : A) (pi pj : nat) (a : list A) :
  (pi < pj)%nat -> (pj <= length a)%nat ->
  (exists y, a !! pi = Some y /\ less vp y = false) ->
  (pi <= scan_down less vp pj a < pj)%nat
  /\ (exists y, a !! scan_down less vp pj a = Some y /\ less vp y = false)
  /\ (forall k x, (scan_down less vp pj a < k < pj)%nat ->
                  a !! k = Some x -> less vp x = true).
Proof.
  intros Hlt Hlen (y & Hy & Hstop). revert Hlt Hlen.
  induction pj as [| pj IH]; intros Hlt Hlen; [lia |].
  cbn [scan_down].
  destruct (lookup_lt_is_Some_2 a pj ltac:(lia)) as [x Hx]. rewrite Hx.
  destruct (less vp x) eqn:Hvx.
  - assert (pi <> pj) by (intros E; rewrite E in Hy; congruence).
    destruct IH as (Hrange & Hat & Habove); [lia | lia |].
    split; [lia |]. split; [exact Hat |].
    intros k z Hk Hz. destruct (decide (k = pj)) as [-> | Hne].
    + congruence.
    + apply (Habove k z); [lia | exact Hz].
  - split; [lia |]. split; [exists x; split; assumption |].
    intros k z Hk. lia.
Qed.

Lemma partition_loop_spec (fuel : nat) (vp : A) (pi pj q : nat) (a : list A)
    (pi' : nat) (a' : list A) :
  (pi < pj <= q)%nat -> (q < length a)%nat -> (pj - pi <= fuel)%nat ->
  a !! q = Some vp ->
  (forall k x, (k <= pi)%nat -> a !! k = Some x -> le x vp) ->
  (forall k x, (pj <= k)%nat -> a !! k = Some x -> le vp x) ->
  partition_loop less fuel vp pi pj a = (pi', a') ->
  Permutation a' a
  /\ (pi < pi' <= q)%nat
  /\ a' !! q = Some vp
  /\ (forall k x, (k < pi')%nat -> a' !! k = Some x -> le x vp)
  /\ (forall k x, (pi' <= k)%nat -> a' !! k = Some x -> le vp x).
Proof.
  revert pi pj a. induction fuel as [| fuel IH];
    intros pi pj a Hrange Hq Hfuel Hpivot Hlow Hhigh; cbn [partition_loop].
  all: destruct (lookup_lt_is_Some_2 a pj ltac:(lia)) as [yj Hyj];
    destruct (lookup_lt_is_Some_2 a pi ltac:(lia)) as [yi Hyi];
    destruct (scan_up_spec (length a) vp pi pj a) as (Hup & (u & Hu & Hustop) & Hbelow);
      [lia | lia | exists yj; split; [exact Hyj | exact (Hhigh pj yj ltac:(lia) Hyj)] |];
    destruct (scan_down_spec vp pi pj a) as (Hdown & (d & Hd & Hdstop) & Habove);
      [lia | lia | exists yi; split; [exact Hyi | exact (Hlow pi yi ltac:(lia) Hyi)] |];
    set (pi1 := scan_up less (length a) vp pi a) in *;
    set (pj1 := scan_down less vp pj a) in *;
    assert (Hlow1 : forall k x, (k < pi1)%nat -> a !! k = Some x -> le x vp)
      by (intros k x Hk Hx; destruct (decide (k <= pi)%nat);
          [apply (Hlow k x); assumption
          | apply less_asym, (Hbelow k x); [lia | exact Hx]]);
    assert (Hhigh1 : forall k x, (pj1 < k)%nat -> a !! k = Some x -> le vp x)
      by (intros k x Hk Hx; destruct (decide (pj <= k)%nat);
          [apply (Hhigh k x); assumption
          | apply less_asym, (Habove k x); [lia | exact Hx]]);
    destruct (pj1 <=? pi1)%nat eqn:Hmeet;
    [apply Nat.leb_le in Hmeet | apply Nat.leb_gt in Hmeet].
  - intros [= <- <-]. split; [reflexivity |]. split; [lia |].
    split; [exact Hpivot |]. split; [exact Hlow1 |].
    intros k x Hk Hx. destruct (decide (k = pi1)) as [-> | Hne].
    + unfold le. congruence.
    + apply (Hhigh1 k x); [lia | exact Hx].
  - lia.
  - intros [= <- <-]. split; [reflexivity |]. split; [lia |].
    split; [exact Hpivot |]. split; [exact Hlow1 |].
    intros k x Hk Hx. destruct (decide (k = pi1)) as [-> | Hne].
    + unfold le. congruence.
    + apply (Hhigh1 k x); [lia | exact Hx].
  - intros Hloop.
    assert (Hlook : forall k, swap pi1 pj1 a !! k
              = if decide (k = pj1) then a !! pi1
                else if decide (k = pi1) then a !! pj1 else a !! k)
      by (intros k; apply swap_lookup; lia).
    apply IH in Hloop; rewrite ?swap_length; try lia.
    + destruct Hloop as (Hperm & Hpi' & Hq' & Hl & Hh).
      split; [rewrite Hperm; apply swap_perm |]. split; [lia |].
      split; [exact Hq' |]. split; assumption.
    + rewrite Hlook. repeat destruct (decide _); try lia. exact Hpivot.
    + intros k x Hk. rewrite Hlook. repeat destruct (decide _); try lia.
      * intros Hx. unfold le. congruence.
      * apply Hlow1. lia.
    + intros k x Hk. rewrite Hlook. repeat destruct (decide _); try lia.
      * intros Hx. unfold le. congruence.
      * apply Hhigh1. lia.
Qed.

(** After [if (less(a[i], a[j])) swap], the row at [i] is not below the
    row at [j]. *)
Lemma swap_if_less_pair (i j : nat) (a : list A) (x y : A) :
  i <> j -> a !! i = Some x -> a !! j = Some y ->
  exists x' y',
    swap_if_less less i j a !! i = Some x'
    /\ swap_if_less less i j a !! j = Some y'
    /\ less x' y' = false
    /\ (x' = x /\ y' = y \/ x' = y /\ y' = x)
    /\ forall k, k <> i -> k <> j -> swap_if_less less i j a !! k = a !! k.
Proof.
  intros Hij Hx Hy. unfold swap_if_less. rewrite Hx, Hy.
  destruct (less x y) eqn:Hxy.
  - assert (Hlook : forall k, swap i j a !! k
              = if decide (k = j) then a !! i
                else if decide (k = i) then a !! j else a !! k).
    { intros k. apply swap_lookup; eapply lookup_lt_Some; eassumption. }
    exists y, x. rewrite !Hlook.
    repeat destruct (decide _); try congruence.
    split; [exact Hy |]. split; [exact Hx |].
    split; [apply less_asym; exact Hxy |]. split; [right; split; reflexivity |].
    intros k Hki Hkj. rewrite Hlook.
    repeat destruct (decide _); congruence.
  - exists x, y. split; [exact Hx |]. split; [exact Hy |].
    split; [exact Hxy |]. split; [left; split; reflexivity |]. reflexivity.
Qed.

(** The median of three: afterwards the first row is not above the
    middle one, which is not above the last. *)
Lemma median_of_three (pm pr : nat) (a : list A) :
  (0 < pm < pr)%nat -> (pr < length a)%nat ->
  exists lo mid hi,
    swap_if_less less pm 0 (swap_if_less less pr pm (swap_if_less less pm 0 a))
      !! 0%nat = Some lo
    /\ swap_if_less less pm 0 (swap_if_less less pr pm (swap_if_less less pm 0 a))
         !! pm = Some mid
    /\ swap_if_less less pm 0 (swap_if_less less pr pm (swap_if_less less pm 0 a))
         !! pr = Some hi
    /\ le lo mid /\ le mid hi.
Proof.
  intros Hpm Hpr.
  destruct (lookup_lt_is_Some_2 a 0 ltac:(lia)) as [x Hx].
  destruct (lookup_lt_is_Some_2 a pm ltac:(lia)) as [y Hy].
  destruct (lookup_lt_is_Some_2 a pr ltac:(lia)) as [z Hz].
  destruct (swap_if_less_pair pm 0 a y x ltac:(lia) Hy Hx)
    as (m1 & l1 & Hm1 & Hl1 & Hml1 & _ & Hk1).
  set (a1 := swap_if_less less pm 0 a) in *.
  assert (Hz1 : a1 !! pr = Some z) by (rewrite Hk1 by lia; exact Hz).
  destruct (swap_if_less_pair pr pm a1 z m1 ltac:(lia) Hz1 Hm1)
    as (h2 & m2 & Hh2 & Hm2 & Hhm2 & Hcase2 & Hk2).
  set (a2 := swap_if_less less pr pm a1) in *.
  assert (Hl2 : a2 !! 0%nat = Some l1) by (rewrite Hk2 by lia; exact Hl1).
  destruct (swap_if_less_pair pm 0 a2 m2 l1 ltac:(lia) Hm2 Hl2)
    as (m3 & l3 & Hm3 & Hl3 & Hml3 & Hcase3 & Hk3).
  set (a3 := swap_if_less less pm 0 a2) in *.
  exists l3, m3, h2. split; [exact Hl3 |]. split; [exact Hm3 |].
  split; [rewrite Hk3 by lia; exact Hh2 |]. split; [exact Hml3 |].
  unfold le. destruct Hcase3 as [[-> ->] | [-> ->]]; [exact Hhm2 |].
  destruct Hcase2 as [[-> ->] | [-> ->]]; [| exact Hml1].
  apply (le_trans l1 m1 z); assumption.
Qed.

Lemma partition_spec (a : list A) (pi : nat) (a' : list A) :
  (3 <= length a)%nat ->
  partition less a = (pi, a') ->
  Permutation a' a
  /\ exists p, a' !! pi = Some p
               /\ Forall (fun x => le x p) (take pi a')
               /\ Forall (fun x => le p x) (drop (S pi) a').
Proof.
  intros Hlen. unfold partition. rewrite Nat.add_0_l, Nat.sub_0_r.
  set (pr := (length a - 1)%nat). set (pm := (pr / 2)%nat).
  assert (Hpm : (0 < pm < pr)%nat).
  { unfold pm, pr. split; [apply Nat.div_str_pos | apply Nat.div_lt]; lia. }
  destruct (median_of_three pm pr a Hpm ltac:(unfold pr; lia))
    as (lo & mid & hi & Hlo & Hmid & Hhi & Hlm & Hmh).
  set (a3 := swap_if_less less pm 0 (swap_if_less less pr pm
               (swap_if_less less pm 0 a))) in *.
  assert (Hperm3 : Permutation a3 a).
  { unfold a3. rewrite !swap_if_less_perm. reflexivity. }
  assert (Hlen3 : length a3 = length a).
  { unfold a3. rewrite !swap_if_less_length. reflexivity. }
  rewrite Hmid.
  assert (Hlook4 : forall k, swap pm (pr - 1) a3 !! k
            = if decide (k = (pr - 1)%nat) then a3 !! pm
              else if decide (k = pm) then a3 !! (pr - 1)%nat else a3 !! k).
  { intros k. apply swap_lookup; unfold pr in *; lia. }
  set (a4 := swap pm (pr - 1) a3) in *.
  assert (Hlen4 : length a4 = length a).
  { unfold a4. rewrite swap_length. exact Hlen3. }
  destruct (partition_loop less (length a4) mid 0 (pr - 1) a4) as [pi5 a5] eqn:Hloop.
  intros [= <- <-].
  apply (partition_loop_spec _ _ _ _ (pr - 1)%nat) in Hloop;
    [| unfold pr in *; lia | unfold pr in *; lia | lia | | |].
  - destruct Hloop as (Hperm5 & Hpi5 & Hq5 & Hlow & Hhigh).
    assert (Hlen5 : length a5 = length a).
    { rewrite (Permutation_length Hperm5). exact Hlen4. }
    assert (Hlook6 : forall k, swap pi5 (pr - 1) a5 !! k
              = if decide (k = (pr - 1)%nat) then a5 !! pi5
                else if decide (k = pi5) then a5 !! (pr - 1)%nat else a5 !! k).
    { intros k. apply swap_lookup; unfold pr in *; lia. }
    split.
    { rewrite swap_perm, Hperm5. unfold a4. rewrite swap_perm. exact Hperm3. }
    exists mid. split; [| split].
    + rewrite Hlook6. destruct (decide (pi5 = (pr - 1)%nat)) as [e | ne].
      * rewrite e. exact Hq5.
      * destruct (decide (pi5 = pi5)); [exact Hq5 | congruence].
    + apply Forall_lookup. intros k x Hk.
      apply lookup_take_Some in Hk as [Hk Hlt]. revert Hk. rewrite Hlook6.
      repeat destruct (decide _); try lia. apply Hlow. exact Hlt.
    + apply Forall_lookup. intros k x. rewrite lookup_drop, Hlook6.
      repeat destruct (decide _); try lia; apply Hhigh; lia.
  - rewrite Hlook4. repeat destruct (decide _); try lia; exact Hmid.
  - intros k x Hk. assert (k = 0%nat) as -> by lia. rewrite Hlook4.
    repeat destruct (decide _); try lia. rewrite Hlo. intros [= <-]. exact Hlm.
  - intros k x Hk. rewrite Hlook4.
    destruct (decide (k = (pr - 1)%nat)) as [-> | Hne].
    + rewrite Hmid. intros [= <-]. apply less_irrefl.
    + destruct (decide (k = pm)); [lia |].
      destruct (decide (k = pr)) as [-> | Hne'].
      * rewrite Hhi. intros [= <-]. exact Hmh.
      * intros Hx. apply lookup_lt_Some in Hx. unfold pr in *. lia.
Qed.

(** *** The heapsort *)

Lemma heap_set_length (i : nat) (x : A) (a : list A) :
  length (heap_set i x a) = length a.
Proof. apply length_insert. Qed.

Lemma heap_get_set (i k : nat) (x : A) (a : list A) :
  (1 <= i <= length a)%nat -> (1 <= k)%nat ->
  heap_get k (heap_set i x a)
  = if decide (k = i) then Some x else heap_get k a.
Proof.
  intros Hi Hk. unfold heap_get, heap_set.
  destruct (decide (k = i)) as [-> | Hne].
  - apply list_lookup_insert_eq. lia.
  - apply list_lookup_insert_ne. lia.
Qed.

Lemma heap_get_S (k : nat) (a : list A) : heap_get (S k) a = a !! k.
Proof. unfold heap_get. f_equal. lia. Qed.

Lemma heap_get_is_Some (k : nat) (a : list A) :
  (1 <= k <= length a)%nat -> exists x, heap_get k a = Some x.
Proof. intros Hk. apply lookup_lt_is_Some_2. lia. Qed.

Lemma heap_get_le (k : nat) (x : A) (a : list A) :
  (1 <= k)%nat -> heap_get k a = Some x -> (k <= length a)%nat.
Proof. intros Hk Hx. apply lookup_lt_Some in Hx. lia. Qed.

(** The slot [c] holds a child of the slot [k]. *)
Let is_child (c k : nat) : Prop := c = (k + k)%nat \/ c = (k + k + 1)%nat.

(** From the slot [lo] on, no row of the first [n] is below a child of
    its. *)
Let heap_on (lo n : nat) (a : list A) : Prop :=
  forall k c x y,
    (lo <= k)%nat -> is_child c k -> (c <= n)%nat ->
    heap_get c a = Some x -> heap_get k a = Some y -> le x y.

(** The child that the hole moves to is the larger one. *)
Lemma larger_child (j n : nat) (a : list A) :
  (1 <= j)%nat ->
  let j' := match heap_get j a, heap_get (j + 1) a with
            | Some x, Some y => if (j <? n)%nat && less x y then (j + 1)%nat else j
            | _, _ => j
            end in
  (j' = j \/ j' = (j + 1)%nat /\ (j < n)%nat)
  /\ forall c x y, c = j \/ c = (j + 1)%nat -> (c <= n)%nat ->
                   heap_get c a = Some x -> heap_get j' a = Some y -> le x y.
Proof.
  intros Hj. cbn zeta.
  destruct (heap_get j a) as [xj |] eqn:Hxj.
  - destruct (heap_get (j + 1) a) as [xk |] eqn:Hxk.
    + destruct (j <? n)%nat eqn:Hjn; cbn [andb].
      * apply Nat.ltb_lt in Hjn. destruct (less xj xk) eqn:Hless.
        -- split; [right; split; [reflexivity | exact Hjn] |].
           intros c x y [-> | ->] _ Hx Hy; unfold le.
           ++ assert (x = xj) as -> by congruence.
              assert (y = xk) as -> by congruence.
              apply less_asym. exact Hless.
           ++ assert (x = y) as -> by congruence. apply less_irrefl.
        -- split; [left; reflexivity |].
           intros c x y [-> | ->] _ Hx Hy; unfold le.
           ++ assert (x = y) as -> by congruence. apply less_irrefl.
           ++ assert (x = xk) as -> by congruence.
              assert (y = xj) as -> by congruence. exact Hless.
      * apply Nat.ltb_ge in Hjn. split; [left; reflexivity |].
        intros c x y [-> | ->] Hc Hx Hy; [| lia].
        assert (x = y) as -> by congruence. apply less_irrefl.
    + split; [left; reflexivity |].
      intros c x y [-> | ->] Hc Hx Hy; [| congruence].
      assert (x = y) as -> by congruence. apply less_irrefl.
  - split; [left; reflexivity |].
    intros c x y [-> | ->] Hc Hx Hy; congruence.
Qed.

Lemma sift_down_spec (lo : nat) (fuel : nat) (tmp : A) (i n : nat) (a : list A) :
  (1 <= lo <= i)%nat -> (i <= n <= length a)%nat -> (n < i + fuel)%nat ->
  (forall k c x y,
     (lo <= k)%nat -> k <> i -> c <> i -> is_child c k -> (c <= n)%nat ->
     heap_get c a = Some x -> heap_get k a = Some y -> le x y) ->
  (forall q y,
     (lo <= q)%nat -> is_child i q -> heap_get q a = Some y ->
     le tmp y
     /\ forall c x, is_child c i -> (c <= n)%nat -> heap_get c a = Some x ->
                    le x y) ->
  heap_on lo n (sift_down less fuel tmp i n a)
  /\ drop n (sift_down less fuel tmp i n a) = drop n a
  /\ Permutation (take n (sift_down less fuel tmp i n a))
                 (take n (heap_set i tmp a)).
Proof.
  revert i a. induction fuel as [| fuel IH]; intros i a Hlo Hn Hfuel H1 H2.
  { lia. }
  assert (Hfill :
            (forall c x, is_child c i -> (c <= n)%nat ->
                         heap_get c a = Some x -> le x tmp) ->
            heap_on lo n (heap_set i tmp a)
            /\ drop n (heap_set i tmp a) = drop n a
            /\ Permutation (take n (heap_set i tmp a)) (take n (heap_set i tmp a))).
  { intros Hchildren. split; [| split; [| reflexivity]].
    - intros k c x y Hk Hc Hcn. rewrite !heap_get_set by (unfold is_child in Hc; lia).
      destruct (decide (c = i)) as [-> | Hci], (decide (k = i)) as [-> | Hki].
      + unfold is_child in Hc. lia.
      + intros [= <-] Hy. apply (H2 k y Hk Hc Hy).
      + intros Hx [= <-]. apply (Hchildren c x Hc Hcn Hx).
      + apply (H1 k c x y); assumption.
    - apply drop_insert_lt. lia. }
  cbn [sift_down]. destruct (n <? i + i)%nat eqn:Hleaf.
  { apply Nat.ltb_lt in Hleaf. apply Hfill.
    intros c x Hc Hcn. unfold is_child in Hc. lia. }
  apply Nat.ltb_ge in Hleaf.
  destruct (larger_child (i + i) n a ltac:(lia)) as [Hj' Hlarger].
  set (j' := match heap_get (i + i) a, heap_get (i + i + 1) a with
             | Some x, Some y =>
                 if (i + i <? n)%nat && less x y then (i + i + 1)%nat else (i + i)%nat
             | _, _ => (i + i)%nat
             end) in *.
  assert (Hj'n : (i < j' <= n)%nat) by lia.
  destruct (heap_get_is_Some j' a ltac:(lia)) as [y Hy]. rewrite Hy.
  destruct (less tmp y) eqn:Hty.
  - assert (Hchild : is_child j' i) by (unfold is_child; lia).
    assert (Hget : forall k, (1 <= k)%nat ->
              heap_get k (heap_set i y a)
              = if decide (k = i) then Some y else heap_get k a).
    { intros k Hk. apply heap_get_set; lia. }
    destruct (IH j' (heap_set i y a)) as (Hheap & Hdrop & Hperm).
    + lia.
    + rewrite heap_set_length. lia.
    + lia.
    + intros k c x z Hk Hkj Hcj Hc Hcn.
      rewrite !Hget by (unfold is_child in Hc; lia).
      destruct (decide (c = i)) as [-> | Hci], (decide (k = i)) as [-> | Hki].
      * unfold is_child in Hc. lia.
      * intros [= <-] Hz. destruct (H2 k z Hk Hc Hz) as [_ Hbelow].
        apply (Hbelow j' y Hchild); [lia | exact Hy].
      * intros Hx [= <-]. apply (Hlarger c x y); [| exact Hcn | exact Hx | exact Hy].
        unfold is_child in Hc. lia.
      * apply (H1 k c x z); assumption.
    + intros q z Hq Hqj. assert (q = i) as -> by (unfold is_child in *; lia).
      rewrite Hget by lia. destruct (decide (i = i)); [| congruence].
      intros [= <-]. split; [apply less_asym; exact Hty |].
      intros c x Hc Hcn. rewrite Hget by (unfold is_child in Hc; lia).
      destruct (decide (c = i)); [unfold is_child in Hc; lia |].
      intros Hx. apply (H1 j' c x y); try assumption; lia.
    + split; [exact Hheap |]. split.
      * rewrite Hdrop. apply drop_insert_lt. lia.
      * rewrite Hperm. unfold heap_set.
        rewrite !take_insert_lt by lia.
        rewrite <- (list_insert_insert_eq (take n a) (i - 1) y tmp).
        apply Permutation_insert_swap.
        -- apply list_lookup_insert_eq. rewrite length_take. lia.
        -- rewrite list_lookup_insert_ne by lia.
           rewrite lookup_take_lt by lia. exact Hy.
  - apply Hfill. intros c x Hc Hcn Hx.
    apply (le_trans x y tmp); [| exact Hty].
    apply (Hlarger c x y); [| exact Hcn | exact Hx | exact Hy].
    unfold is_child in Hc. lia.
Qed.

Lemma sift_down_length (fuel : nat) (tmp : A) (i n : nat) (a : list A) :
  length (sift_down less fuel tmp i n a) = length a.
Proof.
  revert i a. induction fuel as [| fuel IH]; intros i a; cbn [sift_down];
    [apply heap_set_length |].
  destruct (n <? i + i)%nat; [apply heap_set_length |].
  destruct (heap_get _ a) as [y |]; [| apply heap_set_length].
  destruct (less tmp y); [| apply heap_set_length].
  rewrite IH. apply heap_set_length.
Qed.

Lemma sift_down_perm (lo : nat) (fuel : nat) (tmp : A) (i n : nat) (a : list A) :
  drop n (sift_down less fuel tmp i n a) = drop n a ->
  Permutation (take n (sift_down less fuel tmp i n a))
              (take n (heap_set i tmp a)) ->
  (1 <= i <= n)%nat ->
  Permutation (sift_down less fuel tmp i n a) (heap_set i tmp a).
Proof.
  intros Hdrop Hperm Hi.
  rewrite <- (take_drop n (sift_down less fuel tmp i n a)), Hdrop, Hperm.
  rewrite <- (take_drop n (heap_set i tmp a)) at 2.
  unfold heap_set at 3. rewrite drop_insert_lt by lia. reflexivity.
Qed.

Lemma build_heap_spec (l n : nat) (a : list A) :
  (l <= n <= length a)%nat -> heap_on (S l) n a ->
  heap_on 1 n (build_heap less l n a)
  /\ drop n (build_heap less l n a) = drop n a
  /\ Permutation (take n (build_heap less l n a)) (take n a).
Proof.
  revert a. induction l as [| l IH]; intros a Hl Hheap.
  { split; [exact Hheap |]. split; reflexivity. }
  cbn [build_heap].
  destruct (heap_get_is_Some (S l) a ltac:(lia)) as [tmp Htmp]. rewrite Htmp.
  destruct (sift_down_spec (S l) n tmp (S l) n a) as (Hheap1 & Hdrop1 & Hperm1);
    try lia.
  - intros k c x y Hk Hkl Hcl Hc Hcn. apply Hheap; [lia | exact Hc | exact Hcn].
  - intros q y Hq Hc. unfold is_child in Hc. lia.
  - destruct (IH (sift_down less n tmp (S l) n a)) as (Hheap2 & Hdrop2 & Hperm2).
    + rewrite sift_down_length. lia.
    + exact Hheap1.
    + split; [exact Hheap2 |]. split; [congruence |].
      rewrite Hperm2, Hperm1. unfold heap_set.
      rewrite list_insert_id by exact Htmp. reflexivity.
Qed.

(** The first row of a heap is not below any other. *)
Lemma heap_root_max (n : nat) (a : list A) (k : nat) (x y : A) :
  heap_on 1 n a -> (1 <= k <= n)%nat ->
  heap_get k a = Some x -> heap_get 1 a = Some y -> le x y.
Proof.
  intros Hheap Hk Hx Hy. revert x Hk Hx.
  induction k as [k IH] using lt_wf_ind. intros x Hk Hx.
  destruct (decide (k = 1)%nat) as [-> | Hne].
  { assert (x = y) as -> by congruence. apply less_irrefl. }
  assert (Hparent : is_child k (k / 2)).
  { unfold is_child. pose proof (Nat.div_mod_eq k 2) as Hdiv.
    pose proof (Nat.mod_upper_bound k 2 ltac:(lia)) as Hmod. lia. }
  assert (Hq : (1 <= k / 2 < k)%nat).
  { split; [apply Nat.div_le_lower_bound | apply Nat.div_lt]; lia. }
  destruct (heap_get_is_Some (k / 2) a) as [z Hz].
  { apply heap_get_le in Hx; lia. }
  apply (le_trans x z y).
  - apply (Hheap (k / 2)%nat k); try assumption; lia.
  - apply (IH (k / 2)%nat); try assumption; lia.
Qed.

Lemma sorted_app (l1 l2 : list A) :
  StronglySorted le l1 -> StronglySorted le l2 ->
  (forall x y, In x l1 -> In y l2 -> le x y) ->
  StronglySorted le (l1 ++ l2).
Proof.
  intros H1 H2 H12. induction H1 as [| x l1 Hs IH Hx]; [exact H2 |].
  cbn [app]. constructor.
  - apply IH. intros u v Hu Hv. apply H12; [right; exact Hu | exact Hv].
  - apply List.Forall_app. split; [exact Hx |].
    apply List.Forall_forall. intros v Hv. apply H12; [left; reflexivity | exact Hv].
Qed.

Lemma drain_heap_spec (n : nat) (a : list A) :
  (n <= length a)%nat -> heap_on 1 n a ->
  StronglySorted le (drop n a) ->
  (forall x y, In x (take n a) -> In y (drop n a) -> le x y) ->
  StronglySorted le (drain_heap less n a)
  /\ Permutation (drain_heap less n a) a.
Proof.
  revert a. induction n as [| m IH]; intros a Hn Hheap Hsorted Hbelow.
  { split; [exact Hsorted | reflexivity]. }
  cbn [drain_heap]. destruct (m =? 0)%nat eqn:Hm.
  { apply Nat.eqb_eq in Hm. subst m. split; [| reflexivity].
    rewrite <- (take_drop 1 a). apply sorted_app; [| exact Hsorted | exact Hbelow].
    destruct a as [| x a]; cbn; repeat constructor. }
  apply Nat.eqb_neq in Hm.
  destruct (heap_get_is_Some (S m) a ltac:(lia)) as [tmp Htmp].
  destruct (heap_get_is_Some 1 a ltac:(lia)) as [top Htop].
  rewrite Htmp, Htop.
  set (a1 := heap_set (S m) top a).
  assert (Hget1 : forall k, (1 <= k)%nat ->
            heap_get k a1 = if decide (k = S m) then Some top else heap_get k a).
  { intros k Hk. apply heap_get_set; lia. }
  destruct (sift_down_spec 1 m tmp 1 m a1) as (Hheap2 & Hdrop2 & Hperm2);
    try lia.
  { unfold a1. rewrite heap_set_length. lia. }
  { intros k c x y Hk Hk1 Hc1 Hc Hcm.
    rewrite !Hget1 by (unfold is_child in Hc; lia).
    repeat destruct (decide _); try (unfold is_child in Hc; lia).
    apply Hheap; [exact Hk | exact Hc | lia]. }
  { intros q y Hq Hc. unfold is_child in Hc. lia. }
  set (a2 := sift_down less m tmp 1 m a1) in *.
  assert (Hfull : Permutation a2 a).
  { unfold a2. rewrite (sift_down_perm 1) by (assumption || lia).
    unfold a1, heap_set. apply Permutation_insert_swap; assumption. }
  assert (Htail : drop m a2 = top :: drop (S m) a).
  { rewrite Hdrop2. unfold a1, heap_set. replace (S m - 1)%nat with m by lia.
    rewrite (drop_S _ top m) by (apply list_lookup_insert_eq; lia).
    rewrite drop_insert_lt by lia. reflexivity. }
  assert (Hin_top : In top (take (S m) a)).
  { apply In_lookup. exists 0%nat.
    rewrite lookup_take_lt by lia. rewrite <- heap_get_S. exact Htop. }
  assert (Hin_heap : forall x, In x (take m a2) -> In x (take (S m) a)).
  { intros x Hx. apply (Permutation_in _ Hperm2) in Hx.
    apply In_lookup in Hx as [k Hk].
    apply lookup_take_Some in Hk as [Hk Hkm].
    apply In_lookup.
    rewrite <- heap_get_S in Hk.
    rewrite heap_get_set in Hk by (unfold a1; rewrite ?heap_set_length; lia).
    destruct (decide (S k = 1)%nat).
    - exists m. rewrite lookup_take_lt by lia. injection Hk as <-.
      rewrite <- heap_get_S. exact Htmp.
    - rewrite Hget1 in Hk by lia. destruct (decide (S k = S m)); [lia |].
      exists k. rewrite lookup_take_lt by lia.
      rewrite <- heap_get_S. exact Hk. }
  destruct (IH a2) as (Hs & Hp).
  - rewrite (Permutation_length Hfull). lia.
  - exact Hheap2.
  - rewrite Htail. constructor; [exact Hsorted |].
    apply List.Forall_forall. intros y Hy. apply Hbelow; assumption.
  - intros x y Hx. rewrite Htail. intros [<- | Hy].
    + apply (Permutation_in _ Hperm2) in Hx.
      apply In_lookup in Hx as [k Hk].
      apply lookup_take_Some in Hk as [Hk Hkm].
      rewrite <- heap_get_S in Hk.
      rewrite heap_get_set in Hk by (unfold a1; rewrite ?heap_set_length; lia).
      destruct (decide (S k = 1)%nat).
      * injection Hk as <-.
        apply (heap_root_max (S m) a (S m)); try assumption; lia.
      * rewrite Hget1 in Hk by lia. destruct (decide (S k = S m)); [lia |].
        apply (heap_root_max (S m) a (S k)); try assumption; lia.
    + apply Hbelow; [apply Hin_heap; exact Hx | exact Hy].
  - split; [exact Hs |]. rewrite Hp. exact Hfull.
Qed.

Lemma aheapsort_spec (a : list A) :
  StronglySorted le (aheapsort less a) /\ Permutation (aheapsort less a) a.
Proof.
  unfold aheapsort. set (n := length a).
  destruct (build_heap_spec (n / 2) n a) as (Hheap & Hdrop & Hperm).
  - split; [apply Nat.Div0.div_le_upper_bound; lia | reflexivity].
  - intros k c x y Hk Hc Hcn. unfold is_child in Hc.
    pose proof (Nat.div_mod_eq n 2) as Hdiv.
    pose proof (Nat.mod_upper_bound n 2 ltac:(lia)) as Hmod. lia.
  - assert (Hfull : Permutation (build_heap less (n / 2) n a) a).
    { rewrite <- (take_drop n (build_heap less (n / 2) n a)), Hdrop, Hperm.
      rewrite take_drop. reflexivity. }
    destruct (drain_heap_spec n (build_heap less (n / 2) n a)) as (Hs & Hp).
    + rewrite (Permutation_length Hfull). reflexivity.
    + exact Hheap.
    + rewrite Hdrop. unfold n. rewrite drop_all. constructor.
    + intros x y _. rewrite Hdrop. unfold n. rewrite drop_all. intros [].
    + split; [exact Hs |]. rewrite Hp. exact Hfull.
Qed.

(** *** The quicksort *)

Lemma aquicksort_loop_spec (fuel : nat) (cdepth : Z) (a : list A) :
  (length a <= fuel)%nat ->
  StronglySorted le (aquicksort_loop less fuel cdepth a)
  /\ Permutation (aquicksort_loop less fuel cdepth a) a.
Proof.
  revert cdepth a. induction fuel as [| fuel IH]; intros cdepth a Hfuel;
    cbn [aquicksort_loop]; destruct (length a <=? 17)%nat eqn:Hshort;
    try (split; [apply insertion_sort_sorted | apply insertion_sort_perm]).
  { apply Nat.leb_gt in Hshort. lia. }
  apply Nat.leb_gt in Hshort.
  destruct (partition less a) as [pi a'] eqn:Hpart.
  apply partition_spec in Hpart as (Hperm & p & Hp & Hleft & Hright); [| lia].
  assert (Hpi : (pi < length a)%nat).
  { apply lookup_lt_Some in Hp. rewrite (Permutation_length Hperm) in Hp. exact Hp. }
  assert (Hlen' : length a' = length a) by exact (Permutation_length Hperm).
  assert (Hpivot : take 1 (drop pi a') = [p]).
  { rewrite (drop_S _ p pi Hp). reflexivity. }
  rewrite Hpivot.
  assert (Hparts : Permutation (take pi a' ++ [p] ++ drop (S pi) a') a).
  { rewrite <- Hperm. rewrite <- (take_drop pi a') at 3.
    rewrite (drop_S _ p pi Hp). reflexivity. }
  assert (Hpart_ok : forall part,
            (length part <= fuel)%nat ->
            (StronglySorted le (aquicksort_loop less fuel (cdepth - 1) part)
             /\ Permutation (aquicksort_loop less fuel (cdepth - 1) part) part)
            /\ (StronglySorted le
                  (if (cdepth - 1 <? 0)%Z then aheapsort less part
                   else aquicksort_loop less fuel (cdepth - 1) part)
                /\ Permutation
                     (if (cdepth - 1 <? 0)%Z then aheapsort less part
                      else aquicksort_loop less fuel (cdepth - 1) part) part)).
  { intros part Hlen. split; [apply IH; exact Hlen |].
    destruct (cdepth - 1 <? 0)%Z; [apply aheapsort_spec | apply IH; exact Hlen]. }
  destruct (Hpart_ok (take pi a')) as [[Hs1 Hp1] [Hs1' Hp1']].
  { rewrite length_take. lia. }
  destruct (Hpart_ok (drop (S pi) a')) as [[Hs2 Hp2] [Hs2' Hp2']].
  { rewrite length_drop. lia. }
  assert (Hjoin : forall l r,
            StronglySorted le l -> Permutation l (take pi a') ->
            StronglySorted le r -> Permutation r (drop (S pi) a') ->
            StronglySorted le (l ++ [p] ++ r) /\ Permutation (l ++ [p] ++ r) a).
  { intros l r Hsl Hpl Hsr Hpr. split.
    - assert (Hr : Forall (fun x => le p x) r).
      { apply List.Forall_forall. intros x Hx.
        apply (Permutation_in _ Hpr) in Hx.
        rewrite List.Forall_forall in Hright. apply Hright. exact Hx. }
      apply sorted_app; [exact Hsl | constructor; assumption |].
      intros x y Hx Hy. apply (Permutation_in _ Hpl) in Hx.
      rewrite List.Forall_forall in Hleft. pose proof (Hleft x Hx) as Hxp.
      destruct Hy as [<- | Hy]; [exact Hxp |].
      rewrite List.Forall_forall in Hr. apply (le_trans x p y); [exact Hxp |].
      apply Hr. exact Hy.
    - rewrite Hpl, Hpr. exact Hparts. }
  destruct (length (take pi a') <? length (drop (S pi) a'))%nat;
    apply Hjoin; assumption.
Qed.

Lemma aquicksort_spec (a : list A) :
  StronglySorted le (aquicksort less a) /\ Permutation (aquicksort less a) a.
Proof. apply aquicksort_loop_spec. reflexivity. Qed.

(** An array of at most 17 rows is sorted by insertion alone. *)
Lemma aquicksort_short (a : list A) :
  (length a <= 17)%nat -> aquicksort less a = insertion_sort less a.
Proof.
  intros Hlen. unfold aquicksort. apply Nat.leb_le in Hlen.
  generalize (length a) at 1. intros fuel.
  destruct fuel; cbn [aquicksort_loop]; rewrite Hlen; reflexivity.
Qed.

End Order.



(** *** The sort of the scores *)




Lemma argsort_asc_perm (rows : list (string * R)) :
  Permutation (argsort_asc rows) rows.
Proof.
  unfold argsort_asc. apply aquicksort_spec; unfold score_less.
  - intros x. apply ltb_false. lra.
  - intros x y H. apply ltb_true in H. apply ltb_false. lra.
  - intros x y z Hxy Hyz. apply ltb_false in Hxy, Hyz. apply ltb_false. lra.
Qed.

Lemma argsort_asc_sorted (rows : list (string * R)) :
  StronglySorted (fun a b => snd a <= snd b) (argsort_asc rows).
Proof.
  assert (H : StronglySorted (fun x y => score_less y x = false) (argsort_asc rows)).
  { unfold argsort_asc. apply aquicksort_spec; unfold score_less.
    - intros x. apply ltb_false. lra.
    - intros x y H. apply ltb_true in H. apply ltb_false. lra.
    - intros x y z Hxy Hyz. apply ltb_false in Hxy, Hyz. apply ltb_false. lra. }
  induction H as [| x l Hs IH Hx]; constructor; [exact IH |].
  eapply List.Forall_impl; [| exact Hx]. intros y Hy. apply ltb_false. exact Hy.
Qed.


Lemma score_less_irrefl (x : string * R) : score_less x x = false.
Proof. apply ltb_false. lra. Qed.

Section Sort.





End Sort.













Lemma sort_values_desc_perm (rows : list row) :
  Permutation (sort_values_desc rows) (map fst rows).
Proof.
  unfold sort_values_desc.
  rewrite <- Permutation_rev, argsort_asc_perm, <- Permutation_rev.
  induction rows as [| [t [s |]] rest IH]; cbn [scored unscored map fst app].
  - reflexivity.
  - apply perm_skip. exact IH.
  - rewrite <- Permutation_middle. apply perm_skip. exact IH.
Qed.

(** *** The ranking of an input without an empty series *)

Lemma ml_recommendation_ok (historical_data : list (string * frame))
    (risk_profile : string) :
  Forall (fun item => snd item <> []) historical_data ->
  simple_ml_recommendation historical_data risk_profile
  = Ok (sort_values_desc
          (map (fun item =>
                  (fst item,
                   score_of (weights_for risk_profile)
                            (map snd historical_data) (snd item)))
               historical_data)).
Proof.
  intros H. unfold simple_ml_recommendation.
  rewrite score_table_ok by exact H.
  destruct historical_data; reflexivity.
Qed.

(** The part of C1 on a dict of price series (none empty, positive
    closes): the ranking lists exactly the instruments of the input. *)
Lemma ml_recommendation_ranks_all (historical_data : list (string * frame))
    (risk_profile : string) :
  price_history historical_data ->
  exists ranking,
    simple_ml_recommendation historical_data risk_profile = Ok ranking
    /\ Permutation ranking (map fst historical_data).
Proof.
  intros H. apply price_history_nonempty in H.
  eexists. split; [apply ml_recommendation_ok; exact H |].
  rewrite sort_values_desc_perm, map_map. reflexivity.
Qed.

(** *** Minimum and maximum of a column *)

Lemma fold_min_le_init (l : list R) (x : R) : fold_left Rmin l x <= x.
Proof.
  revert x. induction l as [| y l IH]; intros x; cbn [fold_left]; [lra |].
  etransitivity; [apply IH | apply Rmin_l].
Qed.

Lemma fold_min_le (l : list R) (x y : R) : In y l -> fold_left Rmin l x <= y.
Proof.
  revert x. induction l as [| z l IH]; intros x Hin; [inversion Hin |].
  cbn [fold_left]. destruct Hin as [-> | Hin].
  - etransitivity; [apply fold_min_le_init | apply Rmin_r].
  - apply IH. exact Hin.
Qed.

Lemma fold_max_ge_init (l : list R) (x : R) : x <= fold_left Rmax l x.
Proof.
  revert x. induction l as [| y l IH]; intros x; cbn [fold_left]; [lra |].
  etransitivity; [apply Rmax_l | apply IH].
Qed.

Lemma fold_max_ge (l : list R) (x y : R) : In y l -> y <= fold_left Rmax l x.
Proof.
  revert x. induction l as [| z l IH]; intros x Hin; [inversion Hin |].
  cbn [fold_left]. destruct Hin as [-> | Hin].
  - etransitivity; [apply Rmax_r | apply fold_max_ge_init].
  - apply IH. exact Hin.
Qed.

Lemma dropna_some (xs : list R) : dropna (map Some xs) = xs.
Proof. induction xs as [| x xs IH]; [reflexivity |]. cbn. rewrite IH. reflexivity. Qed.

(** A column without NaN is the image of a list of numbers. *)
Lemma column_of_numbers (col : list cell) :
  Forall (fun c => c <> None) col -> exists xs, col = map Some xs.
Proof.
  induction 1 as [| c col Hc _ [xs ->]]; [exists []; reflexivity |].
  destruct c as [x |]; [| contradiction].
  exists (x :: xs). reflexivity.
Qed.

Lemma column_bounds (xs : list R) (x : R) :
  In x xs ->
  exists lo hi,
    nanmin (map Some xs) = Some lo /\ nanmax (map Some xs) = Some hi
    /\ lo <= x <= hi.
Proof.
  intros Hin. unfold nanmin, nanmax. rewrite dropna_some.
  destruct xs as [| x0 rest]; [inversion Hin |].
  eexists _, _. split; [reflexivity |]. split; [reflexivity |].
  destruct Hin as [-> | Hin].
  - split; [apply fold_min_le_init | apply fold_max_ge_init].
  - split; [apply fold_min_le | apply fold_max_ge]; exact Hin.
Qed.

(** *** The scaler *)

Lemma handle_zeros_pos (range : R) : 0 <= range -> 0 < handle_zeros_in_scale range.
Proof.
  intros H. unfold handle_zeros_in_scale.
  destruct (Py.eqb range 0) eqn:E; [lra |].
  apply eqb_false in E. lra.
Qed.

(** The value of a cell scaled between the bounds [lo] and [hi]. *)
Lemma scaled_value (lo hi x : R) :
  lo <= x <= hi ->
  let y := x * ((1 - 0) / handle_zeros_in_scale (hi - lo))
           + (0 - lo * ((1 - 0) / handle_zeros_in_scale (hi - lo))) in
  0 <= y <= 1 /\ (hi = lo -> y = 0) /\ (lo < hi -> y = (x - lo) / (hi - lo)).
Proof.
  intros Hx y. unfold y, handle_zeros_in_scale.
  destruct (Py.eqb (hi - lo) 0) eqn:E.
  - apply eqb_true in E. assert (x = lo) by lra. subst x.
    repeat split; intros; try lra.
  - apply eqb_false in E. assert (Hr : 0 < hi - lo) by lra.
    assert (Hy : x * ((1 - 0) / (hi - lo)) + (0 - lo * ((1 - 0) / (hi - lo)))
                 = (x - lo) / (hi - lo)) by (field; lra).
    rewrite Hy. repeat split; intros; try lra.
    + apply Rmult_le_pos; [lra |]. left. apply Rinv_0_lt_compat. exact Hr.
    + apply Rmult_le_reg_r with (hi - lo); [exact Hr |].
      unfold Rdiv. rewrite Rmult_assoc, Rinv_l by lra. lra.
Qed.

Lemma scaled_unit (xs : list R) (x : R) :
  In x xs -> unit_cell (scaled (map Some xs) (Some x)).
Proof.
  intros Hin. destruct (column_bounds xs x Hin) as (lo & hi & Hlo & Hhi & Hx).
  unfold scaled. rewrite Hlo, Hhi. cbn [cell_map].
  eexists. split; [reflexivity |]. apply scaled_value. exact Hx.
Qed.

Lemma inverted_unit (c : cell) :
  unit_cell c -> unit_cell (cell_map (fun y => 1 - y) c).
Proof.
  intros (y & -> & Hy). exists (1 - y). split; [reflexivity | lra].
Qed.

(** A column without NaN is normalized into the unit interval. *)
Lemma norm_direct_unit (col : list cell) :
  Forall (fun c => c <> None) col -> Forall unit_cell (norm_direct col).
Proof.
  intros H. destruct (column_of_numbers col H) as [xs ->].
  rewrite norm_direct_scaled, map_map. apply List.Forall_forall.
  intros c Hc. apply in_map_iff in Hc as (x & <- & Hx).
  apply scaled_unit. exact Hx.
Qed.

Lemma norm_inverted_unit (col : list cell) :
  Forall (fun c => c <> None) col -> Forall unit_cell (norm_inverted col).
Proof.
  intros H. destruct (column_of_numbers col H) as [xs ->].
  rewrite norm_inverted_scaled, map_map. apply List.Forall_forall.
  intros c Hc. apply in_map_iff in Hc as (x & <- & Hx).
  apply inverted_unit, scaled_unit. exact Hx.
Qed.

Lemma fold_min_const (l : list R) (x : R) :
  Forall (eq x) l -> fold_left Rmin l x = x.
Proof.
  induction 1 as [| y l <- _ IH]; [reflexivity |].
  cbn [fold_left]. rewrite Rmin_left by lra. exact IH.
Qed.

Lemma fold_max_const (l : list R) (x : R) :
  Forall (eq x) l -> fold_left Rmax l x = x.
Proof.
  induction 1 as [| y l <- _ IH]; [reflexivity |].
  cbn [fold_left]. rewrite Rmax_left by lra. exact IH.
Qed.

Lemma constant_scaled (v : R) (xs : list R) :
  xs <> [] -> Forall (eq v) xs ->
  scaled (map Some xs) (Some v) = Some 0.
Proof.
  intros Hne Hall. unfold scaled, nanmin, nanmax. rewrite dropna_some.
  destruct xs as [| x rest]; [contradiction |].
  apply List.Forall_cons_iff in Hall as [<- Hrest].
  rewrite fold_min_const, fold_max_const by exact Hrest.
  cbn [cell_map]. f_equal. apply (scaled_value v v v); lra.
Qed.

(** A column whose cells all hold one number normalizes to the constant 0,
    and to the constant 1 where it is inverted. *)
Lemma constant_column (v : R) (col : list cell) :
  Forall (eq (Some v)) col ->
  Forall (eq (Some 0)) (norm_direct col)
  /\ Forall (eq (Some (1 - 0))) (norm_inverted col).
Proof.
  intros Hall.
  assert (Hxs : exists xs, col = map Some xs /\ Forall (eq v) xs).
  { induction Hall as [| c col <- _ (xs & -> & Hxs)].
    - exists []. split; [reflexivity | constructor].
    - exists (v :: xs). split; [reflexivity | constructor; [reflexivity | exact Hxs]]. }
  destruct Hxs as (xs & -> & Hxs).
  rewrite norm_direct_scaled, norm_inverted_scaled, !map_map.
  split; apply List.Forall_forall; intros c Hc;
    apply in_map_iff in Hc as (x & <- & Hx);
    pose proof (proj1 (List.Forall_forall _ _) Hxs x Hx) as <-;
    rewrite constant_scaled; try reflexivity; try exact Hxs;
    intros ->; inversion Hx.
Qed.

(** *** The features of a price series *)

Lemma cell_div_nonzero (x y : R) : y <> 0 -> cell_div x y = Some (x / y).
Proof. intros H. unfold cell_div. apply eqb_false in H. rewrite H. reflexivity. Qed.

Lemma pct_change_from_returns (prev : R) (close : list R) :
  0 < prev -> Forall (fun c => 0 < c) close ->
  dropna (pct_change_from prev close) = returns_from prev close.
Proof.
  intros Hprev Hpos. revert prev Hprev.
  induction Hpos as [| p rest Hp _ IH]; intros prev Hprev; [reflexivity |].
  cbn [pct_change_from returns_from]. rewrite cell_div_nonzero by lra.
  cbn [cell_map dropna]. rewrite IH by exact Hp. reflexivity.
Qed.

Lemma daily_returns_series (p : R) (rest : list R) :
  Forall (fun c => 0 < c) (p :: rest) ->
  daily_returns (p :: rest) = returns_from p rest.
Proof.
  intros H. apply List.Forall_cons_iff in H as [Hp Hrest].
  unfold daily_returns. cbn [pct_change dropna].
  apply pct_change_from_returns; assumption.
Qed.

Lemma returns_from_length (prev : R) (close : list R) :
  length (returns_from prev close) = length close.
Proof.
  revert prev. induction close as [| p rest IH]; intros prev; [reflexivity |].
  cbn [returns_from length]. rewrite IH. reflexivity.
Qed.

Lemma mean_some (l : list R) :
  l <> [] -> mean l = Some (series_sum l / INR (length l)).
Proof. destruct l; [contradiction | reflexivity]. Qed.

Lemma annual_return_some (data : frame) :
  Forall (fun c => 0 < c) data -> (2 <= length data)%nat ->
  exists m, mean (daily_returns data) = Some m
            /\ annual_return data = Some ((1 + m) ^ 252 - 1).
Proof.
  intros Hpos Hlen. destruct data as [| p [| q rest]]; cbn in Hlen; try lia.
  unfold annual_return. rewrite daily_returns_series by exact Hpos.
  cbn [returns_from]. eexists. split; reflexivity.
Qed.

Lemma volatility_some (data : frame) :
  Forall (fun c => 0 < c) data -> (3 <= length data)%nat ->
  exists v, volatility data = Some v /\ 0 <= v.
Proof.
  intros Hpos Hlen.
  destruct data as [| p [| q [| q' rest]]]; cbn in Hlen; try lia.
  unfold volatility, std. rewrite daily_returns_series by exact Hpos.
  cbn [returns_from mean length Nat.leb cell_map].
  eexists. split; [reflexivity |].
  apply Rmult_le_pos; apply sqrt_pos.
Qed.

Lemma sharpe_some (data : frame) :
  Forall (fun c => 0 < c) data -> (2 <= length data)%nat ->
  sharpe data <> None.
Proof.
  intros Hpos Hlen.
  destruct (annual_return_some data Hpos Hlen) as (m & _ & Ha).
  unfold sharpe. rewrite Ha.
  destruct (volatility data) as [v |]; [| discriminate].
  destruct (Py.ltb 0 v); discriminate.
Qed.

Lemma cummax_from_pos (m : R) (close : list R) :
  0 < m -> Forall (fun c => 0 < c) (cummax_from m close).
Proof.
  revert m. induction close as [| p rest IH]; intros m Hm; [constructor |].
  cbn [cummax_from].
  assert (0 < Rmax m p) by (pose proof (Rmax_l m p); lra).
  constructor; [assumption | apply IH; assumption].
Qed.

Lemma cummax_pos (data : frame) :
  Forall (fun c => 0 < c) data -> Forall (fun c => 0 < c) (cummax data).
Proof.
  intros H. destruct data as [| p rest]; [constructor |].
  apply List.Forall_cons_iff in H as [Hp _].
  cbn [cummax]. constructor; [exact Hp | apply cummax_from_pos; exact Hp].
Qed.

Lemma nanmin_numbers (col : list cell) :
  col <> [] -> Forall (fun c => c <> None) col -> nanmin col <> None.
Proof.
  intros Hne H. destruct (column_of_numbers col H) as [xs ->].
  unfold nanmin. rewrite dropna_some.
  destruct xs; [contradiction | discriminate].
Qed.

Lemma drawdown_some (data : frame) :
  price_series data -> drawdown data <> None.
Proof.
  intros [Hne Hpos]. unfold drawdown. apply nanmin_numbers.
  - destruct data as [| p rest]; [contradiction | discriminate].
  - apply List.Forall_forall. intros c Hc.
    apply in_map_iff in Hc as ([p m] & <- & Hin). cbn [fst snd].
    apply in_combine_r in Hin.
    pose proof (proj1 (List.Forall_forall _ _) (cummax_pos data Hpos) m Hin).
    rewrite cell_div_nonzero by lra. discriminate.
Qed.

(** The four features of a price series of three closes or more are
    numbers. *)
Lemma features_are_numbers (frames : list frame) :
  Forall price_series frames ->
  Forall (fun data => (3 <= length data)%nat) frames ->
  Forall (fun c => c <> None) (map annual_return frames)
  /\ Forall (fun c => c <> None) (map volatility frames)
  /\ Forall (fun c => c <> None) (map sharpe frames)
  /\ Forall (fun c => c <> None) (map drawdown frames).
Proof.
  intros Hseries Hlen.
  rewrite !List.Forall_map.
  rewrite List.Forall_forall in Hseries, Hlen.
  repeat split; apply List.Forall_forall; intros data Hin;
    destruct (Hseries data Hin) as [Hne Hpos];
    pose proof (Hlen data Hin) as H3.
  - destruct (annual_return_some data Hpos) as (m & _ & ->); [lia | discriminate].
  - destruct (volatility_some data Hpos H3) as (v & -> & _). discriminate.
  - apply sharpe_some; [exact Hpos | lia].
  - apply drawdown_some. split; assumption.
Qed.

(** *** Normalized features *)

Lemma two_closes_no_volatility (p q : R) :
  0 < p -> volatility [p; q] = None.
Proof.
  intros Hp. unfold volatility, std, daily_returns.
  cbn [pct_change pct_change_from]. rewrite cell_div_nonzero by lra.
  reflexivity.
Qed.

(** C7, at an explicit input: one instrument with the two closes 1 and 2
    has no volatility (the deviation of a single return is NaN), and its
    normalized volatility is NaN, outside [0, 1]. *)
Lemma two_point_series_not_normalized :
  (try df := build_frame [("A", [1; 2])] in
   Ok (volatility_norm (normalize df))) = Ok [None].
Proof.
  rewrite build_frame_ok by (repeat constructor; discriminate).
  cbn [Py.bind normalize volatility_norm col_volatility map snd].
  rewrite two_closes_no_volatility by lra.
  reflexivity.
Qed.

(** C7, amended: when every series of the input has at least three closes,
    all positive, the frame is built and each of the four normalized
    features of every instrument is a number of [0, 1]; a column whose
    values are all identical normalizes to the constant 0 (return, Sharpe)
    or 1 (volatility, drawdown). *)
Theorem normalized_features_in_unit_interval
    (historical_data : list (string * frame)) :
  price_history historical_data ->
  Forall (fun item => (3 <= length (snd item))%nat) historical_data ->
  exists df,
    build_frame historical_data = Ok df
    /\ Forall unit_cell (return_norm (normalize df))
    /\ Forall unit_cell (sharpe_norm (normalize df))
    /\ Forall unit_cell (volatility_norm (normalize df))
    /\ Forall unit_cell (max_dd_norm (normalize df))
    /\ (forall v, Forall (eq (Some v)) (col_return df) ->
                  Forall (eq (Some 0)) (return_norm (normalize df)))
    /\ (forall v, Forall (eq (Some v)) (col_sharpe df) ->
                  Forall (eq (Some 0)) (sharpe_norm (normalize df)))
    /\ (forall v, Forall (eq (Some v)) (col_volatility df) ->
                  Forall (eq (Some (1 - 0))) (volatility_norm (normalize df)))
    /\ (forall v, Forall (eq (Some v)) (col_max_dd df) ->
                  Forall (eq (Some (1 - 0))) (max_dd_norm (normalize df))).
Proof.
  intros Hhist Hlen.
  pose proof (price_history_nonempty _ Hhist) as Hne.
  destruct Hhist as [_ Hseries].
  destruct (features_are_numbers (map snd historical_data))
    as (Hr & Hv & Hs & Hd).
  { rewrite List.Forall_map. exact Hseries. }
  { rewrite List.Forall_map. exact Hlen. }
  eexists. split; [apply build_frame_ok; exact Hne |].
  unfold normalize.
  cbn [return_norm sharpe_norm volatility_norm max_dd_norm
       col_return col_sharpe col_volatility col_max_dd].
  repeat split;
    try (apply norm_direct_unit; assumption);
    try (apply norm_inverted_unit; assumption);
    intros v Hconst; apply (constant_column v); exact Hconst.
Qed.

Lemma normalized_features_in_unit_interval_witness :
  exists df,
    build_frame [("A", [1; 2; 4]); ("B", [4; 2; 1])] = Ok df
    /\ Forall unit_cell (return_norm (normalize df))
    /\ Forall unit_cell (volatility_norm (normalize df)).
Proof.
  destruct (normalized_features_in_unit_interval
              [("A", [1; 2; 4]); ("B", [4; 2; 1])])
    as (df & Hdf & Hr & _ & Hv & _).
  - split.
    + cbn. repeat constructor; cbn; intuition discriminate.
    + repeat constructor; cbn; try discriminate; lra.
  - repeat constructor; cbn; lia.
  - exists df. split; [exact Hdf |]. split; assumption.
Defined.

(** *** Rising and falling series *)

Lemma sum_above (lo : R) (l : list R) :
  Forall (fun r => lo < r) l -> l <> [] ->
  lo * INR (length l) < series_sum l.
Proof.
  induction 1 as [| x l Hx Hl IH]; intros Hne; [contradiction |].
  cbn [series_sum fold_right]. fold (series_sum l).
  rewrite length_cons, S_INR.
  destruct l as [| y l'].
  - cbn [series_sum fold_right length INR]. lra.
  - assert (lo * INR (length (y :: l')) < series_sum (y :: l'))
      by (apply IH; discriminate).
    lra.
Qed.

Lemma sum_below (hi : R) (l : list R) :
  Forall (fun r => r < hi) l -> l <> [] ->
  series_sum l < hi * INR (length l).
Proof.
  induction 1 as [| x l Hx Hl IH]; intros Hne; [contradiction |].
  cbn [series_sum fold_right]. fold (series_sum l).
  rewrite length_cons, S_INR.
  destruct l as [| y l'].
  - cbn [series_sum fold_right length INR]. lra.
  - assert (series_sum (y :: l') < hi * INR (length (y :: l')))
      by (apply IH; discriminate).
    lra.
Qed.

Lemma length_pos (l : list R) : l <> [] -> 0 < INR (length l).
Proof.
  intros H. destruct l; [contradiction |].
  rewrite length_cons. apply lt_0_INR. lia.
Qed.

Lemma average_above (lo : R) (l : list R) :
  Forall (fun r => lo < r) l -> l <> [] ->
  lo < series_sum l / INR (length l).
Proof.
  intros Hall Hne. pose proof (length_pos l Hne) as Hn.
  pose proof (sum_above lo l Hall Hne) as Hs.
  apply Rmult_lt_reg_r with (INR (length l)); [exact Hn |].
  unfold Rdiv. rewrite Rmult_assoc, Rinv_l by lra. lra.
Qed.

Lemma average_below (hi : R) (l : list R) :
  Forall (fun r => r < hi) l -> l <> [] ->
  series_sum l / INR (length l) < hi.
Proof.
  intros Hall Hne. pose proof (length_pos l Hne) as Hn.
  pose proof (sum_below hi l Hall Hne) as Hs.
  apply Rmult_lt_reg_r with (INR (length l)); [exact Hn |].
  unfold Rdiv. rewrite Rmult_assoc, Rinv_l by lra. lra.
Qed.

Lemma rising_returns (prev : R) (close : list R) :
  0 < prev -> rising_from prev close ->
  Forall (fun c => 0 < c) close
  /\ Forall (fun r => 0 < r) (returns_from prev close).
Proof.
  revert prev. induction close as [| p rest IH]; intros prev Hprev Hrise.
  - split; constructor.
  - destruct Hrise as [Hlt Hrest].
    destruct (IH p) as [Hpos Hret]; [lra | exact Hrest |].
    split; constructor; try assumption; [lra |].
    assert (1 < p / prev); [| lra].
    apply Rmult_lt_reg_r with prev; [exact Hprev |].
    unfold Rdiv. rewrite Rmult_assoc, Rinv_l by lra. lra.
Qed.

Lemma falling_returns (prev : R) (close : list R) :
  0 < prev -> Forall (fun c => 0 < c) close -> falling_from prev close ->
  Forall (fun r => -1 < r) (returns_from prev close)
  /\ Forall (fun r => r < 0) (returns_from prev close).
Proof.
  intros Hprev Hpos. revert prev Hprev.
  induction Hpos as [| p rest Hp _ IH]; intros prev Hprev Hfall.
  - split; constructor.
  - destruct Hfall as [Hlt Hrest].
    destruct (IH p Hp Hrest) as [Hlo Hhi].
    assert (Hq : 0 < p / prev < 1).
    { split.
      - apply Rdiv_lt_0_compat; assumption.
      - apply Rmult_lt_reg_r with prev; [exact Hprev |].
        unfold Rdiv. rewrite Rmult_assoc, Rinv_l by lra. lra. }
    split; constructor; try assumption; lra.
Qed.

(** A strictly increasing price series has a positive annual return. *)
Lemma rising_annual_return (data : frame) :
  price_series data -> (2 <= length data)%nat -> strictly_increasing data ->
  exists a, annual_return data = Some a /\ 0 < a.
Proof.
  intros [_ Hpos] Hlen Hrise.
  destruct data as [| p [| q rest]]; cbn in Hlen; try lia.
  unfold annual_return. rewrite daily_returns_series by exact Hpos.
  apply List.Forall_cons_iff in Hpos as [Hp _].
  destruct (rising_returns p (q :: rest) Hp Hrise) as [_ Hret].
  rewrite mean_some by discriminate. cbn [cell_map].
  eexists. split; [reflexivity |].
  pose proof (average_above 0 _ Hret) as Hm.
  assert (1 < (1 + series_sum (returns_from p (q :: rest))
                   / INR (length (returns_from p (q :: rest)))) ^ 252).
  { apply Rlt_pow_R1; [| lia].
    assert (0 < series_sum (returns_from p (q :: rest))
                / INR (length (returns_from p (q :: rest))))
      by (apply Hm; discriminate).
    lra. }
  lra.
Qed.

(** A strictly decreasing price series has a negative annual return. *)
Lemma falling_annual_return (data : frame) :
  price_series data -> (2 <= length data)%nat -> strictly_decreasing data ->
  exists a, annual_return data = Some a /\ a < 0.
Proof.
  intros [_ Hpos] Hlen Hfall.
  destruct data as [| p [| q rest]]; cbn in Hlen; try lia.
  unfold annual_return. rewrite daily_returns_series by exact Hpos.
  apply List.Forall_cons_iff in Hpos as [Hp Hrest].
  destruct (falling_returns p (q :: rest) Hp Hrest Hfall) as [Hlo Hhi].
  rewrite mean_some by discriminate. cbn [cell_map].
  eexists. split; [reflexivity |].
  pose proof (average_above (-1) _ Hlo) as Hm1.
  pose proof (average_below 0 _ Hhi) as Hm2.
  set (m := series_sum (returns_from p (q :: rest))
            / INR (length (returns_from p (q :: rest)))) in *.
  assert (Hm : -1 < m < 0) by (split; [apply Hm1 | apply Hm2]; discriminate).
  assert (0 <= (1 + m) ^ 252 < 1) by (apply pow_lt_1_compat; [lra | lia]).
  lra.
Qed.

(** *** Two instruments *)

Lemma pair_norm_gt (x y : R) : y < x -> pair_norm x y = 1.
Proof. intros H. unfold pair_norm. apply ltb_true in H. rewrite H. reflexivity. Qed.

Lemma pair_norm_le (x y : R) : x <= y -> pair_norm x y = 0.
Proof. intros H. unfold pair_norm. apply ltb_false in H. rewrite H. reflexivity. Qed.

Lemma pair_norm_bounds (x y : R) : 0 <= pair_norm x y <= 1.
Proof. unfold pair_norm. destruct (Py.ltb y x); lra. Qed.

Lemma scaled_pair_first (x y : R) :
  scaled [Some x; Some y] (Some x) = Some (pair_norm x y).
Proof.
  unfold scaled, nanmin, nanmax. cbn [dropna fold_left cell_map]. f_equal.
  destruct (Rlt_le_dec y x) as [Hlt | Hle].
  - rewrite Rmin_right, Rmax_left, pair_norm_gt by lra.
    destruct (scaled_value y x x) as (_ & _ & H); [lra |].
    rewrite H by lra. field. lra.
  - rewrite Rmin_left, Rmax_right, pair_norm_le by lra.
    destruct (scaled_value x y x) as (H01 & Heq & Hlt); [lra |].
    destruct Hle as [Hlt' | ->]; [rewrite Hlt by lra; field; lra |].
    apply Heq. reflexivity.
Qed.

Lemma scaled_pair_second (x y : R) :
  scaled [Some x; Some y] (Some y) = Some (pair_norm y x).
Proof.
  unfold scaled, nanmin, nanmax. cbn [dropna fold_left cell_map]. f_equal.
  destruct (Rlt_le_dec x y) as [Hlt | Hle].
  - rewrite Rmin_left, Rmax_right, pair_norm_gt by lra.
    destruct (scaled_value x y y) as (_ & _ & H); [lra |].
    rewrite H by lra. field. lra.
  - rewrite Rmin_right, Rmax_left, pair_norm_le by lra.
    destruct (scaled_value y x y) as (H01 & Heq & Hlt); [lra |].
    destruct Hle as [Hlt' | ->]; [rewrite Hlt by lra; field; lra |].
    apply Heq. reflexivity.
Qed.

Lemma two_scores (w : Weights) (data1 data2 : frame)
    (r1 v1 s1 d1 r2 v2 s2 d2 : R) :
  has_features data1 r1 v1 s1 d1 -> has_features data2 r2 v2 s2 d2 ->
  score_of w [data1; data2] data1 = Some (pair_score w r1 v1 s1 d1 r2 v2 s2 d2)
  /\ score_of w [data1; data2] data2
     = Some (pair_score w r2 v2 s2 d2 r1 v1 s1 d1).
Proof.
  intros (Hr1 & Hv1 & Hs1 & Hd1) (Hr2 & Hv2 & Hs2 & Hd2).
  unfold score_of. cbn [map].
  rewrite Hr1, Hv1, Hs1, Hd1, Hr2, Hv2, Hs2, Hd2.
  rewrite !scaled_pair_first, !scaled_pair_second.
  split; reflexivity.
Qed.

Lemma sort_two_rows (t1 t2 : string) (s1 s2 : R) :
  sort_values_desc [(t1, Some s1); (t2, Some s2)]
  = if Py.leb s2 s1 then [t1; t2] else [t2; t1].
Proof.
  unfold sort_values_desc, argsort_asc.
  cbn [scored unscored rev app].
  rewrite aquicksort_short by (cbn; lia).
  unfold insertion_sort, score_less. cbn [fold_left shift_in snd].
  unfold Py.ltb, Py.leb.
  destruct (Rlt_dec s1 s2), (Rle_dec s2 s1); try reflexivity; lra.
Qed.

(** The ranking of two instruments: the first of the input stays first
    unless the second scores strictly higher. *)
Lemma rank_two (risk_profile t1 t2 : string) (data1 data2 : frame)
    (r1 v1 s1 d1 r2 v2 s2 d2 : R) :
  has_features data1 r1 v1 s1 d1 -> has_features data2 r2 v2 s2 d2 ->
  data1 <> [] -> data2 <> [] ->
  simple_ml_recommendation [(t1, data1); (t2, data2)] risk_profile
  = Ok (if Py.leb (pair_score (weights_for risk_profile) r2 v2 s2 d2 r1 v1 s1 d1)
                  (pair_score (weights_for risk_profile) r1 v1 s1 d1 r2 v2 s2 d2)
        then [t1; t2] else [t2; t1]).
Proof.
  intros H1 H2 Hne1 Hne2.
  rewrite ml_recommendation_ok by (repeat constructor; assumption).
  cbn [map fst snd].
  destruct (two_scores (weights_for risk_profile) _ _ _ _ _ _ _ _ _ _ H1 H2)
    as [-> ->].
  rewrite sort_two_rows. reflexivity.
Qed.

Lemma sharpe_value (data : frame) (a v : R) :
  annual_return data = Some a -> volatility data = Some v ->
  sharpe data = Some (if Py.ltb 0 v then (a - risk_free_rate) / v else 0).
Proof.
  intros Ha Hv. unfold sharpe. rewrite Hv, Ha.
  destruct (Py.ltb 0 v); reflexivity.
Qed.

Lemma weights_for_cases (risk_profile : string) :
  weights_for risk_profile = conservative_weights
  \/ weights_for risk_profile = moderate_weights
  \/ weights_for risk_profile = aggressive_weights.
Proof.
  destruct (decide (risk_profile = "Conservative")) as [-> | Hc];
    [left; apply weights_for_conservative |].
  destruct (decide (risk_profile = "Moderate")) as [-> | Hm];
    [right; left; apply weights_for_moderate |].
  destruct (decide (risk_profile = "Aggressive")) as [-> | Ha];
    [right; right; apply weights_for_aggressive |].
  right; left. apply weights_for_unknown; assumption.
Qed.

(** With the weights of any profile, a higher return together with a
    volatility that is not higher decides the comparison of two scores. *)
Lemma higher_return_lower_risk_wins (w : Weights)
    (ra va sa da rb vb sb db : R) :
  w = conservative_weights \/ w = moderate_weights \/ w = aggressive_weights ->
  rb < ra -> va <= vb -> (va = vb -> sb <= sa) ->
  pair_score w rb vb sb db ra va sa da < pair_score w ra va sa da rb vb sb db.
Proof.
  intros Hw Hr Hv Hs. unfold pair_score.
  rewrite (pair_norm_gt ra rb), (pair_norm_le rb ra) by lra.
  rewrite (pair_norm_le va vb) by lra.
  pose proof (pair_norm_bounds sa sb) as Bsa.
  pose proof (pair_norm_bounds sb sa) as Bsb.
  pose proof (pair_norm_bounds da db) as Bda.
  pose proof (pair_norm_bounds db da) as Bdb.
  destruct Hv as [Hlt | Heq].
  - rewrite (pair_norm_gt vb va) by lra.
    destruct Hw as [-> | [-> | ->]];
      cbn [w_return w_volatility w_sharpe w_max_dd conservative_weights
           moderate_weights aggressive_weights]; lra.
  - rewrite (pair_norm_le vb va) by lra.
    rewrite (pair_norm_le sb sa) in * by (apply Hs; exact Heq).
    destruct Hw as [-> | [-> | ->]];
      cbn [w_return w_volatility w_sharpe w_max_dd conservative_weights
           moderate_weights aggressive_weights]; lra.
Qed.

Lemma sharpe_order (ra rb v : R) :
  rb < ra ->
  (if Py.ltb 0 v then (rb - risk_free_rate) / v else 0)
  <= (if Py.ltb 0 v then (ra - risk_free_rate) / v else 0).
Proof.
  intros Hr. destruct (Py.ltb 0 v) eqn:Hv; [| lra].
  apply ltb_true in Hv. unfold Rdiv.
  apply Rmult_le_compat_r; [| lra].
  left. apply Rinv_0_lt_compat. exact Hv.
Qed.

(** C4, amended: of two price series of at least three closes, one
    strictly increasing and one strictly decreasing, the increasing one is
    ranked first under every risk profile, in either input order, provided
    its volatility does not exceed that of the decreasing one. *)
Theorem rising_series_ranked_first
    (risk_profile up down : string) (rising falling : frame)
    (historical_data : list (string * frame)) :
  historical_data = [(up, rising); (down, falling)]
  \/ historical_data = [(down, falling); (up, rising)] ->
  price_history historical_data ->
  (3 <= length rising)%nat -> (3 <= length falling)%nat ->
  strictly_increasing rising -> strictly_decreasing falling ->
  cell_le (volatility rising) (volatility falling) ->
  simple_ml_recommendation historical_data risk_profile = Ok [up; down].
Proof.
  intros Horder [_ Hseries] Hlen_up Hlen_down Hrise Hfall Hvol.
  assert (Hup : price_series rising /\ price_series falling).
  { rewrite List.Forall_forall in Hseries.
    destruct Horder as [-> | ->]; split;
      first [ apply (Hseries (up, rising)) | apply (Hseries (down, falling)) ];
      cbn; auto. }
  destruct Hup as [Hup Hdown].
  destruct (rising_annual_return rising Hup) as (ra & Hra & Hra_pos);
    [lia | exact Hrise |].
  destruct (falling_annual_return falling Hdown) as (rb & Hrb & Hrb_neg);
    [lia | exact Hfall |].
  destruct (volatility_some rising (proj2 Hup) Hlen_up) as (va & Hva & Hva0).
  destruct (volatility_some falling (proj2 Hdown) Hlen_down) as (vb & Hvb & Hvb0).
  rewrite Hva, Hvb in Hvol. cbn [cell_le] in Hvol.
  pose proof (sharpe_value rising ra va Hra Hva) as Hsa.
  pose proof (sharpe_value falling rb vb Hrb Hvb) as Hsb.
  destruct (drawdown rising) as [da |] eqn:Hda;
    [| exfalso; exact (drawdown_some rising Hup Hda)].
  destruct (drawdown falling) as [db |] eqn:Hdb;
    [| exfalso; exact (drawdown_some falling Hdown Hdb)].
  set (sa := if Py.ltb 0 va then (ra - risk_free_rate) / va else 0) in *.
  set (sb := if Py.ltb 0 vb then (rb - risk_free_rate) / vb else 0) in *.
  assert (Fup : has_features rising ra va sa da) by (repeat split; assumption).
  assert (Fdown : has_features falling rb vb sb db) by (repeat split; assumption).
  pose proof (higher_return_lower_risk_wins (weights_for risk_profile)
                ra va sa da rb vb sb db (weights_for_cases risk_profile)) as Hwin.
  assert (Hlt : pair_score (weights_for risk_profile) rb vb sb db ra va sa da
                < pair_score (weights_for risk_profile) ra va sa da rb vb sb db).
  { apply Hwin; [lra | exact Hvol |].
    intros E. unfold sa, sb. rewrite <- E. apply sharpe_order. lra. }
  destruct Horder as [-> | ->].
  - rewrite (rank_two _ _ _ _ _ _ _ _ _ _ _ _ _ Fup Fdown)
      by (apply Hup || apply Hdown).
    assert (Hle : Py.leb
              (pair_score (weights_for risk_profile) rb vb sb db ra va sa da)
              (pair_score (weights_for risk_profile) ra va sa da rb vb sb db)
            = true) by (apply leb_true; lra).
    rewrite Hle. reflexivity.
  - rewrite (rank_two _ _ _ _ _ _ _ _ _ _ _ _ _ Fdown Fup)
      by (apply Hup || apply Hdown).
    assert (Hle : Py.leb
              (pair_score (weights_for risk_profile) ra va sa da rb vb sb db)
              (pair_score (weights_for risk_profile) rb vb sb db ra va sa da)
            = false) by (apply leb_false; lra).
    rewrite Hle. reflexivity.
Qed.

(** *** Series of three closes *)

Lemma three_closes_returns (p q r : R) :
  0 < p -> 0 < q -> 0 < r ->
  daily_returns [p; q; r] = [q / p - 1; r / q - 1].
Proof.
  intros Hp Hq Hr. rewrite daily_returns_series by (repeat constructor; lra).
  reflexivity.
Qed.

Lemma three_closes_annual_return (p q r : R) :
  0 < p -> 0 < q -> 0 < r ->
  annual_return [p; q; r]
  = Some ((1 + ((q / p - 1) + (r / q - 1)) / 2) ^ 252 - 1).
Proof.
  intros Hp Hq Hr. unfold annual_return.
  rewrite three_closes_returns by assumption.
  cbn [mean series_sum fold_right length cell_map INR].
  do 3 f_equal. lra.
Qed.

Lemma three_closes_volatility (p q r : R) :
  0 < p -> 0 < q -> 0 < r ->
  volatility [p; q; r]
  = Some (sqrt (((r / q - q / p) / 2) ^ 2 * 2) * sqrt 252).
Proof.
  intros Hp Hq Hr. unfold volatility, std.
  rewrite three_closes_returns by assumption.
  cbn [mean series_sum fold_right length cell_map INR Nat.leb map].
  do 3 f_equal. field. lra.
Qed.

(** Closes in geometric progression have no volatility. *)
Lemma steady_volatility (p q r : R) :
  0 < p -> 0 < q -> 0 < r -> r / q = q / p ->
  volatility [p; q; r] = Some 0.
Proof.
  intros Hp Hq Hr Hsteady. rewrite three_closes_volatility by assumption.
  rewrite Hsteady. f_equal.
  replace (((q / p - q / p) / 2) ^ 2 * 2) with 0 by lra.
  rewrite sqrt_0. lra.
Qed.

Lemma unsteady_volatility (p q r : R) :
  0 < p -> 0 < q -> 0 < r -> r / q <> q / p ->
  exists v, volatility [p; q; r] = Some v /\ 0 < v.
Proof.
  intros Hp Hq Hr Hdiff. rewrite three_closes_volatility by assumption.
  eexists. split; [reflexivity |].
  apply Rmult_lt_0_compat; apply sqrt_lt_R0; [| lra].
  apply Rmult_lt_0_compat; [| lra].
  assert (Hx : (r / q - q / p) / 2 <> 0) by lra.
  pose proof (pow2_ge_0 ((r / q - q / p) / 2)).
  pose proof (pow_nonzero _ 2 Hx). lra.
Qed.

Lemma three_closes_drawdown (p q r : R) :
  0 < p -> 0 < q -> 0 < r ->
  drawdown [p; q; r]
  = Some (Rmin (Rmin (p / p - 1) (q / Rmax p q - 1))
               (r / Rmax (Rmax p q) r - 1)).
Proof.
  intros Hp Hq Hr. unfold drawdown.
  cbn [cummax cummax_from combine map fst snd].
  assert (0 < Rmax p q) by (pose proof (Rmax_l p q); lra).
  assert (0 < Rmax (Rmax p q) r) by (pose proof (Rmax_l (Rmax p q) r); lra).
  rewrite !cell_div_nonzero by lra. reflexivity.
Qed.

(** *** A slow rise against a steady fall *)

(** The features of the closes 100000, 100001, 100003: a return below the
    risk-free rate, some volatility, hence a negative Sharpe ratio, and no
    drawdown. *)
Lemma slow_rise_features :
  exists r v s,
    has_features [100000; 100001; 100003] r v s 0
    /\ 0 < r /\ 0 < v /\ s < 0.
Proof.
  destruct (unsteady_volatility 100000 100001 100003) as (v & Hv & Hv0);
    try lra.
  pose proof (three_closes_annual_return 100000 100001 100003) as Hr.
  set (m := ((100001 / 100000 - 1) + (100003 / 100001 - 1)) / 2) in Hr.
  assert (Hm : 0 < m <= 2 / 100000) by (unfold m; lra).
  assert (Hlow : 1 < (1 + m) ^ 252) by (apply Rlt_pow_R1; [lra | lia]).
  assert (Hhigh : (1 + m) ^ 252 < 1 + risk_free_rate).
  { apply Rle_lt_trans with ((1 + 2 / 100000) ^ 252).
    - apply pow_incr. lra.
    - unfold risk_free_rate. lra. }
  pose proof (sharpe_value _ _ _ (Hr ltac:(lra) ltac:(lra) ltac:(lra)) Hv) as Hs.
  apply ltb_true in Hv0 as Hpos. rewrite Hpos in Hs.
  eexists _, v, _. split; [| split; [| split]].
  - split; [apply Hr; lra |]. split; [exact Hv |]. split; [exact Hs |].
    rewrite three_closes_drawdown by lra.
    rewrite (Rmax_right 100000 100001), (Rmax_right 100001 100003) by lra.
    f_equal. unfold Rmin. repeat destruct (Rle_dec _ _); lra.
  - lra.
  - exact Hv0.
  - apply Rmult_lt_reg_r with v; [exact Hv0 |].
    unfold Rdiv. rewrite Rmult_assoc, Rinv_l by lra. lra.
Qed.

(** The features of the closes 4, 2, 1: a negative return, no volatility,
    hence a zero Sharpe ratio, and a drawdown of three quarters. *)
Lemma steady_fall_features :
  exists r, has_features [4; 2; 1] r 0 0 (-3 / 4) /\ r < 0.
Proof.
  destruct (falling_annual_return [4; 2; 1]) as (r & Hr & Hneg).
  { split; [discriminate | repeat constructor; lra]. }
  { cbn. lia. }
  { cbn. lra. }
  pose proof (steady_volatility 4 2 1) as Hv.
  pose proof (sharpe_value _ _ _ Hr (Hv ltac:(lra) ltac:(lra) ltac:(lra) ltac:(lra)))
    as Hs.
  assert (Hz : Py.ltb 0 0 = false) by (apply ltb_false; lra).
  rewrite Hz in Hs.
  exists r. split; [| exact Hneg].
  split; [exact Hr |]. split; [apply Hv; lra |]. split; [exact Hs |].
  rewrite three_closes_drawdown by lra.
  rewrite (Rmax_left 4 2), (Rmax_left 4 1) by lra.
  f_equal. unfold Rmin. repeat destruct (Rle_dec _ _); lra.
Qed.

(** C4, at an explicit input: a slowly rising series against a steadily
    falling one.  The falling instrument wins on volatility, Sharpe ratio
    and (inverted) drawdown, and is ranked first under all three risk
    profiles. *)
Lemma falling_series_ranked_first :
  simple_ml_recommendation
    [("UP", [100000; 100001; 100003]); ("DOWN", [4; 2; 1])] "Conservative"
  = Ok ["DOWN"; "UP"]
  /\ simple_ml_recommendation
       [("UP", [100000; 100001; 100003]); ("DOWN", [4; 2; 1])] "Moderate"
     = Ok ["DOWN"; "UP"]
  /\ simple_ml_recommendation
       [("UP", [100000; 100001; 100003]); ("DOWN", [4; 2; 1])] "Aggressive"
     = Ok ["DOWN"; "UP"].
Proof.
  destruct slow_rise_features as (ra & va & sa & Fup & Hra & Hva & Hsa).
  destruct steady_fall_features as (rb & Fdown & Hrb).
  assert (Hrank : forall risk_profile,
            weights_for risk_profile = conservative_weights
            \/ weights_for risk_profile = moderate_weights
            \/ weights_for risk_profile = aggressive_weights ->
            simple_ml_recommendation
              [("UP", [100000; 100001; 100003]); ("DOWN", [4; 2; 1])] risk_profile
            = Ok ["DOWN"; "UP"]).
  { intros risk_profile Hw.
    rewrite (rank_two _ _ _ _ _ _ _ _ _ _ _ _ _ Fup Fdown) by discriminate.
    assert (Hlt : pair_score (weights_for risk_profile) ra va sa 0 rb 0 0 (-3 / 4)
                  < pair_score (weights_for risk_profile) rb 0 0 (-3 / 4) ra va sa 0).
    { unfold pair_score.
      rewrite (pair_norm_gt ra rb), (pair_norm_le rb ra) by lra.
      rewrite (pair_norm_gt va 0), (pair_norm_le 0 va) by lra.
      rewrite (pair_norm_le sa 0), (pair_norm_gt 0 sa) by lra.
      rewrite (pair_norm_gt 0 (-3 / 4)), (pair_norm_le (-3 / 4) 0) by lra.
      destruct Hw as [-> | [-> | ->]];
        cbn [w_return w_volatility w_sharpe w_max_dd conservative_weights
             moderate_weights aggressive_weights]; lra. }
    apply leb_false in Hlt. rewrite Hlt. reflexivity. }
  repeat split; apply Hrank.
  - left. apply weights_for_conservative.
  - right; left. apply weights_for_moderate.
  - right; right. apply weights_for_aggressive.
Qed.

Lemma rising_series_ranked_first_witness :
  simple_ml_recommendation [("DOWN", [4; 2; 1]); ("UP", [1; 2; 4])] "Conservative"
  = Ok ["UP"; "DOWN"].
Proof.
  apply (rising_series_ranked_first "Conservative" "UP" "DOWN" [1; 2; 4] [4; 2; 1]).
  - right. reflexivity.
  - split.
    + cbn. repeat constructor; cbn; intuition discriminate.
    + repeat constructor; cbn; try discriminate; lra.
  - cbn. lia.
  - cbn. lia.
  - cbn. lra.
  - cbn. lra.
  - rewrite !steady_volatility by lra. cbn. lra.
Defined.

(** * Further properties of the valuation engine *)

Lemma pow_int_negative (b : R) (n : Z) :
  (n < 0)%Z -> b <> 0 -> pow_int b n = Ok (/ (b ^ Z.to_nat (- n))).
Proof.
  intros Hn Hb. unfold pow_int.
  destruct (Z.leb_spec 0 n) as [Hle | _]; [lia |].
  apply eqb_false in Hb. rewrite Hb. reflexivity.
Qed.


(** A goal keeps its value when there is no inflation, whatever the number
    of years, and when no year passes, whatever the inflation. *)
Theorem future_value_unchanged (present_value rate : R) (years : Z) :
  calculate_future_value present_value 0 years = Ok present_value
  /\ calculate_future_value present_value rate 0 = Ok present_value.
Proof.
  unfold calculate_future_value. split.
  - destruct (Z_lt_le_dec years 0) as [Hneg | Hpos].
    + rewrite pow_int_negative by (lia || lra). cbn [Py.bind].
      f_equal. replace (1 + 0) with 1 by lra. rewrite pow1. field.
    + rewrite pow_int_nonneg by exact Hpos. cbn [Py.bind].
      f_equal. replace (1 + 0) with 1 by lra. rewrite pow1. lra.
  - rewrite pow_int_nonneg by lia. cbn [Py.bind].
    change (Z.to_nat 0) with 0%nat. rewrite pow_O. f_equal. lra.
Qed.


(** Compounding over [a] years and then over [b] more years is compounding
    over [a + b] years. *)
Theorem future_value_composes (present_value rate : R) (a b : Z) :
  (0 <= a)%Z -> (0 <= b)%Z ->
  (try v := calculate_future_value present_value rate a in
   calculate_future_value v rate b)
  = calculate_future_value present_value rate (a + b).
Proof.
  intros Ha Hb. unfold calculate_future_value.
  rewrite !pow_int_nonneg by lia. cbn [Py.bind].
  rewrite Z2Nat.inj_add by assumption. rewrite pow_add. f_equal. lra.
Qed.

Lemma future_value_composes_witness :
  (try v := calculate_future_value 100 0.05 2 in
   calculate_future_value v 0.05 3)
  = calculate_future_value 100 0.05 (2 + 3).
Proof. apply (future_value_composes 100 0.05 2 3); lia. Defined.

Lemma one_time_value (future_value expected_return : R) (years : Z) :
  (0 < years)%Z -> 0 < expected_return ->
  calculate_one_time_investment future_value expected_return years
  = Ok (future_value / (1 + expected_return) ^ Z.to_nat years).
Proof.
  intros Hy Hr. unfold calculate_one_time_investment.
  rewrite guard_passed by assumption.
  rewrite pow_int_nonneg by lia. cbn [Py.bind].
  pose proof (one_plus_pow_pos expected_return (Z.to_nat years) Hr).
  apply div_nonzero. lra.
Qed.

Lemma one_time_degenerate (future_value expected_return : R) (years : Z) :
  (years <= 0)%Z \/ expected_return <= 0 ->
  calculate_one_time_investment future_value expected_return years
  = Ok future_value.
Proof.
  intros H. unfold calculate_one_time_investment.
  destruct H as [Hy | Hr].
  - destruct (Z.leb_spec years 0) as [_ | Hgt]; [reflexivity | lia].
  - apply leb_true in Hr. rewrite Hr, orb_true_r. reflexivity.
Qed.

(** The lump sum asked for a non-negative target is never negative and
    never more than the target, and it is strictly less than a positive
    target as soon as the rate and the years are positive. *)
Theorem one_time_investment_at_most_target
    (future_value expected_return : R) (years : Z) :
  0 <= future_value ->
  exists lump,
    calculate_one_time_investment future_value expected_return years = Ok lump
    /\ 0 <= lump <= future_value
    /\ (0 < future_value -> 0 < expected_return -> (0 < years)%Z ->
        0 < lump < future_value).
Proof.
  intros HF.
  destruct (Z_lt_le_dec 0 years) as [Hy | Hy];
    [destruct (Rlt_le_dec 0 expected_return) as [Hr | Hr] |].
  - rewrite one_time_value by assumption.
    eexists. split; [reflexivity |].
    assert (Hpow : 1 < (1 + expected_return) ^ Z.to_nat years)
      by (apply Rlt_pow_R1; [lra | lia]).
    set (d := (1 + expected_return) ^ Z.to_nat years) in *.
    assert (Hinv : 0 < / d < 1).
    { split; [apply Rinv_0_lt_compat; lra |].
      rewrite <- Rinv_1. apply Rinv_lt_contravar; lra. }
    unfold Rdiv. split; [nra |]. intros HF' _ _. nra.
  - rewrite one_time_degenerate by (right; exact Hr).
    eexists. split; [reflexivity |]. split; [lra |]. intros _ Hr'. lra.
  - rewrite one_time_degenerate by (left; exact Hy).
    eexists. split; [reflexivity |]. split; [lra |]. intros _ _ Hy'. lia.
Qed.

Lemma one_time_investment_at_most_target_witness :
  exists lump,
    calculate_one_time_investment 1000 0.12 5 = Ok lump
    /\ 0 <= lump <= 1000.
Proof.
  destruct (one_time_investment_at_most_target 1000 0.12 5) as (lump & H & B & _);
    [lra |].
  exists lump. split; assumption.
Defined.

(** The monthly rate compounds to the annual rate over twelve months. *)
Lemma twelfth_power (b : R) : 0 < b -> Rpower b (/ 12) ^ 12 = b.
Proof.
  intros Hb. rewrite <- Rpower_pow by (unfold Rpower; apply exp_pos).
  rewrite Rpower_mult.
  replace (/ 12 * INR 12) with 1 by (simpl; field).
  apply Rpower_1. exact Hb.
Qed.

Lemma monthly_rate_compounds (r : R) :
  0 < 1 + r -> (1 + monthly_rate_of r) ^ 12 = 1 + r.
Proof.
  intros H. unfold monthly_rate_of.
  replace (1 + (Rpower (1 + r) (/ 12) - 1)) with (Rpower (1 + r) (/ 12)) by lra.
  apply twelfth_power. exact H.
Qed.

Lemma bernoulli_strict (m : R) (k : nat) :
  0 < m -> (2 <= k)%nat -> 1 + INR k * m < (1 + m) ^ k.
Proof.
  intros Hm Hk. destruct k as [| [| j]]; try lia. clear Hk.
  induction j as [| j IH].
  - simpl. nra.
  - rewrite S_INR. change ((1 + m) ^ S (S (S j))) with ((1 + m) * (1 + m) ^ S (S j)).
    pose proof (pos_INR (S (S j))) as Hpos. nra.
Qed.

Lemma months_as_real (years : Z) :
  (0 <= years)%Z -> IZR (12 * years) = INR (Z.to_nat (years * 12)).
Proof.
  intros H. rewrite INR_IZR_INZ. f_equal. lia.
Qed.

(** With a positive return the contributions asked for add up to less than
    the target, interest doing the rest; without return they add up to the
    target. *)
Theorem monthly_contributions_below_target
    (future_value expected_return : R) (years : Z) :
  0 < future_value -> (0 < years)%Z ->
  exists pmt,
    calculate_monthly_investment future_value expected_return years = Ok pmt
    /\ (0 < expected_return -> pmt * IZR (12 * years) < future_value)
    /\ (expected_return <= 0 -> pmt * IZR (12 * years) = future_value).
Proof.
  intros HF Hy.
  destruct (Rlt_le_dec 0 expected_return) as [Hr | Hr].
  - pose proof (monthly_rate_pos expected_return Hr) as Hm.
    set (m := monthly_rate_of expected_return) in *.
    set (K := Z.to_nat (years * 12)).
    assert (HB : 1 + INR K * m < (1 + m) ^ K)
      by (apply bernoulli_strict; [exact Hm | unfold K; lia]).
    assert (HD : 0 < (1 + m) ^ K - 1).
    { assert (0 <= INR K) by apply pos_INR. nra. }
    exists (future_value * m / ((1 + m) ^ K - 1)). split; [| split].
    + apply monthly_annuity; try assumption. fold m K. lra.
    + intros _. rewrite months_as_real by lia. fold K.
      apply Rmult_lt_reg_r with ((1 + m) ^ K - 1); [exact HD |].
      replace (future_value * m / ((1 + m) ^ K - 1) * INR K * ((1 + m) ^ K - 1))
        with (future_value * (INR K * m)) by (field; lra).
      apply Rmult_lt_compat_l; lra.
    + intros Hr'. lra.
  - exists (future_value / IZR (years * 12)). split; [| split].
    + apply monthly_no_rate; assumption.
    + intros Hr'. lra.
    + intros _. replace (12 * years)%Z with (years * 12)%Z by lia.
      field. apply months_nonzero. exact Hy.
Qed.

Lemma monthly_contributions_below_target_witness :
  exists pmt,
    calculate_monthly_investment 1000 0.12 5 = Ok pmt
    /\ pmt * IZR (12 * 5) < 1000.
Proof.
  destruct (monthly_contributions_below_target 1000 0.12 5) as (pmt & H & Hlt & _);
    [lra | lia |].
  exists pmt. split; [exact H | apply Hlt; lra].
Defined.

(** *** The growth curve, entry by entry *)

Lemma growth_entries (initial monthly rate : R) (years : Z) :
  0 < 1 + rate ->
  calculate_investment_growth initial monthly rate years
  = map (fun k => PyFloat (balance_after (monthly_rate_of rate) monthly (12 * k) initial))
        (seq 0 (S (Z.to_nat years))).
Proof.
  intros Hrate. unfold calculate_investment_growth.
  rewrite growth_monthly_rate by exact Hrate.
  induction (Z.to_nat years) as [| n IH]; [reflexivity |].
  rewrite Nat.iter_succ. unfold year_step at 1.
  rewrite years_last, months_float, months_float, IH.
  rewrite (seq_S (S n)), map_app. cbn [map Nat.add]. do 3 f_equal.
  rewrite <- balance_after_add. f_equal. lia.
Qed.

Lemma balance_without_contributions (m : R) (k : nat) (v : R) :
  balance_after m 0 k v = v * (1 + m) ^ k.
Proof.
  induction k as [| k IH]; cbn [balance_after pow]; [lra |].
  rewrite IH. lra.
Qed.

Lemma balance_without_interest (p : R) (k : nat) (v : R) :
  balance_after 0 p k v = v + INR k * p.
Proof.
  induction k as [| k IH]; [cbn; lra |].
  rewrite S_INR. cbn [balance_after]. rewrite IH. lra.
Qed.

(** Without contributions the growth curve ends on the future value of the
    lump: twelve months at the monthly rate are one year at the annual
    rate. *)
Theorem growth_of_lump_is_future_value (initial rate : R) (years : Z) :
  -1 < rate -> (0 <= years)%Z ->
  exists value,
    calculate_future_value initial rate years = Ok value
    /\ List.last (calculate_investment_growth initial 0 rate years) (PyFloat 0)
       = PyFloat value.
Proof.
  intros Hrate Hy. unfold calculate_future_value.
  rewrite pow_int_nonneg by exact Hy. cbn [Py.bind].
  eexists. split; [reflexivity |].
  unfold calculate_investment_growth.
  rewrite growth_monthly_rate by lra.
  rewrite years_last, months_float, balance_without_contributions.
  rewrite pow_mult, monthly_rate_compounds by lra. reflexivity.
Qed.

Lemma growth_of_lump_is_future_value_witness :
  exists value,
    calculate_future_value 1000 0.12 5 = Ok value
    /\ List.last (calculate_investment_growth 1000 0 0.12 5) (PyFloat 0)
       = PyFloat value.
Proof. apply (growth_of_lump_is_future_value 1000 0.12 5); [lra | lia]. Defined.

Lemma years_keep_prefix (mr : num) (p : R) (n : nat) (values : list num) :
  firstn (length values) (Nat.iter n (year_step mr p) values) = values.
Proof.
  induction n as [| n IH]; [apply firstn_all |].
  rewrite Nat.iter_succ. unfold year_step at 1.
  rewrite firstn_app, IH.
  replace (length values - length (Nat.iter n (year_step mr p) values))%nat
    with 0%nat by (rewrite years_length; lia).
  apply app_nil_r.
Qed.

(** A longer horizon leaves the balances of the earlier years as they
    are: the curve over [n] years is the beginning of the curve over
    [m >= n] years. *)
Theorem growth_prefix (initial monthly rate : R) (n m : Z) :
  (0 <= n <= m)%Z ->
  firstn (S (Z.to_nat n)) (calculate_investment_growth initial monthly rate m)
  = calculate_investment_growth initial monthly rate n.
Proof.
  intros Hnm.
  rewrite <- (growth_length initial monthly rate n).
  unfold calculate_investment_growth.
  replace (Z.to_nat m) with (Z.to_nat (m - n) + Z.to_nat n)%nat by lia.
  rewrite Nat.iter_add. apply years_keep_prefix.
Qed.

Lemma growth_prefix_witness :
  firstn (S (Z.to_nat 2)) (calculate_investment_growth 100 10 0.12 5)
  = calculate_investment_growth 100 10 0.12 2.
Proof. apply (growth_prefix 100 10 0.12 2 5). lia. Defined.

(** At a zero rate the balance of year [k] is the lump plus the [12 k]
    contributions made so far. *)
Theorem growth_without_interest (initial monthly : R) (years : Z) :
  calculate_investment_growth initial monthly 0 years
  = map (fun k => PyFloat (initial + INR (12 * k) * monthly))
        (seq 0 (S (Z.to_nat years))).
Proof.
  rewrite growth_entries by lra.
  assert (Hm : monthly_rate_of 0 = 0).
  { unfold monthly_rate_of, Rpower.
    replace (1 + 0) with 1 by lra. rewrite ln_1, Rmult_0_r, exp_0. lra. }
  rewrite Hm. apply map_ext. intros k.
  rewrite balance_without_interest. reflexivity.
Qed.

Lemma balance_grows (m p : R) (k : nat) (v : R) :
  0 <= m -> 0 <= p -> 0 <= v ->
  v <= balance_after m p k v /\ balance_after m p k v <= balance_after m p (S k) v.
Proof.
  intros Hm Hp Hv. induction k as [| k [IH1 IH2]].
  - cbn [balance_after]. split; nra.
  - split; [lra |]. cbn [balance_after] in *. nra.
Qed.

Lemma balance_monotone (m p : R) (j k : nat) (v : R) :
  0 <= m -> 0 <= p -> 0 <= v -> (j <= k)%nat ->
  balance_after m p j v <= balance_after m p k v.
Proof.
  intros Hm Hp Hv Hjk. induction Hjk as [| k _ IH]; [lra |].
  destruct (balance_grows m p k v Hm Hp Hv) as [_ H]. lra.
Qed.

Lemma sorted_map_seq (f : nat -> R) (a n : nat) :
  (forall i j, (i <= j)%nat -> f i <= f j) ->
  StronglySorted Rle (map f (seq a n)).
Proof.
  intros Hf. revert a. induction n as [| n IH]; intros a; [constructor |].
  cbn [seq map]. constructor; [apply IH |].
  apply List.Forall_forall. intros y Hy.
  apply in_map_iff in Hy as (i & <- & Hi). apply in_seq in Hi.
  apply Hf. lia.
Qed.

(** With a non-negative rate, contribution and lump the balances are
    floats that never decrease from one year to the next. *)
Theorem growth_never_decreases (initial monthly rate : R) (years : Z) :
  0 <= rate -> 0 <= monthly -> 0 <= initial ->
  exists balances,
    calculate_investment_growth initial monthly rate years
    = map PyFloat balances
    /\ StronglySorted Rle balances
    /\ Forall (fun b => initial <= b) balances.
Proof.
  intros Hr Hp Hv.
  assert (Hm : 0 <= monthly_rate_of rate).
  { destruct Hr as [Hr | <-]; [left; apply monthly_rate_pos; exact Hr |].
    unfold monthly_rate_of, Rpower.
    replace (1 + 0) with 1 by lra. rewrite ln_1, Rmult_0_r, exp_0. lra. }
  exists (map (fun k => balance_after (monthly_rate_of rate) monthly (12 * k) initial)
              (seq 0 (S (Z.to_nat years)))).
  split; [| split].
  - rewrite growth_entries by lra. rewrite map_map. reflexivity.
  - apply sorted_map_seq. intros i j Hij.
    apply balance_monotone; try assumption. lia.
  - apply List.Forall_forall. intros b Hb.
    apply in_map_iff in Hb as (k & <- & _).
    apply balance_grows; assumption.
Qed.

Lemma growth_never_decreases_witness :
  exists balances,
    calculate_investment_growth 1000 100 0.12 5 = map PyFloat balances
    /\ StronglySorted Rle balances.
Proof.
  destruct (growth_never_decreases 1000 100 0.12 5) as (bs & H & Hs & _);
    try lra.
  exists bs. split; assumption.
Defined.

(** [calculate_roi] always returns; the percentage is 0 when nothing was
    invested, and otherwise the final value is the amount invested grown
    by that percentage. *)
Theorem roi_recovers_final_value (total_invested final_value : R) :
  exists roi,
    calculate_roi total_invested final_value = Ok roi
    /\ (total_invested = 0 -> roi = 0)
    /\ (total_invested <> 0 ->
        total_invested * (1 + roi / 100) = final_value).
Proof.
  unfold calculate_roi.
  destruct (Py.eqb total_invested 0) eqn:Ht.
  - apply eqb_true in Ht. exists 0. split; [reflexivity |].
    split; [reflexivity |]. intros H. contradiction.
  - apply eqb_false in Ht. rewrite div_nonzero by exact Ht. cbn [Py.bind].
    eexists. split; [reflexivity |]. split; [intros H; contradiction |].
    intros _. field. exact Ht.
Qed.

(** Whatever the profile and the amount, the allocation is made of the
    three classes Equity, Debt and Gold, with positive shares that add up
    to one. *)
Theorem asset_allocation_is_a_partition (risk_profile : string) (amount : R) :
  map fst (calculate_asset_allocation risk_profile amount)
  = ["Equity"; "Debt"; "Gold"]
  /\ Forall (fun share => 0 < snd share)
            (calculate_asset_allocation risk_profile amount)
  /\ series_sum (map snd (calculate_asset_allocation risk_profile amount)) = 1.
Proof.
  unfold calculate_asset_allocation.
  destruct (String.eqb risk_profile "Conservative");
    [| destruct (String.eqb risk_profile "Moderate");
       [| destruct (String.eqb risk_profile "Aggressive")]];
    (split; [reflexivity |]; split;
     [repeat constructor; cbn [snd]; lra
     | cbn [map snd series_sum fold_right]; lra]).
Qed.

(** * Further properties of the portfolio helpers *)

Lemma sum_repeat (x : R) (n : nat) : series_sum (repeat x n) = INR n * x.
Proof.
  induction n as [| n IH]; [cbn; lra |].
  rewrite S_INR. cbn [repeat series_sum fold_right].
  fold (series_sum (repeat x n)). rewrite IH. lra.
Qed.

(** [get_portfolio_weights] gives one weight per ticker, all equal, that
    add up to one; for no ticker it gives the empty list. *)
Theorem portfolio_weights_are_equal_shares
    (tickers : list string) (risk_profile : string) :
  let weights := weights_values (get_portfolio_weights tickers risk_profile) in
  length weights = length tickers
  /\ Forall (fun w => w = 1 / INR (length tickers)) weights
  /\ (tickers <> [] -> series_sum weights = 1)
  /\ (tickers = [] -> get_portfolio_weights tickers risk_profile = WeightList []).
Proof.
  unfold get_portfolio_weights.
  destruct tickers as [| t rest].
  - cbn. repeat split; try constructor. intros H. contradiction.
  - cbn [length Nat.eqb weights_values]. cbv zeta.
    repeat split.
    + apply repeat_length.
    + apply List.Forall_forall. intros w Hw.
      apply repeat_spec in Hw. exact Hw.
    + intros _. rewrite sum_repeat. field.
      apply not_0_INR. discriminate.
    + discriminate.
Qed.

(** The weights of [get_portfolio_weights] handed to
    [calculate_portfolio_metrics]: no ticker gives the zero metrics, one
    ticker the placeholder metrics, and two tickers or more raise
    [ValueError], because the truth value of an array of several elements
    is asked for. *)
Theorem portfolio_metrics_of_equal_weights
    (tickers : list string) (risk_profile : string) :
  calculate_portfolio_metrics tickers (get_portfolio_weights tickers risk_profile)
  = match tickers with
    | [] => Ok no_metrics
    | [_] => Ok placeholder_metrics
    | _ :: _ :: _ => Raise ValueError
    end.
Proof.
  destruct tickers as [| t1 [| t2 rest]]; [reflexivity | | reflexivity].
  unfold get_portfolio_weights, calculate_portfolio_metrics.
  cbn [length Nat.eqb repeat weights_truth Py.bind INR weights_values].
  assert (H : Py.eqb (1 / 1) 0 = false) by (apply eqb_false; lra).
  rewrite H. reflexivity.
Qed.

(** With a Python list of weights [calculate_portfolio_metrics] never
    raises: it gives the placeholder metrics when the tickers are as many
    as the weights and at least one, and the zero metrics otherwise. *)
Theorem portfolio_metrics_of_list (tickers : list string) (weights : list R) :
  calculate_portfolio_metrics tickers (WeightList weights)
  = if (negb (length tickers =? 0)%nat
        && (length tickers =? length weights)%nat)%bool
    then Ok placeholder_metrics else Ok no_metrics.
Proof.
  destruct tickers as [| t rest]; [reflexivity |].
  destruct weights as [| w ws]; [reflexivity |].
  unfold calculate_portfolio_metrics.
  cbn [weights_truth Py.bind negb weights_values length Nat.eqb andb].
  destruct (length rest =? length ws)%nat; reflexivity.
Qed.

(** * Further properties of the recommendation tables *)

Lemma recommend_stocks_cases (risk_profile goal_type : string) (amount : R) :
  Stocks.recommend_stocks risk_profile goal_type amount
    = Stocks.recommend_stocks "Conservative" goal_type amount
  \/ Stocks.recommend_stocks risk_profile goal_type amount
    = Stocks.recommend_stocks "Moderate" goal_type amount
  \/ Stocks.recommend_stocks risk_profile goal_type amount
    = Stocks.recommend_stocks "Aggressive" goal_type amount.
Proof.
  destruct (decide (risk_profile = "Conservative")) as [-> | Hc]; [left; reflexivity |].
  destruct (decide (risk_profile = "Moderate")) as [-> | Hm]; [right; left; reflexivity |].
  destruct (decide (risk_profile = "Aggressive")) as [-> | Ha]; [right; right; reflexivity |].
  right; left. unfold Stocks.recommend_stocks, Stocks.effective_profile.
  rewrite unknown_stock_mapping by assumption. reflexivity.
Qed.

Lemma recommend_mutual_funds_cases (risk_profile goal_type : string) (amount : R) :
  Funds.recommend_mutual_funds risk_profile goal_type amount
    = Funds.recommend_mutual_funds "Conservative" goal_type amount
  \/ Funds.recommend_mutual_funds risk_profile goal_type amount
    = Funds.recommend_mutual_funds "Moderate" goal_type amount
  \/ Funds.recommend_mutual_funds risk_profile goal_type amount
    = Funds.recommend_mutual_funds "Aggressive" goal_type amount.
Proof.
  destruct (decide (risk_profile = "Conservative")) as [-> | Hc]; [left; reflexivity |].
  destruct (decide (risk_profile = "Moderate")) as [-> | Hm]; [right; left; reflexivity |].
  destruct (decide (risk_profile = "Aggressive")) as [-> | Ha]; [right; right; reflexivity |].
  right; left. unfold Funds.recommend_mutual_funds.
  rewrite unknown_mf_universe by assumption. reflexivity.
Qed.

(** For every profile, goal and amount the ten recommended instruments,
    five stocks and five funds, are pairwise distinct. *)
Theorem recommendations_are_distinct
    (risk_profile goal_type : string) (amount : R) :
  List.NoDup (Stocks.recommend_stocks risk_profile goal_type amount
              ++ Funds.recommend_mutual_funds risk_profile goal_type amount).
Proof.
  destruct (recommend_stocks_cases risk_profile goal_type amount)
    as [-> | [-> | ->]];
    destruct (recommend_mutual_funds_cases risk_profile goal_type amount)
      as [-> | [-> | ->]];
    apply NoDup_ListNoDup; apply (bool_decide_unpack _); vm_compute; exact I.
Qed.

(** * Properties of the data fetcher *)

Lemma ends_with_spec (suffix s : string) :
  ends_with suffix s = true <-> exists pre, s = (pre ++ suffix)%string.
Proof.
  split.
  - induction s as [| c s IH]; cbn [ends_with].
    + destruct (String.eqb_spec EmptyString suffix) as [<- | _]; [| discriminate].
      intros _. exists EmptyString. reflexivity.
    + destruct (String.eqb_spec (String c s) suffix) as [<- | _].
      * intros _. exists EmptyString. reflexivity.
      * intros H. destruct (IH H) as [pre ->].
        exists (String c pre). reflexivity.
  - intros [pre ->]. induction pre as [| c pre IH].
    + change (EmptyString ++ suffix)%string with suffix.
      destruct suffix as [| a suffix]; [reflexivity |].
      unfold ends_with. rewrite String.eqb_refl. reflexivity.
    + change (String c pre ++ suffix)%string
        with (String c (pre ++ suffix)%string).
      cbn [ends_with]. rewrite IH.
      destruct (String.eqb (String c (pre ++ suffix)) suffix); reflexivity.
Qed.

(** The ticker looked up always names an exchange, a ticker that names one
    is looked up as it is, and so the normalization is idempotent: a
    stock fetched under its normalized ticker is the stock fetched under
    the ticker itself. *)
Theorem exchange_ticker_idempotent (ticker : string) :
  (exists pre, exchange_ticker ticker = (pre ++ ".NS")%string
               \/ exchange_ticker ticker = (pre ++ ".BO")%string)
  /\ exchange_ticker (exchange_ticker ticker) = exchange_ticker ticker
  /\ (forall download,
        fetch_stock_data download (exchange_ticker ticker)
        = fetch_stock_data download ticker).
Proof.
  assert (Hsuffix : (ends_with ".NS" (exchange_ticker ticker)
                     || ends_with ".BO" (exchange_ticker ticker))%bool = true).
  { unfold exchange_ticker.
    destruct (ends_with ".NS" ticker || ends_with ".BO" ticker)%bool eqn:E;
      [exact E |].
    apply orb_true_intro. left. apply ends_with_spec. exists ticker. reflexivity. }
  assert (Hidem : exchange_ticker (exchange_ticker ticker) = exchange_ticker ticker).
  { unfold exchange_ticker at 1. rewrite Hsuffix. reflexivity. }
  split; [| split].
  - apply orb_prop in Hsuffix as [H | H]; apply ends_with_spec in H as [pre H];
      exists pre; [left | right]; exact H.
  - exact Hidem.
  - intros download. unfold fetch_stock_data. rewrite Hidem. reflexivity.
Qed.

(** * Further properties of the ranking engine *)





(** A mapping of one instrument with any price series, even one too
    short for its features to be numbers, is ranked as that instrument. *)
Theorem lone_instrument_is_ranked
    (ticker : string) (data : frame) (risk_profile : string) :
  price_series data ->
  simple_ml_recommendation [(ticker, data)] risk_profile = Ok [ticker].
Proof.
  intros [Hne _].
  rewrite ml_recommendation_ok by (repeat constructor; exact Hne).
  cbn [map fst snd]. unfold sort_values_desc.
  destruct (score_of _ _ _) as [s |]; reflexivity.
Qed.

Lemma lone_instrument_is_ranked_witness :
  simple_ml_recommendation [("A", [7])] "Aggressive" = Ok ["A"].
Proof.
  apply (lone_instrument_is_ranked "A" [7] "Aggressive").
  split; [discriminate | repeat constructor; lra].
Defined.

(** The Sharpe ratio of a frame is always a number: the division is
    guarded by the test on the volatility, which is false on NaN. *)
Theorem sharpe_is_a_number (data : frame) : exists s, sharpe data = Some s.
Proof.
  unfold sharpe, volatility, annual_return, std.
  destruct (mean (daily_returns data)) as [avg |]; cbn [cell_map].
  - destruct (length (daily_returns data) <=? 1)%nat; cbn [cell_map].
    + eexists. reflexivity.
    + destruct (Py.ltb 0 _); eexists; reflexivity.
  - eexists. reflexivity.
Qed.

(** *** The order of the ranking *)

(** The ranking of a dict of price series follows the scores: the
    instruments with a score come first, from the highest score to the
    lowest, and those without a score (NaN) come last. *)
Theorem ranking_follows_scores
    (historical_data : list (string * frame)) (risk_profile : string) :
  price_history historical_data ->
  exists (rows : list row) (sorted : list (string * R)),
    score_table historical_data risk_profile = Ok rows
    /\ simple_ml_recommendation historical_data risk_profile
       = Ok (map fst sorted ++ unscored rows)
    /\ Permutation sorted (scored rows)
    /\ StronglySorted (fun a b => snd b <= snd a) sorted.
Proof.
  intros Hall. apply price_history_nonempty in Hall.
  eexists _, (rev (argsort_asc (rev (scored _)))).
  split; [apply score_table_ok; exact Hall |].
  split; [apply ml_recommendation_ok; exact Hall |].
  split.
  - rewrite <- Permutation_rev, argsort_asc_perm, <- Permutation_rev. reflexivity.
  - apply (sorted_rev (fun a b : string * R => snd a <= snd b)).
    apply argsort_asc_sorted.
Qed.

Lemma ranking_follows_scores_witness :
  exists (rows : list row) (sorted : list (string * R)),
    score_table [("A", [1; 2; 4]); ("B", [4; 2; 1])] "Moderate" = Ok rows
    /\ simple_ml_recommendation [("A", [1; 2; 4]); ("B", [4; 2; 1])] "Moderate"
       = Ok (map fst sorted ++ unscored rows)
    /\ Permutation sorted (scored rows)
    /\ StronglySorted (fun a b => snd b <= snd a) sorted.
Proof.
  apply (ranking_follows_scores [("A", [1; 2; 4]); ("B", [4; 2; 1])] "Moderate").
  split.
  - cbn. repeat constructor; cbn; intuition discriminate.
  - repeat constructor; cbn; try discriminate; lra.
Defined.

Lemma ml_recommendation_ranks_all_witness :
  exists ranking,
    simple_ml_recommendation [("A", [1; 2; 4]); ("B", [4; 2; 1])] "Moderate"
    = Ok ranking
    /\ Permutation ranking (map fst [("A", [1; 2; 4]); ("B", [4; 2; 1])]).
Proof.
  apply (ml_recommendation_ranks_all [("A", [1; 2; 4]); ("B", [4; 2; 1])] "Moderate").
  split.
  - cbn. repeat constructor; cbn; intuition discriminate.
  - repeat constructor; cbn; try discriminate; lra.
Defined.

(** *** The range of the scores *)

Lemma scaled_member_unit (col : list cell) (c : cell) :
  Forall (fun c => c <> None) col -> In c col -> unit_cell (scaled col c).
Proof.
  intros Hcol Hin. destruct (column_of_numbers col Hcol) as [xs ->].
  apply in_map_iff in Hin as (x & <- & Hx).
  apply scaled_unit. exact Hx.
Qed.

Lemma weighted_unit (w : Weights) (a b c d : cell) :
  w = conservative_weights \/ w = moderate_weights \/ w = aggressive_weights ->
  unit_cell a -> unit_cell b -> unit_cell c -> unit_cell d ->
  unit_cell
    (cell_map2 Rplus
      (cell_map2 Rplus
        (cell_map2 Rplus
          (cell_map (Rmult (w_return w)) a)
          (cell_map (Rmult (w_volatility w)) (cell_map (fun y => 1 - y) b)))
        (cell_map (Rmult (w_sharpe w)) c))
      (cell_map (Rmult (w_max_dd w)) (cell_map (fun y => 1 - y) d))).
Proof.
  intros Hw (x & -> & Hx) (y & -> & Hy) (z & -> & Hz) (t & -> & Ht).
  cbn [cell_map cell_map2]. eexists. split; [reflexivity |].
  destruct Hw as [-> | [-> | ->]];
    cbn [w_return w_volatility w_sharpe w_max_dd conservative_weights
         moderate_weights aggressive_weights]; lra.
Qed.

(** When every series has at least three closes, all positive, every
    instrument gets a score, and the score is a number of [0, 1], under
    every risk profile. *)
Theorem scores_in_unit_interval
    (historical_data : list (string * frame)) (risk_profile : string) :
  price_history historical_data ->
  Forall (fun item => (3 <= length (snd item))%nat) historical_data ->
  exists rows,
    score_table historical_data risk_profile = Ok rows
    /\ map fst rows = map fst historical_data
    /\ Forall (fun r => unit_cell (snd r)) rows.
Proof.
  intros Hhist Hlen.
  pose proof (price_history_nonempty _ Hhist) as Hne.
  destruct Hhist as [_ Hseries].
  destruct (features_are_numbers (map snd historical_data))
    as (Hr & Hv & Hs & Hd).
  { rewrite List.Forall_map. exact Hseries. }
  { rewrite List.Forall_map. exact Hlen. }
  eexists. split; [apply score_table_ok; exact Hne |].
  split; [rewrite map_map; reflexivity |].
  rewrite List.Forall_map. apply List.Forall_forall. intros [ticker data] Hin.
  cbn [fst snd]. unfold score_of.
  assert (Hdata : In data (map snd historical_data)).
  { apply in_map_iff. exists (ticker, data). split; [reflexivity | exact Hin]. }
  apply weighted_unit; [apply weights_for_cases | | | |];
    apply scaled_member_unit; try assumption;
    apply in_map; exact Hdata.
Qed.

Lemma scores_in_unit_interval_witness :
  exists rows,
    score_table [("A", [1; 2; 4]); ("B", [4; 2; 1])] "Moderate" = Ok rows
    /\ map fst rows = map fst [("A", [1; 2; 4]); ("B", [4; 2; 1])]
    /\ Forall (fun r => unit_cell (snd r)) rows.
Proof.
  apply (scores_in_unit_interval [("A", [1; 2; 4]); ("B", [4; 2; 1])] "Moderate").
  - split.
    + cbn. repeat constructor; cbn; intuition discriminate.
    + repeat constructor; cbn; try discriminate; lra.
  - repeat constructor; cbn; lia.
Defined.

(** *** Instruments with one price series *)







(** *** The drawdown *)

Lemma cummax_from_covers (m : R) (close : list R) :
  Forall (fun pc => fst pc <= snd pc) (combine close (cummax_from m close)).
Proof.
  revert m. induction close as [| p rest IH]; intros m; [constructor |].
  cbn [cummax_from combine]. constructor; [cbn; apply Rmax_r | apply IH].
Qed.

Lemma cummax_covers (data : frame) :
  Forall (fun pc => fst pc <= snd pc) (combine data (cummax data)).
Proof.
  destruct data as [| p rest]; [constructor |].
  cbn [cummax combine]. constructor; [cbn; lra | apply cummax_from_covers].
Qed.

Lemma fold_min_within (lo hi : R) (l : list R) (x : R) :
  lo < x <= hi -> Forall (fun y => lo < y <= hi) l ->
  lo < fold_left Rmin l x <= hi.
Proof.
  intros Hx Hl. revert x Hx. induction Hl as [| y l Hy _ IH]; intros x Hx.
  - exact Hx.
  - cbn [fold_left]. apply IH. unfold Rmin. destruct (Rle_dec x y); lra.
Qed.

(** The drawdown of a price series is a number above -1 and at most 0. *)
Theorem drawdown_range (data : frame) :
  price_series data ->
  exists d, drawdown data = Some d /\ -1 < d <= 0.
Proof.
  intros [Hne Hpos]. unfold drawdown.
  assert (Hcells : exists ys,
            map (fun pc => cell_map (fun q => q - 1) (cell_div (fst pc) (snd pc)))
                (combine data (cummax data)) = map Some ys
            /\ Forall (fun y => -1 < y <= 0) ys
            /\ ys <> []).
  { exists (map (fun pc => fst pc / snd pc - 1) (combine data (cummax data))).
    assert (Hpairs : Forall (fun pc => 0 < fst pc <= snd pc)
                       (combine data (cummax data))).
    { apply List.Forall_forall. intros [p c] Hin. cbn [fst snd]. split.
      - apply in_combine_l in Hin.
        rewrite List.Forall_forall in Hpos. apply Hpos. exact Hin.
      - pose proof (cummax_covers data) as Hc.
        rewrite List.Forall_forall in Hc. apply (Hc (p, c) Hin). }
    split; [| split].
    - rewrite map_map. apply map_ext_in. intros [p c] Hin. cbn [fst snd].
      rewrite List.Forall_forall in Hpairs. pose proof (Hpairs _ Hin) as H.
      cbn [fst snd] in H. rewrite cell_div_nonzero by lra. reflexivity.
    - rewrite List.Forall_map. eapply List.Forall_impl; [| exact Hpairs].
      intros [p c] [Hp Hc]. cbn [fst snd] in *.
      assert (0 < p / c <= 1); [| lra].
      split; [apply Rdiv_lt_0_compat; lra |].
      apply Rmult_le_reg_r with c; [lra |].
      unfold Rdiv. rewrite Rmult_assoc, Rinv_l by lra. lra.
    - destruct data as [| p rest]; [contradiction | discriminate]. }
  destruct Hcells as (ys & -> & Hys & Hnonempty).
  unfold nanmin. rewrite dropna_some.
  destruct ys as [| y ys']; [contradiction |].
  apply List.Forall_cons_iff in Hys as [Hy Hys'].
  eexists. split; [reflexivity |]. apply fold_min_within; assumption.
Qed.

Lemma drawdown_range_witness :
  exists d, drawdown [4; 2; 1] = Some d /\ -1 < d <= 0.
Proof.
  apply (drawdown_range [4; 2; 1]).
  split; [discriminate | repeat constructor; lra].
Defined.

(** *** The unit of the prices *)

Section Rescaling.

Variable k : R.
Hypothesis k_positive : 0 < k.

Lemma cell_div_rescaled (x y : R) : cell_div (k * x) (k * y) = cell_div x y.
Proof using k_positive.
  unfold cell_div. destruct (Req_dec_T y 0) as [-> | Hy].
  - rewrite Rmult_0_r, eqb_refl. reflexivity.
  - assert (Hky : k * y <> 0) by nra.
    apply eqb_false in Hy as Hy', Hky. rewrite Hy', Hky.
    f_equal. field. lra.
Qed.

Lemma pct_change_from_rescaled (prev : R) (close : list R) :
  pct_change_from (k * prev) (map (Rmult k) close) = pct_change_from prev close.
Proof using k_positive.
  revert prev. induction close as [| p rest IH]; intros prev; [reflexivity |].
  cbn [map pct_change_from]. rewrite cell_div_rescaled, IH. reflexivity.
Qed.

Lemma daily_returns_rescaled (data : frame) :
  daily_returns (map (Rmult k) data) = daily_returns data.
Proof using k_positive.
  unfold daily_returns. destruct data as [| p rest]; [reflexivity |].
  cbn [map pct_change]. rewrite pct_change_from_rescaled. reflexivity.
Qed.

Lemma cummax_from_rescaled (m : R) (close : list R) :
  cummax_from (k * m) (map (Rmult k) close) = map (Rmult k) (cummax_from m close).
Proof using k_positive.
  revert m. induction close as [| p rest IH]; intros m; [reflexivity |].
  cbn [map cummax_from]. rewrite RmaxRmult by lra. rewrite IH. reflexivity.
Qed.

Lemma cummax_rescaled (data : frame) :
  cummax (map (Rmult k) data) = map (Rmult k) (cummax data).
Proof using k_positive.
  destruct data as [| p rest]; [reflexivity |].
  cbn [map cummax]. rewrite cummax_from_rescaled. reflexivity.
Qed.

Lemma combine_rescaled (a b : list R) :
  combine (map (Rmult k) a) (map (Rmult k) b)
  = map (fun pc => (k * fst pc, k * snd pc)) (combine a b).
Proof.
  revert b. induction a as [| x a IH]; intros [| y b]; try reflexivity.
  cbn [map combine fst snd]. rewrite IH. reflexivity.
Qed.

Lemma features_rescaled (data : frame) :
  annual_return (map (Rmult k) data) = annual_return data
  /\ volatility (map (Rmult k) data) = volatility data
  /\ sharpe (map (Rmult k) data) = sharpe data
  /\ drawdown (map (Rmult k) data) = drawdown data.
Proof using k_positive.
  assert (Ha : annual_return (map (Rmult k) data) = annual_return data).
  { unfold annual_return. rewrite daily_returns_rescaled. reflexivity. }
  assert (Hv : volatility (map (Rmult k) data) = volatility data).
  { unfold volatility. rewrite daily_returns_rescaled. reflexivity. }
  repeat split; try assumption.
  - unfold sharpe. rewrite Ha, Hv. reflexivity.
  - unfold drawdown. rewrite cummax_rescaled, combine_rescaled, map_map.
    f_equal. apply map_ext. intros [p c]. cbn [fst snd].
    rewrite cell_div_rescaled. reflexivity.
Qed.

End Rescaling.

Lemma features_step_requoted (features : Features) (item item' : string * frame) :
  requoted item item' ->
  features_step features item' = features_step features item.
Proof.
  intros (_ & k & Hk & Hdata). unfold features_step. rewrite Hdata.
  destruct (features_rescaled k Hk (snd item)) as (-> & -> & -> & ->).
  destruct (snd item); reflexivity.
Qed.

Lemma build_frame_requoted (historical_data historical_data' : list (string * frame)) :
  Forall2 requoted historical_data historical_data' ->
  build_frame historical_data' = build_frame historical_data.
Proof.
  intros H. unfold build_frame.
  assert (Htickers : map fst historical_data' = map fst historical_data).
  { induction H as [| item item' rest rest' (Hfst & _) _ IH]; [reflexivity |].
    cbn [map]. rewrite Hfst, IH. reflexivity. }
  assert (Hloop : forall acc,
            fold_left features_step historical_data' acc
            = fold_left features_step historical_data acc).
  { clear Htickers.
    induction H as [| item item' rest rest' Hitem _ IH]; intros acc; [reflexivity |].
    cbn [fold_left]. rewrite (features_step_requoted acc item item' Hitem).
    apply IH. }
  rewrite Htickers, Hloop. reflexivity.
Qed.

(** The ranking does not depend on the unit in which each instrument is
    quoted: multiplying all the closes of an instrument by a positive
    factor, one factor per instrument, leaves the result as it is,
    exception included. *)
Theorem ranking_ignores_price_units
    (historical_data historical_data' : list (string * frame))
    (risk_profile : string) :
  Forall2 requoted historical_data historical_data' ->
  simple_ml_recommendation historical_data' risk_profile
  = simple_ml_recommendation historical_data risk_profile.
Proof.
  intros H. unfold simple_ml_recommendation, score_table.
  rewrite (build_frame_requoted _ _ H).
  destruct H; reflexivity.
Qed.

Lemma ranking_ignores_price_units_witness :
  simple_ml_recommendation [("A", map (Rmult 100) [1; 2; 4])] "Moderate"
  = simple_ml_recommendation [("A", [1; 2; 4])] "Moderate".
Proof.
  apply (ranking_ignores_price_units [("A", [1; 2; 4])]).
  constructor; [| constructor].
  split; [reflexivity |]. exists 100. split; [lra | reflexivity].
Defined.

(** * Properties of the goal analysis of app.py *)

Section GoalAnalysis.

Variables (target_amount current_amount inflation_rate expected_return : R).
Variable years_to_goal : Z.

(** The bounds that the form and the sliders put on the inputs. *)
Hypothesis target_positive : 0 < target_amount.
Hypothesis savings_not_negative : 0 <= current_amount.
Hypothesis inflation_positive : 0 < inflation_rate.
Hypothesis return_positive : 0 < expected_return.
Hypothesis target_year_ahead : (1 <= years_to_goal)%Z.

Let N : nat := Z.to_nat years_to_goal.
Let goal : R := target_amount * (1 + inflation_rate) ^ N.
Let needed : R := Rmax 0 (goal - current_amount).
Let lump : R := needed / (1 + expected_return) ^ N.
Let m : R := monthly_rate_of expected_return.
Let pmt : R := needed * m / ((1 + m) ^ (12 * N) - 1).

Lemma goal_positive : 0 < goal.
Proof using target_positive inflation_positive.
  unfold goal. apply Rmult_lt_0_compat; [exact target_positive |].
  apply pow_lt. lra.
Qed.

Lemma needed_bounds : 0 <= needed /\ goal - current_amount <= needed.
Proof. unfold needed. split; [apply Rmax_l | apply Rmax_r]. Qed.

Lemma growth_factor : 1 <= (1 + expected_return) ^ N.
Proof using return_positive. apply pow_R1_Rle. lra. Qed.

Lemma annuity_denominator : 0 < (1 + m) ^ (12 * N) - 1.
Proof using return_positive target_year_ahead.
  assert (0 < m) by (apply monthly_rate_pos; exact return_positive).
  assert (1 < (1 + m) ^ (12 * N)); [| lra].
  apply Rlt_pow_R1; [lra | unfold N; lia].
Qed.

Lemma summary_value :
  App.financial_summary target_amount current_amount inflation_rate
    expected_return years_to_goal
  = Ok {| App.future_value := goal;
          App.amount_needed := needed;
          App.one_time_investment := lump;
          App.monthly_investment := pmt |}.
Proof using return_positive target_year_ahead.
  unfold App.financial_summary, calculate_future_value.
  rewrite pow_int_nonneg by lia. cbn [Py.bind]. fold N goal needed.
  rewrite one_time_value by (lia || lra). cbn [Py.bind]. fold N lump.
  pose proof annuity_denominator as HD.
  rewrite monthly_annuity;
    try (rewrite months_of_years by lia; fold N m; lra); try lia; try lra.
  cbn [Py.bind]. rewrite months_of_years by lia. reflexivity.
Qed.

Lemma lump_bounds : 0 <= lump /\ (0 < needed -> 0 < lump).
Proof using return_positive.
  pose proof growth_factor as Hg. destruct needed_bounds as [Hn _].
  unfold lump. split.
  - apply Rmult_le_pos; [exact Hn |]. left. apply Rinv_0_lt_compat. lra.
  - intros Hpos. apply Rdiv_lt_0_compat; lra.
Qed.

Lemma pmt_bounds : 0 <= pmt /\ (0 < needed -> 0 < pmt).
Proof using return_positive target_year_ahead.
  pose proof annuity_denominator as HD. destruct needed_bounds as [Hn _].
  assert (Hm : 0 < m) by (apply monthly_rate_pos; exact return_positive).
  unfold pmt. split.
  - apply Rmult_le_pos; [nra |]. left. apply Rinv_0_lt_compat. exact HD.
  - intros Hpos. apply Rdiv_lt_0_compat; [nra | exact HD].
Qed.

Lemma inflation_track (n : nat) :
  App.values_with_inflation_upto target_amount inflation_rate n
  = Ok (map (fun i => target_amount * (1 + inflation_rate) ^ i) (seq 0 n)).
Proof.
  induction n as [| n IH]; [reflexivity |].
  cbn [App.values_with_inflation_upto]. rewrite IH. cbn [Py.bind].
  unfold calculate_future_value. rewrite pow_int_nonneg by lia.
  cbn [Py.bind]. rewrite Nat2Z.id, seq_S, map_app. reflexivity.
Qed.

Lemma tracks_value (one_time monthly : R) (j : nat) :
  let tracks :=
    Nat.iter j (App.projection_step expected_return monthly)
      ([current_amount + one_time], [current_amount]) in
  length (fst tracks) = S j /\ length (snd tracks) = S j
  /\ List.last (fst tracks) 0
     = (current_amount + one_time) * (1 + expected_return) ^ j
  /\ List.last (snd tracks) 0
     = balance_after expected_return (monthly * 12) j current_amount.
Proof.
  induction j as [| j (L1 & L2 & V1 & V2)];
    [cbn; repeat split; try reflexivity; lra |].
  cbv zeta in *. rewrite Nat.iter_succ.
  set (tracks := Nat.iter j _ _) in *.
  unfold App.projection_step. cbn [fst snd].
  rewrite !length_app. do 2 rewrite last_last.
  rewrite L1, L2, V1, V2. cbn [length balance_after pow].
  repeat split; try lia. lra.
Qed.

Lemma projection_value (s : App.Summary) :
  exists p,
    App.growth_projection target_amount current_amount inflation_rate
      expected_return years_to_goal s = Ok p
    /\ List.last (App.values_with_inflation p) 0 = goal
    /\ List.last (App.one_time_values p) 0
       = (current_amount + App.one_time_investment s) * (1 + expected_return) ^ N
    /\ List.last (App.monthly_values p) 0
       = balance_after expected_return (App.monthly_investment s * 12) N
           current_amount.
Proof using target_year_ahead.
  unfold App.growth_projection.
  replace (Z.to_nat (years_to_goal + 1)) with (S N) by (unfold N; lia).
  rewrite inflation_track. cbn [Py.bind].
  replace (S N - 1)%nat with N by lia.
  destruct (tracks_value (App.one_time_investment s) (App.monthly_investment s) N)
    as (L1 & L2 & V1 & V2).
  cbv zeta in *. rewrite length_map, length_seq, L1, L2, Nat.eqb_refl.
  cbn [andb]. eexists. split; [reflexivity |].
  cbn [App.values_with_inflation App.one_time_values App.monthly_values].
  split; [| split; assumption].
  rewrite seq_S, map_app. cbn [map]. rewrite last_last. reflexivity.
Qed.

(** The value of the whole analysis. *)
Lemma analysis_value :
  exists c,
    App.goal_analysis target_amount current_amount inflation_rate
      expected_return years_to_goal = Ok c
    /\ App.final_goal_value c = goal
    /\ App.final_one_time_value c
       = (current_amount + lump) * (1 + expected_return) ^ N
    /\ App.final_monthly_value c
       = balance_after expected_return (pmt * 12) N current_amount
    /\ App.one_time_total_invested c = lump + current_amount
    /\ App.monthly_total_invested c
       = pmt * 12 * IZR years_to_goal + current_amount.
Proof using All.
  unfold App.goal_analysis. rewrite summary_value. cbn [Py.bind].
  destruct (projection_value
              {| App.future_value := goal; App.amount_needed := needed;
                 App.one_time_investment := lump;
                 App.monthly_investment := pmt |})
    as (p & -> & Vg & V1 & V2).
  cbn [Py.bind App.one_time_investment App.monthly_investment] in *.
  unfold App.returns_comparison.
  cbn [App.one_time_investment App.monthly_investment].
  pose proof goal_positive as Hgoal.
  destruct needed_bounds as [Hn0 Hn1].
  destruct lump_bounds as [Hl0 Hl1]. destruct pmt_bounds as [Hp0 Hp1].
  assert (Hy : 1 <= IZR years_to_goal) by (apply IZR_le; lia).
  assert (Hdiv1 : lump + current_amount <> 0).
  { destruct Hn0 as [Hpos | Hzero]; [specialize (Hl1 Hpos); lra | lra]. }
  assert (Hdiv2 : pmt * 12 * IZR years_to_goal + current_amount <> 0).
  { destruct Hn0 as [Hpos | Hzero]; [specialize (Hp1 Hpos); nra | nra]. }
  rewrite !div_nonzero by assumption. cbn [Py.bind].
  eexists. split; [reflexivity |].
  cbn [App.final_goal_value App.final_one_time_value App.final_monthly_value
       App.one_time_total_invested App.monthly_total_invested].
  repeat split; assumption.
Qed.

End GoalAnalysis.

(** Within the bounds of the form (a positive target, savings that are not
    negative, a target year ahead) and of the sliders (positive inflation
    and return), the analysis of a goal returns without raising, and the
    one-time track ends at or above the inflated value of the goal. *)
Theorem one_time_track_reaches_goal
    (target_amount current_amount inflation_rate expected_return : R)
    (years_to_goal : Z) :
  0 < target_amount -> 0 <= current_amount ->
  0 < inflation_rate -> 0 < expected_return -> (1 <= years_to_goal)%Z ->
  exists c,
    App.goal_analysis target_amount current_amount inflation_rate
      expected_return years_to_goal = Ok c
    /\ App.final_goal_value c <= App.final_one_time_value c.
Proof.
  intros HT Hc Hg Hr Hn.
  destruct (analysis_value target_amount current_amount inflation_rate
              expected_return years_to_goal HT Hc Hg Hr Hn)
    as (c & Hok & Vgoal & Vone & _).
  exists c. split; [exact Hok |]. rewrite Vgoal, Vone.
  pose proof (growth_factor expected_return years_to_goal Hr) as Hf.
  destruct (needed_bounds target_amount current_amount inflation_rate
              years_to_goal) as [Hn0 Hn1].
  set (f := (1 + expected_return) ^ Z.to_nat years_to_goal) in *.
  set (goal := target_amount * (1 + inflation_rate) ^ Z.to_nat years_to_goal) in *.
  set (needed := Rmax 0 (goal - current_amount)) in *.
  replace ((current_amount + needed / f) * f) with (current_amount * f + needed)
    by (field; lra).
  nra.
Qed.

Lemma one_time_track_reaches_goal_witness :
  exists c,
    App.goal_analysis 1000000 0 0.05 0.12 5 = Ok c
    /\ App.final_goal_value c <= App.final_one_time_value c.
Proof.
  apply (one_time_track_reaches_goal 1000000 0 0.05 0.12 5); lra || lia.
Defined.

(** Without savings the monthly track ends strictly below the inflated
    value of the goal: the contribution is solved for monthly compounding,
    while the track adds the twelve contributions of a year at its end,
    without interest within the year. *)
Theorem monthly_track_falls_short
    (target_amount inflation_rate expected_return : R) (years_to_goal : Z) :
  0 < target_amount -> 0 < inflation_rate -> 0 < expected_return ->
  (1 <= years_to_goal)%Z ->
  exists c,
    App.goal_analysis target_amount 0 inflation_rate expected_return
      years_to_goal = Ok c
    /\ App.final_monthly_value c
       = App.final_goal_value c
         * (12 * monthly_rate_of expected_return / expected_return)
    /\ App.final_monthly_value c < App.final_goal_value c.
Proof.
  intros HT Hg Hr Hn.
  destruct (analysis_value target_amount 0 inflation_rate
              expected_return years_to_goal HT (Rle_refl 0) Hg Hr Hn)
    as (c & Hok & Vgoal & _ & Vmonth & _).
  exists c. split; [exact Hok |]. rewrite Vgoal, Vmonth.
  pose proof (goal_positive target_amount inflation_rate years_to_goal HT Hg)
    as Hgoal.
  pose proof (monthly_rate_pos expected_return Hr) as Hm.
  pose proof (bernoulli_strict (monthly_rate_of expected_return) 12 Hm) as HB.
  rewrite monthly_rate_compounds in HB by lra.
  assert (H12 : 12 * monthly_rate_of expected_return < expected_return).
  { assert (H : INR 12 = 12) by (simpl; lra).
    specialize (HB ltac:(lia)). rewrite H in HB. lra. }
  pose proof (annuity_denominator expected_return years_to_goal Hr Hn) as HD.
  rewrite pow_mult, monthly_rate_compounds in HD |- * by lra.
  set (goal := target_amount * (1 + inflation_rate) ^ Z.to_nat years_to_goal) in *.
  rewrite Rminus_0_r, Rmax_right by lra.
  rewrite balance_after_closed by lra.
  set (f := (1 + expected_return) ^ Z.to_nat years_to_goal) in *.
  set (m := monthly_rate_of expected_return) in *.
  assert (Hvalue : 0 * f + goal * m / (f - 1) * 12 * (f - 1) / expected_return
                   = goal * (12 * m / expected_return)) by (field; lra).
  rewrite Hvalue. split; [reflexivity |].
  assert (12 * m / expected_return < 1).
  { apply Rmult_lt_reg_r with expected_return; [exact Hr |].
    unfold Rdiv. rewrite Rmult_assoc, Rinv_l by lra. lra. }
  nra.
Qed.

Lemma monthly_track_falls_short_witness :
  exists c,
    App.goal_analysis 1000000 0 0.05 0.12 5 = Ok c
    /\ App.final_monthly_value c < App.final_goal_value c.
Proof.
  destruct (monthly_track_falls_short 1000000 0.05 0.12 5) as (c & H & _ & Hlt);
    try lra; try lia.
  exists c. split; assumption.
Defined.

(** *** The allocation tables *)

Lemma sum_scaled (c : R) (l : list R) :
  series_sum (map (fun w => c * w) l) = c * series_sum l.
Proof.
  induction l as [| x l IH]; [cbn; lra |].
  cbn [map series_sum fold_right].
  fold (series_sum l). fold (series_sum (map (fun w => c * w) l)).
  rewrite IH. lra.
Qed.

Lemma equal_weights_sum (n : nat) :
  (0 < n)%nat -> series_sum (App.equal_weights n) = 1.
Proof.
  intros Hn. unfold App.equal_weights. rewrite sum_repeat.
  field. apply not_0_INR. lia.
Qed.

Lemma allocation_table_sums (recommended : list string)
    (total one_time monthly allocation : R) :
  recommended <> [] ->
  let table := App.allocation_table recommended total one_time monthly allocation in
  series_sum (App.allocation_amounts table) = total
  /\ series_sum (App.one_time_allocations table) = one_time * allocation
  /\ series_sum (App.monthly_allocations table) = monthly * allocation
  /\ length (App.allocation_amounts table) = length recommended.
Proof.
  intros Hne. destruct recommended as [| t rest]; [contradiction |].
  cbv zeta. unfold App.allocation_table.
  cbn [App.allocation_amounts App.one_time_allocations App.monthly_allocations].
  rewrite !sum_scaled, equal_weights_sum by (cbn; lia).
  repeat split; try lra.
  rewrite length_map. unfold App.equal_weights. apply repeat_length.
Qed.

Lemma stock_allocation_cases (risk_profile : string) :
  match App.stock_allocation !! risk_profile with
  | Some share =>
      In risk_profile ["Conservative"; "Moderate"; "Aggressive"]
      /\ 0 < share < 1
      /\ forall amount,
           In ("Equity", share) (calculate_asset_allocation risk_profile amount)
  | None => ~ In risk_profile ["Conservative"; "Moderate"; "Aggressive"]
  end.
Proof.
  unfold App.stock_allocation.
  destruct (decide (risk_profile = "Conservative")) as [-> | Hc].
  { table_lookup. split; [cbn; tauto |]. split; [lra |]. intros. left. reflexivity. }
  destruct (decide (risk_profile = "Moderate")) as [-> | Hm].
  { table_lookup. split; [cbn; tauto |]. split; [lra |]. intros. left. reflexivity. }
  destruct (decide (risk_profile = "Aggressive")) as [-> | Ha].
  { table_lookup. split; [cbn; tauto |]. split; [lra |]. intros. left. reflexivity. }
  table_lookup. cbn. intuition congruence.
Qed.

(** The recommendations are built for the three profiles and for no other
    (the share of stocks is read from a dict without default).  The share
    of stocks is the Equity share of [calculate_asset_allocation]; the
    totals of stocks and funds make up the amount needed; in each of the
    two tables the amounts add up to the total of the class, and over the
    two tables the one-time and the monthly investments add up to the
    investments of the summary. *)
Theorem allocations_add_up (risk_profile goal_type : string) (s : App.Summary) :
  match App.recommendations risk_profile goal_type s with
  | None => ~ In risk_profile ["Conservative"; "Moderate"; "Aggressive"]
  | Some r =>
      In risk_profile ["Conservative"; "Moderate"; "Aggressive"]
      /\ (exists equity,
            In ("Equity", equity)
               (calculate_asset_allocation risk_profile (App.amount_needed s))
            /\ App.stock_total r = App.amount_needed s * equity)
      /\ App.stock_total r + App.mf_total r = App.amount_needed s
      /\ series_sum (App.allocation_amounts (App.stocks_table r))
         = App.stock_total r
      /\ series_sum (App.allocation_amounts (App.mf_table r)) = App.mf_total r
      /\ series_sum (App.one_time_allocations (App.stocks_table r))
         + series_sum (App.one_time_allocations (App.mf_table r))
         = App.one_time_investment s
      /\ series_sum (App.monthly_allocations (App.stocks_table r))
         + series_sum (App.monthly_allocations (App.mf_table r))
         = App.monthly_investment s
  end.
Proof.
  unfold App.recommendations.
  pose proof (stock_allocation_cases risk_profile) as Hshare.
  destruct (App.stock_allocation !! risk_profile) as [share |]; [| exact Hshare].
  destruct Hshare as (Hin & Hrange & Hequity).
  cbn [App.stock_total App.mf_total App.stocks_table App.mf_table].
  assert (Hstocks : Stocks.recommend_stocks risk_profile goal_type
                      (App.amount_needed s) <> []).
  { intros E. pose proof (recommend_stocks_length risk_profile goal_type
                            (App.amount_needed s)) as L.
    rewrite E in L. discriminate. }
  assert (Hfunds : Funds.recommend_mutual_funds risk_profile goal_type
                     (App.amount_needed s) <> []).
  { intros E. pose proof (recommend_mutual_funds_length risk_profile goal_type
                            (App.amount_needed s)) as L.
    rewrite E in L. discriminate. }
  destruct (allocation_table_sums _ (App.amount_needed s * share)
              (App.one_time_investment s) (App.monthly_investment s) share Hstocks)
    as (-> & -> & -> & _).
  destruct (allocation_table_sums _ (App.amount_needed s * (1 - share))
              (App.one_time_investment s) (App.monthly_investment s)
              (1 - share) Hfunds)
    as (-> & -> & -> & _).
  split; [exact Hin |]. split; [exists share; split; [apply Hequity | reflexivity] |].
  repeat split; lra.
Qed.

(** *** A target year that is not ahead *)

(** The form asks for a target year ahead.  With a target year in the
    past the projection table cannot be built and the analysis raises
    [ValueError]; with the current year as target year and no savings, a
    return on investment is divided by a zero amount and the analysis
    raises [ZeroDivisionError]. *)
Theorem target_year_not_ahead_raises
    (target_amount current_amount inflation_rate expected_return : R)
    (years_to_goal : Z) :
  ((years_to_goal < 0)%Z -> inflation_rate <> -1 ->
   App.goal_analysis target_amount current_amount inflation_rate
     expected_return years_to_goal = Raise ValueError)
  /\ App.goal_analysis target_amount 0 inflation_rate expected_return 0
     = Raise ZeroDivisionError.
Proof.
  split.
  - intros Hy Hg. unfold App.goal_analysis, App.financial_summary.
    unfold calculate_future_value.
    rewrite pow_int_negative by (lia || lra). cbn [Py.bind].
    rewrite one_time_degenerate by (left; lia). cbn [Py.bind].
    rewrite monthly_no_years by lia. cbn [Py.bind].
    unfold App.growth_projection.
    replace (Z.to_nat (years_to_goal + 1)) with 0%nat by lia.
    reflexivity.
  - unfold App.goal_analysis, App.financial_summary.
    unfold calculate_future_value.
    rewrite pow_int_nonneg by lia. cbn [Py.bind].
    rewrite one_time_degenerate by (left; lia). cbn [Py.bind].
    rewrite monthly_no_years by lia. cbn [Py.bind].
    unfold App.growth_projection.
    change (Z.to_nat (0 + 1)) with 1%nat.
    cbn [App.values_with_inflation_upto Py.bind].
    unfold calculate_future_value.
    rewrite pow_int_nonneg by lia.
    cbn [Py.bind Nat.sub Nat.iter nat_rect fst snd length Nat.eqb andb app].
    unfold App.returns_comparison.
    cbn [App.one_time_investment App.monthly_investment App.one_time_values
         App.monthly_values App.values_with_inflation List.last].
    unfold Py.div at 1.
    destruct (Py.eqb _ 0); [reflexivity |]. cbn [Py.bind].
    unfold Py.div.
    assert (H : forall x, Py.eqb (x * 12 * 0 + 0) 0 = true)
      by (intros x; apply eqb_true; lra).
    rewrite H. reflexivity.
Qed.

Lemma target_year_not_ahead_raises_witness :
  App.goal_analysis 1000000 50000 0.05 0.12 (-1) = Raise ValueError.
Proof.
  apply (target_year_not_ahead_raises 1000000 50000 0.05 0.12 (-1)); lia || lra.
Defined.

(** * The fetcher and the ranking together *)

(** A download that fails gives an empty frame, and one empty frame among
    the fetched data makes the ranking raise [ValueError]: the ranking of
    fetched data does not survive a single failed download. *)
Theorem failed_download_breaks_ranking
    (download : string -> result frame) (tickers : list string)
    (failing : string) (e : exn) (risk_profile : string) :
  List.NoDup tickers -> In failing tickers ->
  download (exchange_ticker failing) = Raise e ->
  fetch_stock_data download failing = []
  /\ simple_ml_recommendation
       (map (fun ticker => (ticker, fetch_stock_data download ticker)) tickers)
       risk_profile
     = Raise ValueError.
Proof.
  intros _ Hin Hfail.
  assert (Hempty : fetch_stock_data download failing = []).
  { unfold fetch_stock_data. rewrite Hfail. reflexivity. }
  split; [exact Hempty |].
  apply ml_recommendation_raises. apply List.Exists_exists.
  exists (failing, fetch_stock_data download failing). split.
  - apply (in_map (fun ticker => (ticker, fetch_stock_data download ticker))).
    exact Hin.
  - exact Hempty.
Qed.

Lemma failed_download_breaks_ranking_witness :
  simple_ml_recommendation
    (map (fun ticker =>
            (ticker,
             fetch_stock_data
               (fun t => if String.eqb t "B.NS" then Raise ValueError
                         else Ok [1; 2; 4])
               ticker))
         ["A"; "B"])
    "Moderate"
  = Raise ValueError.
Proof.
  apply (failed_download_breaks_ranking
           (fun t => if String.eqb t "B.NS" then Raise ValueError else Ok [1; 2; 4])
           ["A"; "B"] "B" ValueError "Moderate").
  - repeat constructor; cbn; intuition discriminate.
  - right. left. reflexivity.
  - reflexivity.
Defined.
